(** * ACL_check.py: matching network objects, object groups and access lists

    A shallow embedding of [src/ACL_check.py].  The script reads a parsed
    Cisco ASA configuration (a store of [IOSCfgLine] objects), takes up to
    three address queries ([-i], [-s], [-d]) and reports the network
    objects, the object groups and the access-list lines that touch the
    queried address.

    Layout of the development:
    - [Text]    : Python strings, substring test, [str.split], [int];
    - [Re]      : the fragment of Python's [re] the script's patterns use,
                  as a backtracking matcher that lists the successes in
                  the order Python tries them;
    - [Patterns]: the eight compiled patterns at the top of the script;
    - [ccp]     : the pieces of [ciscoconfparse] the script calls
                  ([IPv4Obj], [IOSCfgLine], [re_match], [add_child],
                  [find_objects]);
    - [ACL_check]: the functions and the module-level code of the script;
    - [Spec]    : the vocabulary of the statements;
    - [Examples]: small configurations, among them the scenarios of the
                  specification;
    - facts about addresses, patterns and the store, and the theorems. *)

From Stdlib Require Import ZArith List Bool Ascii String Lia DecimalString.
From stdpp Require Import base gmap.
Import ListNotations.

Local Open Scope Z_scope.

(* ------------------------------------------------------------------ *)
(** * Python values shared by every part *)

(** The exceptions the script can meet.  [AssertionError],
    [AddressValueError] and [NetmaskValueError] come out of [IPv4Obj];
    [NameError] carries the name that is not bound; [SystemExit] is
    [sys.exit()] and [parser.error]. *)
Inductive exn : Type :=
| AssertionError
| AddressValueError
| NetmaskValueError
| NameError (name : string)
| TypeError
| SystemExit.

(** The result of running a piece of Python: a value or a raised
    exception. *)
Inductive outcome (A : Type) : Type :=
| Return (a : A)
| Raise (e : exn).
Arguments Return {A} a.
Arguments Raise {A} e.

Definition bind {A B : Type} (m : outcome A) (k : A -> outcome B) : outcome B :=
  match m with
  | Return a => k a
  | Raise e => Raise e
  end.

Notation "'let*' x ':=' m 'in' k" := (bind m (fun x => k))
  (at level 10, x name, m at level 100, k at level 200).

(** [try: m except: handler] with a bare [except]. *)
Definition try_except {A : Type} (m : outcome A) (handler : A) : A :=
  match m with
  | Return a => a
  | Raise _ => handler
  end.

(* ------------------------------------------------------------------ *)
(** * Text *)

Module Text.

(** Python strings are modelled as lists of characters; string literals
    of the script are written as Rocq strings and converted with [str]. *)
Definition str (s : string) : list ascii := list_ascii_of_string s.

Definition chr_eqb (a b : ascii) : bool := Ascii.eqb a b.

Fixpoint text_eqb (a b : list ascii) : bool :=
  match a, b with
  | [], [] => true
  | x :: a', y :: b' => chr_eqb x y && text_eqb a' b'
  | _, _ => false
  end.

(** [s.startswith(p)] *)
Fixpoint startswith (p s : list ascii) : bool :=
  match p, s with
  | [], _ => true
  | x :: p', y :: s' => chr_eqb x y && startswith p' s'
  | _ :: _, [] => false
  end.

(** [needle in hay] on strings: [needle] occurs somewhere in [hay].  The
    empty string occurs in every string. *)
Fixpoint contains_text (needle hay : list ascii) : bool :=
  startswith needle hay ||
  match hay with
  | [] => false
  | _ :: hay' => contains_text needle hay'
  end.

(** [s.split(sep)] for a one-character separator. *)
Fixpoint split (sep : ascii) (s : list ascii) : list (list ascii) :=
  match s with
  | [] => [[]]
  | c :: s' =>
      if chr_eqb c sep then [] :: split sep s'
      else match split sep s' with
           | [] => [[c]]
           | w :: ws => (c :: w) :: ws
           end
  end.

Definition is_digit (c : ascii) : bool :=
  let n := nat_of_ascii c in (48 <=? n)%nat && (n <=? 57)%nat.

Definition digit_value (c : ascii) : Z := Z.of_nat (nat_of_ascii c - 48).

(** [int(s)] for a string of decimal digits, most significant first.
    ([int] raises on any other text; the script only applies it to what
    a pattern of digits has captured.) *)
Definition int_of_digits (s : list ascii) : Z :=
  fold_left (fun acc c => acc * 10 + digit_value c) s 0.

(** Python's notion of a whitespace character, on the code points below
    256: tab to carriage return, the four separators 28..31, space,
    NEL and the no-break space. *)
Definition is_space (c : ascii) : bool :=
  let n := nat_of_ascii c in
  ((9 <=? n)%nat && (n <=? 13)%nat) ||
  ((28 <=? n)%nat && (n <=? 32)%nat) ||
  (n =? 133)%nat || (n =? 160)%nat.

(** [str(n)] for an integer. *)
Definition str_of_Z (n : Z) : list ascii :=
  str (NilZero.string_of_int (Z.to_int n)).

(** Truth value of a string: the empty string is false. *)
Definition truthy (s : list ascii) : bool :=
  match s with
  | [] => false
  | _ :: _ => true
  end.

End Text.

(* ------------------------------------------------------------------ *)
(** * The fragment of Python's [re] used by the script *)

Module Re.
Import Text.

(** Pattern syntax.  Repetition of a whole sub-pattern is only needed
    with a fixed count ([{3}]) and as [?]; the unbounded repetitions of
    the script ([\S+], [\d+], [\s*]) are all over a character class. *)
Inductive regex : Type :=
| Eps                                   (* the empty pattern *)
| Bol                                   (* ^ *)
| Eol                                   (* $ *)
| Cls (p : ascii -> bool)               (* one character of a class *)
| Seq (r1 r2 : regex)                   (* r1 r2 *)
| Alt (r1 r2 : regex)                   (* r1|r2 *)
| Opt (r : regex)                       (* r? , greedy *)
| Plus (p : ascii -> bool)              (* [class]+ , greedy *)
| Star (p : ascii -> bool)              (* [class]* , greedy *)
| Rep (n : nat) (r : regex)             (* r{n} *)
| Grp (i : nat) (r : regex).            (* capturing group number i *)

(** A literal string. *)
Fixpoint Lit (s : list ascii) : regex :=
  match s with
  | [] => Eps
  | c :: s' => Seq (Cls (chr_eqb c)) (Lit s')
  end.

(** Character classes. *)
Definition range (lo hi : ascii) : ascii -> bool :=
  fun c => let n := nat_of_ascii c in
           (nat_of_ascii lo <=? n)%nat && (n <=? nat_of_ascii hi)%nat.
Definition non_space : ascii -> bool := fun c => negb (is_space c).
Definition one_of (s : string) : ascii -> bool :=
  fun c => existsb (chr_eqb c) (str s).

(** The state of a match attempt: the offset reached in the subject, the
    text not yet consumed, and the groups captured so far (most recent
    first). *)
Record mstate : Type := MState {
  pos : nat;
  rest : list ascii;
  caps : list (nat * list ascii)
}.

Definition advance (c : ascii) (r : list ascii) (st : mstate) : mstate :=
  MState (S (pos st)) r (caps st).

(** [\Z]-like end test of [$] without MULTILINE: at the end of the
    subject, or just before a newline that ends it. *)
Definition at_end (s : list ascii) : bool :=
  match s with
  | [] => true
  | [c] => (nat_of_ascii c =? 10)%nat
  | _ => false
  end.

(** Greedy [class]*: every way to consume a run of class characters,
    longest first. *)
Fixpoint star_from (p : ascii -> bool) (n : nat) (s : list ascii)
    (cs : list (nat * list ascii)) : list mstate :=
  match s with
  | c :: s' =>
      if p c then star_from p (S n) s' cs ++ [MState n s cs]
      else [MState n s cs]
  | [] => [MState n s cs]
  end.

(** [rmatch r st] lists the states in which a match of [r] started in
    [st] can end, in the order in which a backtracking matcher reaches
    them: the first element is the match Python reports. *)
Fixpoint rmatch (r : regex) (st : mstate) : list mstate :=
  match r with
  | Eps => [st]
  | Bol => if (pos st =? 0)%nat then [st] else []
  | Eol => if at_end (rest st) then [st] else []
  | Cls p =>
      match rest st with
      | c :: s' => if p c then [advance c s' st] else []
      | [] => []
      end
  | Seq r1 r2 => flat_map (rmatch r2) (rmatch r1 st)
  | Alt r1 r2 => rmatch r1 st ++ rmatch r2 st
  | Opt r1 => rmatch r1 st ++ [st]
  | Plus p =>
      match rest st with
      | c :: s' => if p c then star_from p (S (pos st)) s' (caps st) else []
      | [] => []
      end
  | Star p => star_from p (pos st) (rest st) (caps st)
  | Rep n r1 =>
      Nat.iter n (fun k st' => flat_map k (rmatch r1 st')) (fun st' => [st']) st
  | Grp i r1 =>
      map (fun st' =>
             MState (pos st') (rest st')
                    ((i, firstn (pos st' - pos st) (rest st)) :: caps st'))
          (rmatch r1 st)
  end.

(** Number of capturing groups of a pattern. *)
Fixpoint groups (r : regex) : nat :=
  match r with
  | Seq r1 r2 | Alt r1 r2 => (groups r1 + groups r2)%nat
  | Opt r1 | Rep _ r1 => groups r1
  | Grp _ r1 => S (groups r1)
  | _ => 0%nat
  end.

(** Text of group [i] in a list of captures; [None] when the group did
    not take part in the match. *)
Fixpoint group (i : nat) (cs : list (nat * list ascii)) : option (list ascii) :=
  match cs with
  | [] => None
  | (j, w) :: cs' => if (i =? j)%nat then Some w else group i cs'
  end.

(** One match attempt at offset [n], the subject from there on being
    [s]. *)
Definition match_at (r : regex) (n : nat) (s : list ascii) : option mstate :=
  head (rmatch r (MState n s [])).

(** A match object: where the match starts, the subject from there on,
    and the final state. *)
Record match_obj : Type := MatchObj {
  m_start : nat;
  m_subject : list ascii;
  m_end : mstate
}.

(** [mm.group(0)] *)
Definition whole (m : match_obj) : list ascii :=
  firstn (pos (m_end m) - m_start m) (m_subject m).

(** [pattern.search(s)]: the leftmost offset at which the pattern
    matches. *)
Fixpoint search_from (r : regex) (n : nat) (s : list ascii) : option match_obj :=
  match match_at r n s with
  | Some st => Some (MatchObj n s st)
  | None =>
      match s with
      | [] => None
      | _ :: s' => search_from r (S n) s'
      end
  end.

Definition search (r : regex) (s : list ascii) : option match_obj :=
  search_from r 0 s.

(** What [findall] yields for one match: the text of the group when the
    pattern has exactly one, the whole match when it has none.  (Patterns
    with several groups yield tuples; the script has none.) *)
Definition findall_item (r : regex) (m : match_obj) : list ascii :=
  match groups r with
  | 0%nat => whole m
  | _ => match group 1 (caps (m_end m)) with
         | Some w => w
         | None => []
         end
  end.

(** [pattern.findall(s)]: the matches from left to right, without
    overlap.  [skip] counts the characters of the last match that are
    still to be stepped over.  (After an empty match the scan moves on by
    one character; the script's patterns never match the empty string.) *)
Fixpoint findall_from (r : regex) (skip n : nat) (s : list ascii)
    : list (list ascii) :=
  match skip with
  | S k =>
      match s with
      | [] => []
      | _ :: s' => findall_from r k (S n) s'
      end
  | O =>
      match match_at r n s with
      | Some st =>
          findall_item r (MatchObj n s st) ::
          match s with
          | [] => []
          | _ :: s' => findall_from r (pos st - n - 1) (S n) s'
          end
      | None =>
          match s with
          | [] => []
          | _ :: s' => findall_from r 0 (S n) s'
          end
      end
  end.

Definition findall (r : regex) (s : list ascii) : list (list ascii) :=
  findall_from r 0 0 s.

End Re.

(* ------------------------------------------------------------------ *)
(** * The compiled patterns of the script (lines 18-25) *)

Module Patterns.
Import Text Re.

Definition dot : regex := Cls (chr_eqb "."%char).
Definition d09 : ascii -> bool := range "0"%char "9"%char.

(** [(?:25[0-5]|2[0-4][0-9]|[01]?[0-9][0-9]?)] *)
Definition octet : regex :=
  Alt (Seq (Lit (str "25")) (Cls (range "0"%char "5"%char)))
 (Alt (Seq (Lit (str "2")) (Seq (Cls (range "0"%char "4"%char)) (Cls d09)))
      (Seq (Opt (Cls (one_of "01"))) (Seq (Cls d09) (Opt (Cls d09))))).

(** [(?:octet\.){3}octet] *)
Definition dotted_quad : regex :=
  Seq (Rep 3 (Seq octet dot)) octet.

(** [^object network (\S+)$] *)
Definition RE_OBJECT_NETWORK : regex :=
  Seq Bol (Seq (Lit (str "object network ")) (Seq (Grp 1 (Plus non_space)) Eol)).

(** [^object-group network (\S+)$] *)
Definition RE_OBJECT_GROUP : regex :=
  Seq Bol (Seq (Lit (str "object-group network ")) (Seq (Grp 1 (Plus non_space)) Eol)).

(** [^ host\s(\S+)$] *)
Definition RE_HOST : regex :=
  Seq Bol (Seq (Lit (str " host")) (Seq (Cls is_space)
      (Seq (Grp 1 (Plus non_space)) Eol))).

(** [^ subnet ([\S ]+)$] *)
Definition RE_SUBNET : regex :=
  Seq Bol (Seq (Lit (str " subnet "))
      (Seq (Grp 1 (Plus (fun c => non_space c || chr_eqb c " "%char))) Eol)).

(** [^ network-object host (\S+)$] *)
Definition RE_NETWORK_OBJECT_HOST : regex :=
  Seq Bol (Seq (Lit (str " network-object host ")) (Seq (Grp 1 (Plus non_space)) Eol)).

(** [^ network-object object (\S+)$] *)
Definition RE_NETWORK_OBJECT_OBJECT : regex :=
  Seq Bol (Seq (Lit (str " network-object object ")) (Seq (Grp 1 (Plus non_space)) Eol)).

(** [host ((?:octet\.){3}octet)] *)
Definition RE_BARE_ACL_HOST : regex :=
  Seq (Lit (str "host ")) (Grp 1 dotted_quad).

(** [(?:octet\.){3}octet (?:octet\.){3}octet] *)
Definition RE_BARE_SUBNET : regex :=
  Seq dotted_quad (Seq (Lit (str " ")) dotted_quad).

(** The pattern of [config.find_objects("^access-list ")]. *)
Definition RE_ACCESS_LIST : regex :=
  Seq Bol (Lit (str "access-list ")).

End Patterns.

(* ------------------------------------------------------------------ *)
(** * The parts of [ciscoconfparse] the script calls

    [ciscoconfparse] is a library the script imports; the definitions of
    this module follow the library's code ([ccp_util.IPv4Obj],
    [ccp_abc.BaseCfgLine], [CiscoConfParse.find_objects]) and, below
    [IPv4Obj], Python's [ipaddress] module. *)

Module ccp.
Import Text Re.

(** ** [IPv4Obj] *)

(** [\d+\.\d+\.\d+\.\d+] *)
Definition dotted_digits : regex :=
  let d := Plus is_digit in
  let dot := Cls (chr_eqb "."%char) in
  Seq d (Seq dot (Seq d (Seq dot (Seq d (Seq dot d))))).

(** The pattern [_RGX_IPV4ADDR_NETMASK] of [ccp_util]:
<<
     ^(?P<addr0>D)$
   | ^(?P<addr1>D)(?:\s+|\/)(?P<netmask>D)$
   | ^\s*(?P<addr2>D)\/(?P<masklen>\d+)\s*$
>>
    with [D] the dotted digits; the groups are numbered 1 to 5 in that
    order. *)
Definition RGX_IPV4ADDR_NETMASK : regex :=
  Alt (Seq Bol (Seq (Grp 1 dotted_digits) Eol))
 (Alt (Seq Bol (Seq (Grp 2 dotted_digits)
         (Seq (Alt (Plus is_space) (Cls (chr_eqb "/"%char)))
         (Seq (Grp 3 dotted_digits) Eol))))
      (Seq Bol (Seq (Star is_space) (Seq (Grp 4 dotted_digits)
         (Seq (Cls (chr_eqb "/"%char)) (Seq (Grp 5 (Plus is_digit))
         (Seq (Star is_space) Eol))))))).

(** [ipaddress._BaseV4._parse_octet]: decimal digits only, at most three
    of them, no leading zero, at most 255. *)
Definition parse_octet (s : list ascii) : outcome Z :=
  if negb (truthy s) then Raise AddressValueError
  else if negb (forallb is_digit s) then Raise AddressValueError
  else if (3 <? length s)%nat then Raise AddressValueError
  else if (1 <? length s)%nat && startswith (str "0") s then Raise AddressValueError
  else
    let n := int_of_digits s in
    if 255 <? n then Raise AddressValueError else Return n.

(** [int.from_bytes(octets, 'big')] *)
Definition from_bytes (octets : list Z) : Z :=
  fold_left (fun acc b => Z.shiftl acc 8 + b) octets 0.

Fixpoint parse_octets (l : list (list ascii)) : outcome (list Z) :=
  match l with
  | [] => Return []
  | s :: l' =>
      let* b := parse_octet s in
      let* bs := parse_octets l' in
      Return (b :: bs)
  end.

(** [ipaddress._BaseV4._ip_int_from_string] on the list of the octets'
    texts. *)
Definition ip_int_from_octets (l : list (list ascii)) : outcome Z :=
  if negb (length l =? 4)%nat then Raise AddressValueError
  else
    let* bs := parse_octets l in
    Return (from_bytes bs).

Definition ALL_ONES : Z := Z.ones 32.
Definition max_prefixlen : Z := 32.

(** [int.bit_length] *)
Definition bit_length (n : Z) : Z :=
  if n =? 0 then 0 else Z.log2 (Z.abs n) + 1.

(** [ipaddress._count_righthand_zero_bits] *)
Definition count_righthand_zero_bits (number bits : Z) : Z :=
  if number =? 0 then bits
  else Z.min bits (bit_length (Z.land (Z.lnot number) (number - 1))).

(** [ipaddress._IPAddressBase._prefix_from_ip_int]: [None] stands for
    the [ValueError] of a mask that mixes zeroes and ones. *)
Definition prefix_from_ip_int (ip_int : Z) : option Z :=
  let trailing_zeroes := count_righthand_zero_bits ip_int max_prefixlen in
  let prefixlen := max_prefixlen - trailing_zeroes in
  let leading_ones := Z.shiftr ip_int trailing_zeroes in
  let all_ones := Z.shiftl 1 prefixlen - 1 in
  if negb (leading_ones =? all_ones) then None else Some prefixlen.

(** [ipaddress._IPAddressBase._prefix_from_ip_string]: a netmask, or
    failing that a hostmask, in dotted form. *)
Definition prefix_from_ip_string (ip_str : list ascii) : outcome Z :=
  match ip_int_from_octets (split "."%char ip_str) with
  | Raise _ => Raise NetmaskValueError
  | Return ip_int =>
      match prefix_from_ip_int ip_int with
      | Some p => Return p
      | None =>
          match prefix_from_ip_int (Z.lxor ip_int ALL_ONES) with
          | Some p => Return p
          | None => Raise NetmaskValueError
          end
      end
  end.

(** An [IPv4Obj]: the address ([ip_object]) and the prefix length of its
    network ([network_object.prefixlen]). *)
Record IPv4Obj : Type := mkIPv4Obj {
  ip_object : Z;
  prefixlen : Z
}.

Definition netmask (a : IPv4Obj) : Z :=
  Z.lxor ALL_ONES (Z.shiftr ALL_ONES (prefixlen a)).
Definition hostmask (a : IPv4Obj) : Z :=
  Z.shiftr ALL_ONES (prefixlen a).
(** [IPv4Network(..., strict=False).network_address] *)
Definition network (a : IPv4Obj) : Z := Z.land (ip_object a) (netmask a).
(** [network_object.broadcast_address] *)
Definition broadcast (a : IPv4Obj) : Z := Z.lor (network a) (hostmask a).

(** The first of the optional texts that is there and not empty
    ([a or b or c or default]). *)
Fixpoint first_truthy (l : list (option (list ascii))) (default : list ascii)
    : list ascii :=
  match l with
  | [] => default
  | Some w :: l' => if truthy w then w else first_truthy l' default
  | None :: l' => first_truthy l' default
  end.

(** [IPv4Obj(arg)].  The address is normalised octet by octet with
    [str(int(ii))] before [ipaddress] parses it; the netmask is passed on
    as written.  [IPv4Network] parses the address before the mask, with
    [strict=False]; [netmask] is the text of the group of that name, empty
    when the group took no part in the match. *)
Definition IPv4Obj_init (arg : list ascii) : outcome IPv4Obj :=
  match search RGX_IPV4ADDR_NETMASK arg with
  | None => Raise AssertionError
  | Some mm =>
      let g := fun i => group i (caps (m_end mm)) in
      let addr := first_truthy [g 1%nat; g 2%nat; g 4%nat] (str "127.0.0.1") in
      let addr := map (fun ii => str_of_Z (int_of_digits ii)) (split "."%char addr) in
      let masklen := int_of_digits (first_truthy [g 5%nat] (str "32")) in
      let netmask := first_truthy [g 3%nat] [] in
      let* ip := ip_int_from_octets addr in
      if truthy netmask then
        let* p := prefix_from_ip_string netmask in
        Return (mkIPv4Obj ip p)
      else
        if max_prefixlen <? masklen then Raise NetmaskValueError
        else Return (mkIPv4Obj ip masklen)
  end.

(** [IPv4Obj.__contains__]: [contains self val] is [val in self]. *)
Definition contains (self val : IPv4Obj) : bool :=
  if prefixlen self =? 0 then true
  else if prefixlen self >? prefixlen val then false
  else (network self <=? network val) && (broadcast self >=? broadcast val).

(** ** Configuration lines

    The parsed configuration is a store of [IOSCfgLine] objects.  An
    object is known by its address in the store; [children] and [parent]
    hold addresses, so that two lists can share a line. *)

Definition loc : Type := positive.

Record IOSCfgLine : Type := mkLine {
  text : list ascii;
  linenum : Z;
  parent : loc;
  indent : nat;
  child_indent : nat;
  children : list loc
}.

Abbreviation heap := (gmap loc IOSCfgLine).

(** [obj.text] and [obj.children]; an address that is not in the store
    (which Python cannot produce) reads as an empty line. *)
Definition text_of (h : heap) (l : loc) : list ascii :=
  from_option text [] (h !! l).
Definition children_of (h : heap) (l : loc) : list loc :=
  from_option children [] (h !! l).
Definition indent_of (h : heap) (l : loc) : nat :=
  from_option indent 0%nat (h !! l).

(** [IOSCfgLine(text)]: a new line that is its own parent, has no
    children and carries the line number -1. *)
Definition IOSCfgLine_init (h : heap) (txt : list ascii) : heap * loc :=
  let l := fresh (dom h) in
  (<[l := mkLine txt (-1) l 0 0 []]> h, l).

(** [BaseCfgLine.__eq__]: two lines are equal when the texts
    [str(linenum) + text] are. *)
Definition line_key (o : IOSCfgLine) : list ascii :=
  str_of_Z (linenum o) ++ text o.
Definition line_eq (h : heap) (a b : loc) : bool :=
  match h !! a, h !! b with
  | Some x, Some y => text_eqb (line_key x) (line_key y)
  | _, _ => false
  end.

(** [x in l] on a list of lines: identity first, then [__eq__]. *)
Definition line_in (h : heap) (x : loc) (l : list loc) : bool :=
  existsb (fun y => Pos.eqb x y || line_eq h x y) l.

(** [self.add_child(childobj)]: append [childobj] to [self.children]
    unless it is there already, and record its indentation.  Only the
    object [self] is written. *)
Definition add_child (h : heap) (self childobj : loc) : heap * bool :=
  if line_in h childobj (children_of h self) then (h, false)
  else
    (alter (fun o => mkLine (text o) (linenum o) (parent o) (indent o)
                            (indent_of h childobj)
                            (children o ++ [childobj])) self h,
     true).

(** [self.re_match(regex, group=1, default=...)]: the text of group 1 of
    the first match in [self.text], or [default].  The result is a Python
    string or [None]. *)
Definition re_match (h : heap) (self : loc) (regex : Re.regex)
    (default : option (list ascii)) : option (list ascii) :=
  match search regex (text_of h self) with
  | Some mm => group 1 (caps (m_end mm))
  | None => default
  end.

(** The default [default=""] of [re_match]. *)
Definition default_empty : option (list ascii) := Some [].

(** [config.find_objects(linespec)]: the lines of the configuration, in
    file order, whose text the pattern matches somewhere.  [config] lists
    every line of the file, parents and children alike. *)
Definition find_objects (h : heap) (config : list loc) (linespec : Re.regex)
    : list loc :=
  List.filter (fun l => match search linespec (text_of h l) with
                        | Some _ => true
                        | None => false
                        end) config.

End ccp.

(* ------------------------------------------------------------------ *)
(** * The script *)

Module ACL_check.
Import Text Re Patterns ccp.

(** Truth value of an optional string ([None] and [""] are false). *)
Definition opt_truthy (o : option (list ascii)) : bool :=
  match o with
  | Some w => truthy w
  | None => false
  end.

(** [needle in hay] where [needle] may be [None] (a [TypeError]). *)
Definition opt_in_text (needle : option (list ascii)) (hay : list ascii)
    : outcome bool :=
  match needle with
  | Some w => Return (contains_text w hay)
  | None => Raise TypeError
  end.

(** [addr in subnet], where [subnet] may be [None]: [None] has no
    [__contains__]. *)
Definition in_subnet (addr : IPv4Obj) (subnet : option IPv4Obj) : outcome bool :=
  match subnet with
  | Some s => Return (contains s addr)
  | None => Raise TypeError
  end.

(** Lines 134-139. *)
Fixpoint is_substring_of_obj_list (h : heap) (obj_name : list ascii)
    (matched_objects : list loc) : bool :=
  match matched_objects with
  | [] => false
  | obj :: rest =>
      if contains_text obj_name (text_of h obj) then true
      else is_substring_of_obj_list h obj_name rest
  end.

(** Lines 161-166: the test of the [if]/[elif], whose two branches both
    append the object and leave the loop: the query contains the address
    or the address contains the query. *)
Definition contains_or_is_contained (a b : IPv4Obj) : bool :=
  if contains b a then true
  else if contains a b then true
  else false.

(** Lines 150-166, the loop over the children of one object: [true] when
    the loop ends in [matched_objects.append(obj); break], [false] when
    it runs to its end. *)
Fixpoint scan_children (h : heap) (subnet : IPv4Obj) (cs : list loc)
    : outcome bool :=
  match cs with
  | [] => Return false
  | child :: cs' =>
      let ip_str := re_match h child RE_HOST None in
      let ip_str := if negb (opt_truthy ip_str)
                    then re_match h child RE_SUBNET None else ip_str in
      match ip_str with
      | Some s =>
          if truthy s then
            let* addr := IPv4Obj_init s in
            if contains_or_is_contained addr subnet then Return true
            else scan_children h subnet cs'
          else scan_children h subnet cs'
      | None => scan_children h subnet cs'
      end
  end.

(** Lines 147-168, the loop over the objects, [matched_objects] being
    the list built so far. *)
Fixpoint match_network_objects_loop (h : heap) (subnet : IPv4Obj)
    (network_objects matched_objects : list loc) : outcome (list loc) :=
  match network_objects with
  | [] => Return matched_objects
  | obj :: rest =>
      let* hit := scan_children h subnet (children_of h obj) in
      match_network_objects_loop h subnet rest
        (if hit then matched_objects ++ [obj] else matched_objects)
  end.

(** Lines 141-168. *)
Definition match_network_objects (h : heap) (subnet : IPv4Obj)
    (network_objects : list loc) : outcome (list loc) :=
  match_network_objects_loop h subnet network_objects [].

(** Lines 178-193, the loop over the children of one group, [children]
    being the list accumulated so far. *)
Fixpoint collect_children (h : heap) (subnet : IPv4Obj)
    (matched_objects : list loc) (cs children : list loc)
    : outcome (list loc) :=
  match cs with
  | [] => Return children
  | child :: cs' =>
      let network_object := re_match h child RE_NETWORK_OBJECT_OBJECT None in
      if opt_truthy network_object then
        if is_substring_of_obj_list h (default [] network_object) matched_objects
        then collect_children h subnet matched_objects cs' (children ++ [child])
        else collect_children h subnet matched_objects cs' children
      else
        let ip_str := re_match h child RE_NETWORK_OBJECT_HOST None in
        if opt_truthy ip_str then
          let* addr := IPv4Obj_init (default [] ip_str) in
          if contains subnet addr
          then collect_children h subnet matched_objects cs' (children ++ [child])
          else collect_children h subnet matched_objects cs' children
        else collect_children h subnet matched_objects cs' children
  end.

(** Lines 203-204: [for child in children: parent.add_child(child)]. *)
Fixpoint add_children (h : heap) (parent : loc) (children : list loc) : heap :=
  match children with
  | [] => h
  | child :: rest => add_children (fst (add_child h parent child)) parent rest
  end.

(** Lines 175-206, the loop over the groups.  The store is threaded
    through: every matched group allocates a new line. *)
Fixpoint match_network_object_groups_loop (h : heap) (subnet : IPv4Obj)
    (object_groups matched_objects matched_groups : list loc)
    : heap * outcome (list loc) :=
  match object_groups with
  | [] => (h, Return matched_groups)
  | grp :: rest =>
      match collect_children h subnet matched_objects (children_of h grp) [] with
      | Raise e => (h, Raise e)
      | Return [] =>
          match_network_object_groups_loop h subnet rest matched_objects
            matched_groups
      | Return children =>
          let '(h1, parent) := IOSCfgLine_init h (text_of h grp) in
          let h2 := add_children h1 parent children in
          match_network_object_groups_loop h2 subnet rest matched_objects
            (matched_groups ++ [parent])
      end
  end.

(** Lines 170-207. *)
Definition match_network_object_groups (h : heap) (subnet : IPv4Obj)
    (object_groups matched_objects : list loc) : heap * outcome (list loc) :=
  match_network_object_groups_loop h subnet object_groups matched_objects [].

(** ** The module-level code *)

(** The result of [parser.parse_args()]. *)
Record Namespace : Type := mkArgs {
  ip : option (list ascii);
  source : option (list ascii);
  dest : option (list ascii);
  acl_name : option (list ascii);
  in_file : option (list ascii);
  pickle_file : option (list ascii);
  out_file : option (list ascii);
  debug : bool
}.

(** Lines 47-50: [-f] and [-p] form a mutually exclusive group, and
    [parse_args] ends the run when both are on the command line,
    whatever their values. *)
Definition parse_args_inputs (args : Namespace) : outcome unit :=
  match in_file args, pickle_file args with
  | Some _, Some _ => Raise SystemExit
  | _, _ => Return tt
  end.

(** Lines 60-74: conflicting arguments end the run in [parser.error]. *)
Definition check_arguments (args : Namespace) : outcome unit :=
  if opt_truthy (out_file args) &&
     (opt_truthy (ip args) || opt_truthy (source args) || opt_truthy (dest args))
  then Raise SystemExit
  else if opt_truthy (pickle_file args) && opt_truthy (out_file args)
  then Raise SystemExit
  else if opt_truthy (ip args) &&
          (opt_truthy (source args) || opt_truthy (dest args))
  then Raise SystemExit
  else if negb (opt_truthy (ip args) || opt_truthy (source args) ||
                opt_truthy (dest args) || opt_truthy (out_file args))
  then Raise SystemExit
  else if negb (opt_truthy (in_file args) || opt_truthy (pickle_file args))
  then Raise SystemExit
  else Return tt.

(** Lines 47-74: the checks the arguments go through before anything is
    read, those of [parse_args] first. *)
Definition accept_arguments (args : Namespace) : outcome unit :=
  let* _ := parse_args_inputs args in check_arguments args.

(** Lines 92-113, for one of the three arguments: [None] when the
    argument is absent; an argument that does not parse prints
    "Invalid subnet/IP" and ends the run. *)
Definition cast_argument (arg : option (list ascii)) : outcome (option IPv4Obj) :=
  if opt_truthy arg then
    match IPv4Obj_init (default [] arg) with
    | Return a => Return (Some a)
    | Raise _ => Raise SystemExit
    end
  else Return None.

(** Reading a global name that an [if] may have left unbound. *)
Definition global {A : Type} (name : string) (v : option A) : outcome A :=
  match v with
  | Some a => Return a
  | None => Raise (NameError name)
  end.

(** Lines 244-248 and 250-254: the loop over a list of matched lines
    (objects with [RE_OBJECT_NETWORK], groups with [RE_OBJECT_GROUP]);
    [true] when it ends in [ACL_matches.append(line); break]. *)
Fixpoint check_names (h : heap) (regex : Re.regex) (objs : list loc)
    (line_text : list ascii) : outcome bool :=
  match objs with
  | [] => Return false
  | obj :: rest =>
      let obj_name := re_match h obj regex default_empty in
      let* hit := opt_in_text obj_name line_text in
      if hit then Return true else check_names h regex rest line_text
  end.

(** Lines 257-260: the loop over the bare host addresses of a line. *)
Fixpoint check_bare_hosts (subnet : option IPv4Obj) (IPs : list (list ascii))
    : outcome bool :=
  match IPs with
  | [] => Return false
  | IP :: rest =>
      let* addr := IPv4Obj_init IP in
      let* hit := in_subnet addr subnet in
      if hit then Return true else check_bare_hosts subnet rest
  end.

(** Lines 265-271: the loop over the bare subnets of a line; whatever
    the body raises is dropped and the loop goes on. *)
Fixpoint check_bare_subnets (subnet : option IPv4Obj) (IPs : list (list ascii))
    : bool :=
  match IPs with
  | [] => false
  | IP :: rest =>
      if try_except (let* addr := IPv4Obj_init IP in in_subnet addr subnet) false
      then true
      else check_bare_subnets subnet rest
  end.

Definition append_if (b : bool) (l : list loc) (x : loc) : list loc :=
  if b then l ++ [x] else l.

(** Lines 243-271: the body of [for line in ACL], from the list
    [ACL_matches] before the line to the list after it. *)
Definition ACL_line (h : heap) (matched_objects matched_groups : option (list loc))
    (subnet : option IPv4Obj) (line : loc) (ACL_matches : list loc)
    : outcome (list loc) :=
  let line_text := text_of h line in
  let* objs := global "matched_objects" matched_objects in
  let* hit1 := check_names h RE_OBJECT_NETWORK objs line_text in
  let ACL_matches := append_if hit1 ACL_matches line in
  let* grps := global "matched_groups" matched_groups in
  let* hit2 := check_names h RE_OBJECT_GROUP grps line_text in
  let ACL_matches := append_if hit2 ACL_matches line in
  let* hit3 := check_bare_hosts subnet (findall RE_BARE_ACL_HOST line_text) in
  let ACL_matches := append_if hit3 ACL_matches line in
  let hit4 := check_bare_subnets subnet (findall RE_BARE_SUBNET line_text) in
  Return (append_if hit4 ACL_matches line).

(** Lines 241-271. *)
Fixpoint ACL_loop (h : heap) (matched_objects matched_groups : option (list loc))
    (subnet : option IPv4Obj) (ACL ACL_matches : list loc)
    : outcome (list loc) :=
  match ACL with
  | [] => Return ACL_matches
  | line :: rest =>
      let* ACL_matches := ACL_line h matched_objects matched_groups subnet
                                   line ACL_matches in
      ACL_loop h matched_objects matched_groups subnet rest ACL_matches
  end.

(** Lines 273-287: what the script prints. *)
Definition print_blocks (h : heap) (objs : list loc) : list (list ascii) :=
  flat_map (fun obj => text_of h obj :: map (text_of h) (children_of h obj)) objs.

(** What a run that reaches its end leaves: the three result lists and
    the printed lines. *)
Record Result : Type := mkResult {
  matched_objects : list loc;
  matched_groups : list loc;
  ACL_matches : list loc;
  stdout : list (list ascii)
}.

(** [if q: v = f(q, ...)] for a pure [f]: the variable stays unbound
    when the query is absent. *)
Definition when_query {A : Type} (q : option IPv4Obj) (f : IPv4Obj -> outcome A)
    : outcome (option A) :=
  match q with
  | Some a => let* v := f a in Return (Some v)
  | None => Return None
  end.

(** The same for [match_network_object_groups], which writes the
    store. *)
Definition when_query_groups (h : heap) (q : option IPv4Obj)
    (object_groups : list loc) (matched : outcome (list loc))
    : heap * outcome (option (list loc)) :=
  match q with
  | Some a =>
      match matched with
      | Return objs =>
          let '(h', r) := match_network_object_groups h a object_groups objs in
          (h', let* v := r in Return (Some v))
      | Raise e => (h, Raise e)
      end
  | None => (h, Return None)
  end.

(** Lines 213-287, once the arguments are cast and the configuration is
    loaded: [h] is the store and [config] the lines of the file.  The
    prints under [if debug] are left out: [stdout] is what a run without
    [--debug] prints. *)
Definition run (h : heap) (config : list loc) (subnet source dest : option IPv4Obj)
    : heap * outcome Result :=
  let net_objs := find_objects h config RE_OBJECT_NETWORK in
  match when_query subnet (fun q => match_network_objects h q net_objs) with
  | Raise e => (h, Raise e)
  | Return matched_objects =>
  match when_query source (fun q => match_network_objects h q net_objs) with
  | Raise e => (h, Raise e)
  | Return source_matched_objects =>
  match when_query dest (fun q => match_network_objects h q net_objs) with
  | Raise e => (h, Raise e)
  | Return dest_matched_objects =>
  let object_groups := find_objects h config RE_OBJECT_GROUP in
  match when_query_groups h subnet object_groups
          (global "matched_objects" matched_objects) with
  | (h1, Raise e) => (h1, Raise e)
  | (h1, Return matched_groups) =>
  match when_query_groups h1 source object_groups
          (global "source_matched_objects" source_matched_objects) with
  | (h2, Raise e) => (h2, Raise e)
  | (h2, Return source_matched_groups) =>
  (* line 235 reads [dest_matched_groups], which nothing has bound *)
  match when_query_groups h2 dest object_groups
          (global "dest_matched_groups" (@None (list loc))) with
  | (h3, Raise e) => (h3, Raise e)
  | (h3, Return dest_matched_groups) =>
  let ACL := find_objects h3 config RE_ACCESS_LIST in
  (h3,
   let* ACL_matches := ACL_loop h3 matched_objects matched_groups subnet ACL [] in
   let* objs := global "matched_objects" matched_objects in
   let* grps := global "matched_groups" matched_groups in
   Return (mkResult objs grps ACL_matches
     ([str "Matched network objects"] ++ print_blocks h3 objs ++
      [str (String "010"%char "Matched object groups")] ++ print_blocks h3 grps ++
      [str (String "010"%char "Matched ACLs")] ++ map (text_of h3) ACL_matches)))
  end end end end end end.

(** The whole script, from the [Namespace] that [parse_args] returned
    and the configuration that [-f] or [-p] names, as loaded.  The files
    themselves ([open], [pickle], the parser of [CiscoConfParse]) and
    their errors are outside the model; of the pickle mode only the
    [sys.exit()] of line 84 is kept. *)
Definition main (h : heap) (config : list loc) (args : Namespace)
    : heap * outcome Result :=
  match check_arguments args with
  | Raise e => (h, Raise e)
  | Return _ =>
  if opt_truthy (out_file args) && opt_truthy (in_file args)
  then (h, Raise SystemExit)           (* the pickle file is written *)
  else
  match cast_argument (ip args) with
  | Raise e => (h, Raise e)
  | Return subnet =>
  match cast_argument (source args) with
  | Raise e => (h, Raise e)
  | Return source =>
  match cast_argument (dest args) with
  | Raise e => (h, Raise e)
  | Return dest => run h config subnet source dest
  end end end end.

End ACL_check.


(* ------------------------------------------------------------------ *)
(** * Vocabulary of the specification

    The words the statements below are written in: address ranges, the
    texts a pattern accepts, the children that make an object or a group
    match.  None of it is used by the model of the script above. *)

Module Spec.
Import Text Re Patterns ccp ACL_check.

(** An address object as [IPv4Obj(...)] builds them: a 32-bit address
    and a prefix length between 0 and 32. *)
Definition valid (a : IPv4Obj) : Prop :=
  0 <= ip_object a < 2 ^ 32 /\ 0 <= prefixlen a <= 32.

(** The range of [q], from its network address to its broadcast
    address, contains the range of [a]. *)
Definition range_containsb (q a : IPv4Obj) : bool :=
  (network q <=? network a) && (broadcast a <=? broadcast q).

(** The single address [x] lies in the range of [q]. *)
Definition in_rangeb (q : IPv4Obj) (x : Z) : bool :=
  (network q <=? x) && (x <=? broadcast q).

(** The texts a pattern can consume, anchors and groups set aside. *)
Fixpoint lang (r : regex) (w : list ascii) : Prop :=
  match r with
  | Eps | Bol | Eol => w = []
  | Cls p => exists c, w = [c] /\ p c = true
  | Seq r1 r2 => exists w1 w2, w = w1 ++ w2 /\ lang r1 w1 /\ lang r2 w2
  | Alt r1 r2 => lang r1 w \/ lang r2 w
  | Opt r1 => lang r1 w \/ w = []
  | Plus p => w <> [] /\ Forall (fun c => p c = true) w
  | Star p => Forall (fun c => p c = true) w
  | Rep n r1 =>
      Nat.iter n
        (fun L w => exists w1 w2, w = w1 ++ w2 /\ lang r1 w1 /\ L w2)
        (fun w => w = []) w
  | Grp _ r1 => lang r1 w
  end.

(** [st'] is [st] after consuming [w]. *)
Definition consumes (st : mstate) (w : list ascii) (st' : mstate) : Prop :=
  rest st = w ++ rest st' /\ pos st' = (pos st + length w)%nat.

(** The text of one octet as the bare-address patterns accept it: one to
    three decimal digits that read as a number up to 255. *)
Definition octet_text (o : list ascii) : Prop :=
  (1 <= length o <= 3)%nat /\ Forall (fun c => is_digit c = true) o /\
  int_of_digits o <= 255.

(** [a.b.c.d] *)
Definition dotted (a b c d : list ascii) : list ascii :=
  a ++ "."%char :: b ++ "."%char :: c ++ "."%char :: d.

(** The address a dotted quad spells. *)
Definition host_value (IP : list ascii) : Z :=
  from_bytes (map int_of_digits (split "."%char IP)).

(** The address text of a child of a network object: what the host
    pattern captures, or else what the subnet pattern captures. *)
Definition address_text (h : heap) (child : loc) : option (list ascii) :=
  match re_match h child RE_HOST None with
  | Some s => if truthy s then Some s else re_match h child RE_SUBNET None
  | None => re_match h child RE_SUBNET None
  end.

(** A child covers the query: it yields an address text that parses, and
    the range of the query contains the range of the address or the
    other way round. *)
Definition covering_child (h : heap) (q : IPv4Obj) (child : loc) : bool :=
  match address_text h child with
  | Some s =>
      match IPv4Obj_init s with
      | Return a => range_containsb q a || range_containsb a q
      | Raise _ => false
      end
  | None => false
  end.

(** An object with at least one covering child. *)
Definition covering_object (h : heap) (q : IPv4Obj) (obj : loc) : bool :=
  existsb (covering_child h q) (children_of h obj).

(** A dotted quad of octet texts. *)
Definition dotted_quad_text (IP : list ascii) : Prop :=
  exists a b c d, IP = dotted a b c d /\
                  octet_text a /\ octet_text b /\ octet_text c /\ octet_text d.

(** A captured pair "address mask", read as one network, lies within
    the range of the query; a pair that does not parse lies nowhere. *)
Definition pair_covered (q : IPv4Obj) (IP : list ascii) : bool :=
  match IPv4Obj_init IP with
  | Return n => range_containsb q n
  | Raise _ => false
  end.

(** The first of the two addresses of a captured pair. *)
Definition first_address (IP : list ascii) : list ascii :=
  hd [] (split " "%char IP).

(** The reading of the fourth condition that takes the first address of
    the pair on its own. *)
Definition first_address_covered (q : IPv4Obj) (IP : list ascii) : bool :=
  match IPv4Obj_init (first_address IP) with
  | Return a => range_containsb q a
  | Raise _ => false
  end.

(** Every address of the list is a line of the store. *)
Definition known (h : heap) (ls : list loc) : Prop :=
  Forall (fun l => is_Some (h !! l)) ls.

(** A child of a group is matched: its reference names a text that
    occurs in the line of a matched object, or else its host text parses
    to an address whose range lies within the range of the query. *)
Definition group_child_matched (h : heap) (q : IPv4Obj) (mo : list loc)
    (child : loc) : bool :=
  let by_host :=
    match re_match h child RE_NETWORK_OBJECT_HOST None with
    | Some s =>
        match IPv4Obj_init s with
        | Return a => range_containsb q a
        | Raise _ => false
        end
    | None => false
    end in
  match re_match h child RE_NETWORK_OBJECT_OBJECT None with
  | Some name =>
      if truthy name
      then existsb (fun obj => contains_text name (text_of h obj)) mo
      else by_host
  | None => by_host
  end.

(** A group with at least one matched child. *)
Definition matched_group (h : heap) (q : IPv4Obj) (mo : list loc) (g : loc)
    : bool :=
  existsb (group_child_matched h q mo) (children_of h g).

(** No line of [cs] is equal, as [__eq__] has it, to a line of [seen] or
    to a line before it in [cs]. *)
Fixpoint distinct_lines (h : heap) (seen cs : list loc) : bool :=
  match cs with
  | [] => true
  | c :: cs' => negb (line_in h c seen) && distinct_lines h (seen ++ [c]) cs'
  end.

(** The line [p] of the store [h'] is the group emitted for the group
    [g] of the configuration [h]: a line that [h] does not have, with the
    text of [g] and, when the children of [g] are distinct lines, with
    the matched children of [g] in their order. *)
Definition emitted_for (h h' : heap) (q : IPv4Obj) (mo : list loc) (p g : loc)
    : Prop :=
  h !! p = None /\
  text_of h' p = text_of h g /\
  (distinct_lines h [] (children_of h g) = true ->
   children_of h' p = List.filter (group_child_matched h q mo) (children_of h g)).

(** The reading of the specification for the children of a group: a
    reference is matched when its name occurs in the line of a matched
    object, and a host when its address passes the containment test of
    the network objects, the range of either containing the range of
    the other. *)
Definition child_matched_either_way (h : heap) (q : IPv4Obj) (mo : list loc)
    (child : loc) : bool :=
  let by_host :=
    match re_match h child RE_NETWORK_OBJECT_HOST None with
    | Some s =>
        match IPv4Obj_init s with
        | Return a => range_containsb q a || range_containsb a q
        | Raise _ => false
        end
    | None => false
    end in
  match re_match h child RE_NETWORK_OBJECT_OBJECT None with
  | Some name =>
      if truthy name
      then existsb (fun obj => contains_text name (text_of h obj)) mo
      else by_host
  | None => by_host
  end.

(** A group with at least one child matched in that reading. *)
Definition group_matched_either_way (h : heap) (q : IPv4Obj) (mo : list loc)
    (g : loc) : bool :=
  existsb (child_matched_either_way h q mo) (children_of h g).

(** The line [p] of the store [h'] is the group emitted for the group
    [g]: a new line with the text of [g] and, the children of [g] being
    distinct lines, with the children of [g] matched in that reading, in
    their order. *)
Definition emitted_either_way (h h' : heap) (q : IPv4Obj) (mo : list loc)
    (p g : loc) : Prop :=
  h !! p = None /\
  text_of h' p = text_of h g /\
  (distinct_lines h [] (children_of h g) = true ->
   children_of h' p
   = List.filter (child_matched_either_way h q mo) (children_of h g)).

(** The host children of the groups give single addresses: whatever
    [IPv4Obj] reads from the text after "network-object host" has the
    prefix length 32. *)
Definition host_children_single (h : heap) (groups : list loc) : Prop :=
  forall g c s a,
    In g groups -> In c (children_of h g) ->
    re_match h c RE_NETWORK_OBJECT_HOST None = Some s ->
    IPv4Obj_init s = Return a -> prefixlen a = 32.

(** ** Further notions used by the properties beyond the specification *)

(** The end of the header patterns: [(class+)$] with the group numbered
    1. *)
Definition captured_tail (cls : ascii -> bool) : regex :=
  Seq (Grp 1 (Plus cls)) Eol.

(** A text the class [cls] captures whole: not empty, made of characters
    of the class. *)
Definition word_of (cls : ascii -> bool) (w : list ascii) : Prop :=
  w <> [] /\ Forall (fun c => cls c = true) w.

(** The name the loops of lines 244-254 look for in an access-list
    line: group 1 of the header pattern on the matched line, the empty
    text when the pattern does not match. *)
Definition name_of (h : heap) (regex : Re.regex) (obj : loc) : list ascii :=
  default [] (re_match h obj regex default_empty).

(** The four conditions of lines 243-271 for one line. *)
Definition names_object (h : heap) (mo : list loc) (line : loc) : bool :=
  existsb (fun obj => contains_text (name_of h RE_OBJECT_NETWORK obj) (text_of h line)) mo.
Definition names_group (h : heap) (mg : list loc) (line : loc) : bool :=
  existsb (fun g => contains_text (name_of h RE_OBJECT_GROUP g) (text_of h line)) mg.
Definition has_host_in (h : heap) (q : IPv4Obj) (line : loc) : bool :=
  existsb (fun IP => in_rangeb q (host_value IP))
          (findall RE_BARE_ACL_HOST (text_of h line)).
Definition has_subnet_in (h : heap) (q : IPv4Obj) (line : loc) : bool :=
  existsb (pair_covered q) (findall RE_BARE_SUBNET (text_of h line)).

(** How many of the four conditions a line meets. *)
Definition conditions_met (h : heap) (mo mg : list loc) (q : IPv4Obj)
    (line : loc) : nat :=
  (Nat.b2n (names_object h mo line) + Nat.b2n (names_group h mg line) +
   Nat.b2n (has_host_in h q line) + Nat.b2n (has_subnet_in h q line))%nat.

(** The child [c] is the statement " host a.b.c.d" of a network
    object. *)
Definition host_statement (h : heap) (c : loc) : Prop :=
  exists IP, text_of h c = str " host " ++ IP /\ dotted_quad_text IP.

(** The address such a statement gives. *)
Definition host_address (h : heap) (c : loc) : Z :=
  host_value (skipn 6 (text_of h c)).

(** The child [c] of a group is " network-object host a.b.c.d" or
    " network-object object NAME". *)
Definition group_host_statement (h : heap) (c : loc) : Prop :=
  exists IP, text_of h c = str " network-object host " ++ IP /\ dotted_quad_text IP.
Definition group_reference (h : heap) (c : loc) : Prop :=
  exists name, text_of h c = str " network-object object " ++ name /\
               word_of non_space name.

(** What decides a child of one of these two forms: for a host, its
    address lies in the range of the query; for a reference, the name
    occurs in the text of a matched object. *)
Definition statement_matched (h : heap) (q : IPv4Obj) (mo : list loc) (c : loc)
    : bool :=
  if startswith (str " network-object host ") (text_of h c)
  then in_rangeb q (host_value (skipn 21 (text_of h c)))
  else existsb (fun obj => contains_text (skipn 23 (text_of h c)) (text_of h obj)) mo.

(** The argument is given and [IPv4Obj] does not accept it. *)
Definition rejected (arg : option (list ascii)) : Prop :=
  opt_truthy arg = true /\ exists e, IPv4Obj_init (default [] arg) = Raise e.

(** The three exceptions [IPv4Obj] raises. *)
Definition parse_error (e : exn) : Prop :=
  e = AssertionError \/ e = AddressValueError \/ e = NetmaskValueError.

(** A character of a dotted quad. *)
Definition digit_or_dot (c : ascii) : bool := is_digit c || chr_eqb c "."%char.

(** The arguments pass the checks of lines 47-74: one input is named
    ([-f] or [-p], not both on the command line), and the run is a
    pickle run ([-o] with [-f] and nothing else), a general query ([-i]
    alone) or a source/destination query. *)
Definition arguments_accepted (args : Namespace) : bool :=
  let i := opt_truthy (ip args) in
  let s := opt_truthy (source args) in
  let d := opt_truthy (dest args) in
  let o := opt_truthy (out_file args) in
  let p := opt_truthy (pickle_file args) in
  let f := opt_truthy (in_file args) in
  let both := match in_file args, pickle_file args with
              | Some _, Some _ => true
              | _, _ => false
              end in
  negb both && (f || p) &&
  ((o && negb p && negb i && negb s && negb d) ||
   (negb o && i && negb s && negb d) ||
   (negb o && negb i && (s || d))).

(** The network a captured pair "address mask" stands for: the first
    address with the prefix length of the mask; nothing when the second
    quad is neither a netmask nor a hostmask. *)
Definition pair_network (a m : list ascii) : option IPv4Obj :=
  match prefix_from_ip_string m with
  | Return p => Some (mkIPv4Obj (host_value a) p)
  | Raise _ => None
  end.

End Spec.

(* ------------------------------------------------------------------ *)
(** * Example configurations *)

Module Examples.
Import Text Re Patterns ccp ACL_check Spec.

(** A line as the parser leaves it: [indent] counts the blanks the text
    starts with. *)
Fixpoint leading_blanks (s : list ascii) : nat :=
  match s with
  | c :: s' => if chr_eqb c " "%char then S (leading_blanks s') else 0%nat
  | [] => 0%nat
  end.

Definition parsed (t : string) (n : Z) (p : positive) (cs : list positive)
    : IOSCfgLine :=
  mkLine (str t) n p (leading_blanks (str t)) 0 cs.

Definition arguments (i s d : option string) : Namespace :=
  mkArgs (option_map str i) (option_map str s) (option_map str d)
         None (Some (str "config")) None None false.

(** [-f config -i q], [-f config -s q] and [-f config -d q]. *)
Definition general_query (q : string) : Namespace := arguments (Some q) None None.
Definition source_query (q : string) : Namespace := arguments None (Some q) None.
Definition destination_query (q : string) : Namespace := arguments None None (Some q).

(** The first end-to-end scenario of section 8 of the specification. *)
Definition web_lines : list (positive * IOSCfgLine) :=
  [(1%positive, parsed "object network WEB" 1 1 [2%positive]);
   (2%positive, parsed " host 203.0.113.10" 2 1 []);
   (3%positive, parsed "object-group network WEB-GROUP" 3 3 [4%positive]);
   (4%positive, parsed " network-object object WEB" 4 3 []);
   (5%positive, parsed
      "access-list OUTSIDE-IN extended permit tcp any object WEB-GROUP eq 443"
      5 5 [])].
Definition web : heap := list_to_map web_lines.
Definition web_config : list loc := map fst web_lines.
Definition web_query : IPv4Obj := mkIPv4Obj 3405803776 24.   (* 203.0.113.0/24 *)

(** The second scenario: one access-list line with bare hosts. *)
Definition legacy_text : list ascii :=
  str "access-list LEGACY permit ip host 10.1.1.1 host 10.1.1.2".
Definition legacy_lines : list (positive * IOSCfgLine) :=
  [(1%positive, parsed "access-list LEGACY permit ip host 10.1.1.1 host 10.1.1.2" 1 1 [])].
Definition legacy : heap := list_to_map legacy_lines.
Definition legacy_config : list loc := map fst legacy_lines.

(** A line with a bare host and a bare subnet. *)
Definition mixed_lines : list (positive * IOSCfgLine) :=
  [(1%positive, parsed
      "access-list A permit ip 10.1.1.0 255.255.255.0 host 10.1.1.1" 1 1 [])].
Definition mixed : heap := list_to_map mixed_lines.
Definition mixed_config : list loc := map fst mixed_lines.

(** An object whose host is an IPv6 address, and a group with such a
    host. *)
Definition v6_object_lines : list (positive * IOSCfgLine) :=
  [(1%positive, parsed "object network DNS6" 1 1 [2%positive]);
   (2%positive, parsed " host 2001:db8::53" 2 1 [])].
Definition v6_object : heap := list_to_map v6_object_lines.
Definition v6_object_config : list loc := map fst v6_object_lines.

Definition v6_group_lines : list (positive * IOSCfgLine) :=
  [(1%positive, parsed "object-group network RESOLVERS" 1 1 [2%positive]);
   (2%positive, parsed " network-object host 2001:db8::53" 2 1 [])].
Definition v6_group : heap := list_to_map v6_group_lines.
Definition v6_group_config : list loc := map fst v6_group_lines.

(** A group whose host child carries a prefix length. *)
Definition wide_host_lines : list (positive * IOSCfgLine) :=
  [(1%positive, parsed "object-group network TEN" 1 1 [2%positive]);
   (2%positive, parsed " network-object host 10.0.0.0/8" 2 1 [])].
Definition wide_host : heap := list_to_map wide_host_lines.
Definition wide_host_query : IPv4Obj := mkIPv4Obj 167838211 32.  (* 10.1.2.3 *)

(** A line whose destination network follows a source host. *)
Definition paired_text : list ascii :=
  str "access-list A permit ip host 10.1.1.1 10.2.0.0 255.255.0.0".
Definition paired_lines : list (positive * IOSCfgLine) :=
  [(1%positive, parsed
      "access-list A permit ip host 10.1.1.1 10.2.0.0 255.255.0.0" 1 1 [])].
Definition paired : heap := list_to_map paired_lines.
Definition paired_config : list loc := map fst paired_lines.
Definition paired_query : IPv4Obj := mkIPv4Obj 167903232 16.   (* 10.2.0.0/16 *)

(** 203.0.113.10 *)
Definition web_host_query : IPv4Obj := mkIPv4Obj 3405803786 32.

(** A group with two hosts and a reference to an object. *)
Definition servers_lines : list (positive * IOSCfgLine) :=
  [(1%positive, parsed "object network SRV" 1 1 [2%positive]);
   (2%positive, parsed " host 10.1.1.5" 2 1 []);
   (3%positive, parsed "object-group network SERVERS" 3 3
      [4%positive; 5%positive; 6%positive]);
   (4%positive, parsed " network-object host 10.1.1.9" 4 3 []);
   (5%positive, parsed " network-object object SRV" 5 3 []);
   (6%positive, parsed " network-object host 192.0.2.1" 6 3 []);
   (7%positive, parsed "access-list IN permit ip any object-group SERVERS" 7 7 [])].
Definition servers : heap := list_to_map servers_lines.
Definition servers_config : list loc := map fst servers_lines.
Definition servers_query : IPv4Obj := mkIPv4Obj 167837952 24.   (* 10.1.1.0/24 *)

(** A group that refers to the object WEB, beside an object WEB-2. *)
Definition namesake_lines : list (positive * IOSCfgLine) :=
  [(1%positive, parsed "object network WEB-2" 1 1 [2%positive]);
   (2%positive, parsed " host 203.0.113.10" 2 1 []);
   (3%positive, parsed "object-group network FRONT" 3 3 [4%positive]);
   (4%positive, parsed " network-object object WEB" 4 3 [])].
Definition namesake : heap := list_to_map namesake_lines.

(** The text of the line of [mixed_lines]. *)
Definition mixed_text : list ascii :=
  str "access-list A permit ip 10.1.1.0 255.255.255.0 host 10.1.1.1".

End Examples.

(* ------------------------------------------------------------------ *)
(** * Facts about addresses, patterns and the store *)

Import Text Re Patterns ccp ACL_check Spec Examples.


Lemma prefix_cases (p : Z) :
  0 <= p <= 32 ->
  In p (map Z.of_nat (seq 0 33)).
Proof.
  intros H. apply in_map_iff. exists (Z.to_nat p). split; [lia|].
  apply in_seq. lia.
Qed.

Lemma hostmask_value (a : IPv4Obj) :
  0 <= prefixlen a <= 32 ->
  hostmask a = 2 ^ (32 - prefixlen a) - 1 /\
  Z.land (netmask a) (hostmask a) = 0 /\
  0 <= netmask a < 2 ^ 32.
Proof.
  intros H. unfold netmask, hostmask.
  apply prefix_cases in H. cbn in H.
  repeat (destruct H as [H | H]; [rewrite <- H; vm_compute; intuition congruence |]).
  destruct H.
Qed.

Lemma network_bounds (a : IPv4Obj) :
  valid a -> 0 <= network a /\ broadcast a = network a + hostmask a /\ broadcast a < 2 ^ 32.
Proof.
  intros [Hip Hp]. destruct (hostmask_value a Hp) as (Hh & Hd & Hn).
  assert (Hz : Z.land (network a) (hostmask a) = 0).
  { unfold network. rewrite <- Z.land_assoc, Hd. apply Z.land_0_r. }
  assert (H0 : 0 <= network a) by (apply Z.land_nonneg; lia).
  assert (Hb : broadcast a = network a + hostmask a).
  { unfold broadcast. rewrite <- Z.lxor_lor by exact Hz.
    symmetry. apply Z.add_nocarry_lxor. exact Hz. }
  split; [exact H0|]. split; [exact Hb|].
  rewrite Hb. apply Z.add_nocarry_lt_pow2; [exact Hz| |].
  - destruct (Z.eq_dec (network a) 0) as [E|E]; [rewrite E; lia|].
    apply Z.log2_lt_pow2; [lia|].
    unfold network.
    pose proof (Z.log2_land (ip_object a) (netmask a) ltac:(lia) ltac:(lia)).
    assert (Z.log2 (netmask a) < 32).
    { destruct (Z.eq_dec (netmask a) 0) as [E'|E']; [rewrite E'; cbn; lia|].
      apply Z.log2_lt_pow2; lia. }
    lia.
  - rewrite Hh. assert (2 ^ (32 - prefixlen a) <= 2 ^ 32) by (apply Z.pow_le_mono_r; lia). lia.
Qed.

Lemma contains_range (q a : IPv4Obj) :
  valid q -> valid a -> contains q a = range_containsb q a.
Proof.
  intros Hq Ha. unfold contains, range_containsb.
  destruct (network_bounds q Hq) as (Hq0 & Hqb & Hq1).
  destruct (network_bounds a Ha) as (Ha0 & Hab & Ha1).
  destruct (hostmask_value q (proj2 Hq)) as (Hqh & _ & _).
  destruct (hostmask_value a (proj2 Ha)) as (Hah & _ & _).
  destruct (Z.eqb_spec (prefixlen q) 0) as [E|E].
  - assert (network q = 0) as ->.
    { unfold network, netmask. rewrite E, Z.shiftr_0_r, Z.lxor_nilpotent.
      apply Z.land_0_r. }
    assert (broadcast q = 2 ^ 32 - 1) as ->.
    { rewrite Hqb, Hqh, E. unfold network, netmask.
      rewrite E, Z.shiftr_0_r, Z.lxor_nilpotent, Z.land_0_r. reflexivity. }
    symmetry. apply andb_true_iff. split; apply Z.leb_le; lia.
  - destruct (Z.gtb_spec (prefixlen q) (prefixlen a)) as [G|G].
    + symmetry. apply andb_false_iff.
      destruct (Z.leb_spec (network q) (network a)); [right|left; reflexivity].
      apply Z.leb_gt. rewrite Hab, Hqb, Hah, Hqh.
      assert (2 ^ (32 - prefixlen q) < 2 ^ (32 - prefixlen a)).
      { apply Z.pow_lt_mono_r; destruct Hq, Ha; lia. }
      lia.
    + f_equal. rewrite Z.geb_leb. reflexivity.
Qed.

Lemma fold_digits_nonneg (s : list ascii) (acc : Z) :
  0 <= acc -> 0 <= fold_left (fun acc c => acc * 10 + digit_value c) s acc.
Proof.
  revert acc. induction s as [|c s IH]; intros acc H; cbn; [exact H|].
  apply IH. unfold digit_value. lia.
Qed.

Lemma int_of_digits_nonneg (s : list ascii) : 0 <= int_of_digits s.
Proof. apply fold_digits_nonneg. lia. Qed.

Lemma parse_octet_range (s : list ascii) (n : Z) :
  parse_octet s = Return n -> 0 <= n <= 255.
Proof.
  unfold parse_octet.
  destruct (negb (truthy s)); [discriminate|].
  destruct (negb (forallb is_digit s)); [discriminate|].
  destruct (3 <? length s)%nat; [discriminate|].
  destruct ((1 <? length s)%nat && startswith (str "0") s); [discriminate|].
  destruct (Z.ltb_spec 255 (int_of_digits s)); [discriminate|].
  intros [= <-]. split; [apply int_of_digits_nonneg | assumption].
Qed.

Lemma parse_octets_range (l : list (list ascii)) (bs : list Z) :
  parse_octets l = Return bs ->
  length bs = length l /\ Forall (fun b => 0 <= b <= 255) bs.
Proof.
  revert bs. induction l as [|s l IH]; intros bs; cbn.
  - intros [= <-]. split; [reflexivity | constructor].
  - destruct (parse_octet s) as [b|] eqn:Hb; cbn; [|discriminate].
    destruct (parse_octets l) as [bs'|] eqn:Hbs; cbn; [|discriminate].
    intros [= <-]. destruct (IH bs' eq_refl) as [Hl Hf].
    split; [cbn; congruence|]. constructor; [|exact Hf].
    eapply parse_octet_range; eassumption.
Qed.

Lemma ip_int_from_octets_range (l : list (list ascii)) (n : Z) :
  ip_int_from_octets l = Return n -> 0 <= n < 2 ^ 32.
Proof.
  unfold ip_int_from_octets.
  destruct (Nat.eqb_spec (length l) 4) as [Hl|]; cbn; [|discriminate].
  destruct (parse_octets l) as [bs|] eqn:Hbs; cbn; [|discriminate].
  intros [= <-]. apply parse_octets_range in Hbs as [Hlen Hf].
  rewrite Hl in Hlen.
  destruct bs as [|a [|b [|c [|d [|]]]]]; try discriminate.
  repeat match goal with H : Forall _ (_ :: _) |- _ => inversion H; clear H; subst end.
  unfold from_bytes. cbn [fold_left]. rewrite !Z.shiftl_mul_pow2 by lia. lia.
Qed.

Lemma prefix_from_ip_int_range (x p : Z) :
  prefix_from_ip_int x = Some p -> 0 <= p <= 32.
Proof.
  unfold prefix_from_ip_int.
  match goal with |- context [negb ?b] => destruct (negb b) end; [discriminate|].
  intros [= <-]. unfold count_righthand_zero_bits, max_prefixlen.
  destruct (x =? 0); [lia|].
  unfold bit_length.
  match goal with |- context [?y =? 0] => destruct (y =? 0) end; [lia|].
  match goal with |- context [Z.log2 ?y] => pose proof (Z.log2_nonneg y) end.
  lia.
Qed.

Lemma prefix_from_ip_string_range (s : list ascii) (p : Z) :
  prefix_from_ip_string s = Return p -> 0 <= p <= 32.
Proof.
  unfold prefix_from_ip_string.
  destruct (ip_int_from_octets _) as [x|]; [|discriminate].
  destruct (prefix_from_ip_int x) as [p1|] eqn:H1.
  - intros [= <-]. eapply prefix_from_ip_int_range; eassumption.
  - destruct (prefix_from_ip_int (Z.lxor x ALL_ONES)) as [p2|] eqn:H2; [|discriminate].
    intros [= <-]. eapply prefix_from_ip_int_range; eassumption.
Qed.

(** Whatever [IPv4Obj(...)] returns is a 32-bit address with a prefix
    length between 0 and 32. *)
Lemma IPv4Obj_init_valid (s : list ascii) (a : IPv4Obj) :
  IPv4Obj_init s = Return a -> valid a.
Proof.
  unfold IPv4Obj_init.
  destruct (search RGX_IPV4ADDR_NETMASK s) as [mm|]; [|discriminate].
  cbv zeta.
  destruct (ip_int_from_octets _) as [n|] eqn:Hn; cbn [bind]; [|discriminate].
  apply ip_int_from_octets_range in Hn.
  destruct (truthy (first_truthy [group 3 (caps (m_end mm))] [])).
  - destruct (prefix_from_ip_string _) as [p|] eqn:Hp; cbn [bind]; [|discriminate].
    intros [= <-]. split; cbn; [exact Hn|].
    eapply prefix_from_ip_string_range; eassumption.
  - destruct (Z.ltb_spec max_prefixlen (int_of_digits (first_truthy [group 5 (caps (m_end mm))] (str "32")))) as [|Hle];
      [discriminate|].
    intros [= <-]. split; cbn; [exact Hn|].
    split; [apply int_of_digits_nonneg | exact Hle].
Qed.


Lemma consumes_nil st : consumes st [] st.
Proof. split; [reflexivity | cbn; lia]. Qed.

Lemma consumes_app st1 st2 st3 w1 w2 :
  consumes st1 w1 st2 -> consumes st2 w2 st3 -> consumes st1 (w1 ++ w2) st3.
Proof.
  intros [H1 H2] [H3 H4]. split.
  - rewrite H1, H3. apply app_assoc.
  - rewrite H4, H2, length_app. lia.
Qed.

Lemma star_from_sound p n s cs st' :
  In st' (star_from p n s cs) ->
  exists w, s = w ++ rest st' /\ pos st' = (n + length w)%nat /\
            Forall (fun c => p c = true) w /\ caps st' = cs.
Proof.
  revert n. induction s as [|c s IH]; intros n; cbn.
  - intros [<- | []]. exists []. cbn. repeat split; [lia | constructor].
  - destruct (p c) eqn:Hc.
    + intros H. apply in_app_or in H as [H | [<- | []]].
      * destruct (IH _ H) as (w & -> & Hp & Hf & Hcs).
        exists (c :: w). cbn. repeat split; [lia | constructor; assumption | assumption].
      * exists []. cbn. repeat split; [lia | constructor].
    + intros [<- | []]. exists []. cbn. repeat split; [lia | constructor].
Qed.

Lemma rmatch_sound r : forall st st',
  In st' (rmatch r st) -> exists w, consumes st w st' /\ lang r w.
Proof.
  induction r as [| | |p|r1 IH1 r2 IH2|r1 IH1 r2 IH2|r1 IH1|p|p|n r1 IH1|i r1 IH1];
    intros st st'; cbn [rmatch lang].
  - intros [<- | []]. exists []. split; [apply consumes_nil | reflexivity].
  - destruct (pos st =? 0)%nat; [|intros []].
    intros [<- | []]. exists []. split; [apply consumes_nil | reflexivity].
  - destruct (at_end (rest st)); [|intros []].
    intros [<- | []]. exists []. split; [apply consumes_nil | reflexivity].
  - destruct (rest st) as [|c s] eqn:Hs; [intros []|].
    destruct (p c) eqn:Hc; [|intros []].
    intros [<- | []]. exists [c]. split; [|eauto].
    split; cbn; [exact Hs | lia].
  - intros H. apply in_flat_map in H as (st1 & H1 & H2).
    destruct (IH1 _ _ H1) as (w1 & Hc1 & L1).
    destruct (IH2 _ _ H2) as (w2 & Hc2 & L2).
    exists (w1 ++ w2). split; [eapply consumes_app; eassumption | eauto].
  - intros H. apply in_app_or in H as [H | H].
    + destruct (IH1 _ _ H) as (w & ? & ?). eauto.
    + destruct (IH2 _ _ H) as (w & ? & ?). eauto.
  - intros H. apply in_app_or in H as [H | [<- | []]].
    + destruct (IH1 _ _ H) as (w & ? & ?). eauto.
    + exists []. split; [apply consumes_nil | auto].
  - destruct (rest st) as [|c s] eqn:Hs; [intros []|].
    destruct (p c) eqn:Hc; [|intros []].
    intros H. apply star_from_sound in H as (w & -> & Hp & Hf & _).
    exists (c :: w). split; [split; cbn; [exact Hs | lia]|].
    split; [discriminate | constructor; assumption].
  - intros H. apply star_from_sound in H as (w & Hw & Hp & Hf & _).
    exists w. split; [split; assumption | assumption].
  - revert st. induction n as [|n IHn]; intros st; cbn.
    + intros [<- | []]. exists []. split; [apply consumes_nil | reflexivity].
    + intros H. apply in_flat_map in H as (st1 & H1 & H2).
      destruct (IH1 _ _ H1) as (w1 & Hc1 & L1).
      destruct (IHn _ H2) as (w2 & Hc2 & L2).
      exists (w1 ++ w2). split; [eapply consumes_app; eassumption | eauto].
  - intros H. apply in_map_iff in H as (st1 & <- & H1).
    destruct (IH1 _ _ H1) as (w & [Hw Hp] & L). exists w.
    split; [split; assumption | assumption].
Qed.

Lemma rmatch_caps r : forall st st',
  groups r = 0%nat -> In st' (rmatch r st) -> caps st' = caps st.
Proof.
  induction r as [| | |p|r1 IH1 r2 IH2|r1 IH1 r2 IH2|r1 IH1|p|p|n r1 IH1|i r1 IH1];
    intros st st'; cbn [rmatch groups]; intros G.
  - intros [<- | []]. reflexivity.
  - destruct (pos st =? 0)%nat; [|intros []]. intros [<- | []]. reflexivity.
  - destruct (at_end (rest st)); [|intros []]. intros [<- | []]. reflexivity.
  - destruct (rest st) as [|c s]; [intros []|].
    destruct (p c); [|intros []]. intros [<- | []]. reflexivity.
  - intros H. apply in_flat_map in H as (st1 & H1 & H2).
    rewrite (IH2 _ _ ltac:(lia) H2). apply IH1; [lia | assumption].
  - intros H. apply in_app_or in H as [H | H]; [apply IH1 | apply IH2]; (lia || assumption).
  - intros H. apply in_app_or in H as [H | [<- | []]]; [apply IH1; assumption | reflexivity].
  - destruct (rest st) as [|c s]; [intros []|].
    destruct (p c); [|intros []].
    intros H. apply star_from_sound in H as (w & _ & _ & _ & H). exact H.
  - intros H. apply star_from_sound in H as (w & _ & _ & _ & H). exact H.
  - revert st. induction n as [|n IHn]; intros st; cbn.
    + intros [<- | []]. reflexivity.
    + intros H. apply in_flat_map in H as (st1 & H1 & H2).
      rewrite (IHn _ H2). apply IH1; assumption.
  - discriminate.
Qed.

(** What a group around a pattern without groups captures. *)
Lemma rmatch_Grp i r st st' :
  groups r = 0%nat -> In st' (rmatch (Grp i r) st) ->
  exists w, consumes st w st' /\ lang r w /\ caps st' = (i, w) :: caps st.
Proof.
  intros G H. cbn in H. apply in_map_iff in H as (st1 & <- & H1).
  destruct (rmatch_sound _ _ _ H1) as (w & [Hw Hp] & L).
  exists w. split; [split; assumption|]. split; [assumption|]. cbn.
  rewrite (rmatch_caps _ _ _ G H1). f_equal. f_equal.
  rewrite Hw, Hp. replace (pos st + length w - pos st)%nat with (length w) by lia.
  rewrite firstn_app, Nat.sub_diag, firstn_all. cbn. apply app_nil_r.
Qed.

Lemma groups_Lit s : groups (Lit s) = 0%nat.
Proof. induction s; cbn; auto. Qed.

Lemma lang_Lit s w : lang (Lit s) w -> w = s.
Proof.
  revert w. induction s as [|c s IH]; intros w; cbn; [auto|].
  intros (w1 & w2 & -> & (c' & -> & Hc) & H2).
  apply Ascii.eqb_eq in Hc. subst c'. cbn. f_equal. auto.
Qed.

(** ** Introduction rules: ways in which a pattern does match *)

Lemma rmatch_Seq_intro r1 r2 st st1 st2 :
  In st1 (rmatch r1 st) -> In st2 (rmatch r2 st1) -> In st2 (rmatch (Seq r1 r2) st).
Proof. intros H1 H2. cbn. apply in_flat_map. eauto. Qed.

Lemma rmatch_Cls_intro p c n s cs :
  p c = true -> In (MState (S n) s cs) (rmatch (Cls p) (MState n (c :: s) cs)).
Proof. intros H. cbn. rewrite H. left. reflexivity. Qed.

Lemma star_from_intro p w : forall n s cs,
  Forall (fun c => p c = true) w ->
  In (MState (n + length w) s cs) (star_from p n (w ++ s) cs).
Proof.
  induction w as [|c w IH]; intros n s cs Hf.
  - cbn. rewrite Nat.add_0_r. destruct s as [|c s]; cbn; [auto|].
    destruct (p c); [apply in_or_app; right|]; left; reflexivity.
  - inversion Hf as [|? ? Hc Hw]; subst. cbn. rewrite Hc.
    apply in_or_app. left.
    replace (n + S (length w))%nat with (S n + length w)%nat by lia.
    apply IH. assumption.
Qed.

Lemma rmatch_Plus_intro p w n s cs :
  w <> [] -> Forall (fun c => p c = true) w ->
  In (MState (n + length w) s cs) (rmatch (Plus p) (MState n (w ++ s) cs)).
Proof.
  intros Hne Hf. destruct w as [|c w]; [congruence|].
  inversion Hf as [|? ? Hc Hw]; subst. cbn. rewrite Hc.
  replace (n + S (length w))%nat with (S n + length w)%nat by lia.
  apply star_from_intro. assumption.
Qed.

(** ** [findall] *)

Lemma findall_from_elim r x : forall s skip n,
  In x (findall_from r skip n s) ->
  exists n' s' st, match_at r n' s' = Some st /\
                   x = findall_item r (MatchObj n' s' st).
Proof.
  induction s as [|c s IH]; intros skip n; cbn.
  - destruct skip; [|intros []].
    destruct (match_at r n []) as [st|] eqn:E; [|intros []].
    intros [<- | []]. eauto.
  - destruct skip as [|k]; [|apply IH].
    destruct (match_at r n (c :: s)) as [st|] eqn:E.
    + intros [<- | H]; [eauto | eapply IH; eassumption].
    + apply IH.
Qed.

Lemma match_at_In r n s st :
  match_at r n s = Some st -> In st (rmatch r (MState n s [])).
Proof.
  unfold match_at. destruct (rmatch r (MState n s [])); cbn; [discriminate|].
  intros [= <-]. left. reflexivity.
Qed.

Lemma search_from_hit r n s st :
  match_at r n s = Some st -> search_from r n s = Some (MatchObj n s st).
Proof. intros H. destruct s; cbn [search_from]; rewrite H; reflexivity. Qed.


(** Evaluate the code points of the literal characters in sight. *)
Ltac code_points :=
  repeat match goal with
  | |- context [nat_of_ascii (Ascii ?a ?b ?c ?d ?e ?f ?g ?h)] =>
      let v := eval vm_compute in (nat_of_ascii (Ascii a b c d e f g h)) in
      change (nat_of_ascii (Ascii a b c d e f g h)) with v
  | H : context [nat_of_ascii (Ascii ?a ?b ?c ?d ?e ?f ?g ?h)] |- _ =>
      let v := eval vm_compute in (nat_of_ascii (Ascii a b c d e f g h)) in
      change (nat_of_ascii (Ascii a b c d e f g h)) with v in H
  end.

Lemma range_spec lo hi c :
  range lo hi c = true <->
  (nat_of_ascii lo <= nat_of_ascii c <= nat_of_ascii hi)%nat.
Proof.
  unfold range. rewrite andb_true_iff, !Nat.leb_le. reflexivity.
Qed.

Lemma is_digit_spec c :
  is_digit c = true <-> (48 <= nat_of_ascii c <= 57)%nat.
Proof. unfold is_digit. rewrite andb_true_iff, !Nat.leb_le. reflexivity. Qed.

Lemma chr_eqb_spec a b : chr_eqb a b = true <-> a = b.
Proof. apply Ascii.eqb_eq. Qed.

Lemma one_of_01 c :
  one_of "01" c = true -> (48 <= nat_of_ascii c <= 49)%nat.
Proof.
  unfold one_of. cbn. rewrite !orb_true_iff, !chr_eqb_spec.
  intros [-> | [-> | H]]; [| |discriminate]; code_points; lia.
Qed.

Lemma lang_octet o : lang octet o -> octet_text o.
Proof.
  unfold octet. cbn [lang Lit str list_ascii_of_string].
  intros [H | [H | H]].
  - destruct H as (w1 & w2 & -> & (u1 & u2 & -> & (c1 & -> & E1) & (v1 & v2 & -> & (c2 & -> & E2) & ->)) & (c3 & -> & R3)).
    apply chr_eqb_spec in E1, E2. subst. apply range_spec in R3.
    unfold octet_text. cbn. split; [lia|]. split.
    + repeat constructor; apply is_digit_spec; code_points; lia.
    + unfold int_of_digits, digit_value; cbn [fold_left]; code_points; lia.
  - destruct H as (w1 & w2 & -> & (u1 & u2 & -> & (c1 & -> & E1) & ->) & (v1 & v2 & -> & (c2 & -> & R2) & (c3 & -> & R3))).
    apply chr_eqb_spec in E1. subst. apply range_spec in R2, R3.
    unfold octet_text. cbn. split; [lia|]. split.
    + repeat constructor; apply is_digit_spec; code_points; lia.
    + unfold int_of_digits, digit_value; cbn [fold_left]; code_points; lia.
  - destruct H as (w1 & w2 & -> & H1 & (v1 & v2 & -> & (c2 & -> & R2) & H3)).
    apply range_spec in R2.
    assert (A1 : w1 = [] \/ exists c1, w1 = [c1] /\ (48 <= nat_of_ascii c1 <= 49)%nat).
    { destruct H1 as [(c1 & -> & E1) | ->]; [right | left; reflexivity].
      exists c1. split; [reflexivity | apply one_of_01; assumption]. }
    assert (A3 : v2 = [] \/ exists c3, v2 = [c3] /\ (48 <= nat_of_ascii c3 <= 57)%nat).
    { destruct H3 as [(c3 & -> & R3) | ->]; [right | left; reflexivity].
      exists c3. split; [reflexivity | apply range_spec in R3; exact R3]. }
    clear H1 H3.
    destruct A1 as [-> | (c1 & -> & R1)]; destruct A3 as [-> | (c3 & -> & R3)];
      unfold octet_text; cbn; (split; [lia|]); (split;
        [repeat constructor; apply is_digit_spec; code_points; lia
        | unfold int_of_digits, digit_value; cbn [fold_left]; code_points; lia]).
Qed.

Lemma lang_dotted_quad w :
  lang dotted_quad w ->
  exists a b c d, w = dotted a b c d /\
                  octet_text a /\ octet_text b /\ octet_text c /\ octet_text d.
Proof.
  unfold dotted_quad, dot. cbn [lang Nat.iter nat_rect].
  intros (w1 & d & -> & H & Hd).
  destruct H as (x1 & y1 & -> & (a & da & -> & Ha & (ca & -> & Ea)) & H).
  destruct H as (x2 & y2 & -> & (b & db & -> & Hb & (cb & -> & Eb)) & H).
  destruct H as (x3 & y3 & -> & (c & dc & -> & Hc & (cc & -> & Ec)) & ->).
  apply chr_eqb_spec in Ea, Eb, Ec. subst.
  exists a, b, c, d. split.
  - unfold dotted. rewrite app_nil_r. repeat (rewrite <- app_assoc; cbn [app]). reflexivity.
  - repeat split; apply lang_octet; assumption.
Qed.

(** Every text [RE_BARE_ACL_HOST.findall] returns is a dotted quad of
    octet texts. *)
Lemma findall_bare_host_shape text IP :
  In IP (findall RE_BARE_ACL_HOST text) ->
  exists a b c d, IP = dotted a b c d /\
                  octet_text a /\ octet_text b /\ octet_text c /\ octet_text d.
Proof.
  unfold findall. intros H.
  apply findall_from_elim in H as (n & s & st & Hm & ->).
  apply match_at_In in Hm. unfold RE_BARE_ACL_HOST in Hm.
  cbn [rmatch] in Hm. apply in_flat_map in Hm as (st1 & H1 & H2).
  fold (rmatch (Grp 1 dotted_quad) st1) in H2.
  apply rmatch_Grp in H2 as (w & _ & L & Hc); [|reflexivity].
  unfold findall_item. cbn [groups m_end caps]. 
  replace (groups (Seq (Lit (str "host ")) (Grp 1 dotted_quad))) with 1%nat by reflexivity.
  rewrite Hc. cbn. apply lang_dotted_quad. assumption.
Qed.

(** ** [IPv4Obj] on a dotted quad *)

Lemma split_app_sep sep a r :
  Forall (fun c => chr_eqb c sep = false) a ->
  split sep (a ++ sep :: r) = a :: split sep r.
Proof.
  induction 1 as [|c a Hc Ha IH]; cbn.
  - unfold chr_eqb. rewrite Ascii.eqb_refl. reflexivity.
  - rewrite Hc, IH. reflexivity.
Qed.

Lemma split_no_sep sep a :
  Forall (fun c => chr_eqb c sep = false) a -> split sep a = [a].
Proof.
  induction 1 as [|c a Hc Ha IH]; cbn; [reflexivity|].
  rewrite Hc, IH. reflexivity.
Qed.

Lemma digit_not_dot c : is_digit c = true -> chr_eqb c "."%char = false.
Proof.
  intros H. apply is_digit_spec in H.
  destruct (chr_eqb c "."%char) eqn:E; [|reflexivity].
  apply chr_eqb_spec in E. subst c. revert H. code_points. lia.
Qed.

Lemma digits_no_dot o :
  Forall (fun c => is_digit c = true) o ->
  Forall (fun c => chr_eqb c "."%char = false) o.
Proof. apply List.Forall_impl. exact digit_not_dot. Qed.

Lemma split_dotted a b c d :
  octet_text a -> octet_text b -> octet_text c -> octet_text d ->
  split "."%char (dotted a b c d) = [a; b; c; d].
Proof.
  intros (_ & Ha & _) (_ & Hb & _) (_ & Hc & _) (_ & Hd & _). unfold dotted.
  rewrite !split_app_sep, split_no_sep by (apply digits_no_dot; assumption).
  reflexivity.
Qed.

Lemma parse_octet_normalised n :
  0 <= n <= 255 -> parse_octet (str_of_Z n) = Return n.
Proof.
  intros H.
  assert (Hall : forallb (fun k => match parse_octet (str_of_Z (Z.of_nat k)) with
                                   | Return m => m =? Z.of_nat k
                                   | Raise _ => false
                                   end) (seq 0 256) = true) by (vm_compute; reflexivity).
  rewrite forallb_forall in Hall.
  specialize (Hall (Z.to_nat n)). rewrite Z2Nat.id in Hall by lia.
  destruct (parse_octet (str_of_Z n)) as [m|].
  - f_equal. apply Z.eqb_eq. apply Hall. apply in_seq. lia.
  - discriminate Hall. apply in_seq. lia.
Qed.

Lemma octet_text_value o : octet_text o -> 0 <= int_of_digits o <= 255.
Proof. intros (_ & _ & H). split; [apply int_of_digits_nonneg | exact H]. Qed.

Lemma dotted_app a b c d s :
  dotted a b c d ++ s =
  a ++ "."%char :: b ++ "."%char :: c ++ "."%char :: d ++ s.
Proof.
  unfold dotted. repeat (rewrite <- app_assoc; cbn [app]). reflexivity.
Qed.

Lemma length_dotted a b c d :
  length (dotted a b c d) =
  (length a + S (length b + S (length c + S (length d))))%nat.
Proof. unfold dotted. repeat (rewrite length_app; cbn [length]). reflexivity. Qed.

Lemma octet_text_nonempty o : octet_text o -> o <> [].
Proof. intros ((H & _) & _) ->. cbn in H. lia. Qed.

(** The pattern of dotted digits consumes a dotted quad. *)
Lemma rmatch_dotted_digits a b c d n s cs :
  octet_text a -> octet_text b -> octet_text c -> octet_text d ->
  In (MState (n + length (dotted a b c d)) s cs)
     (rmatch dotted_digits (MState n (dotted a b c d ++ s) cs)).
Proof.
  intros Ha Hb Hc Hd. rewrite dotted_app, length_dotted. unfold dotted_digits.
  pose proof (octet_text_nonempty _ Ha). pose proof (octet_text_nonempty _ Hb).
  pose proof (octet_text_nonempty _ Hc). pose proof (octet_text_nonempty _ Hd).
  destruct Ha as (_ & Ha & _), Hb as (_ & Hb & _), Hc as (_ & Hc & _), Hd as (_ & Hd & _).
  eapply rmatch_Seq_intro; [apply rmatch_Plus_intro; assumption|].
  eapply rmatch_Seq_intro; [apply rmatch_Cls_intro; reflexivity|].
  eapply rmatch_Seq_intro; [apply rmatch_Plus_intro; assumption|].
  eapply rmatch_Seq_intro; [apply rmatch_Cls_intro; reflexivity|].
  eapply rmatch_Seq_intro; [apply rmatch_Plus_intro; assumption|].
  eapply rmatch_Seq_intro; [apply rmatch_Cls_intro; reflexivity|].
  replace (n + (length a + S (length b + S (length c + S (length d)))))%nat
    with (S (S (S (n + length a) + length b) + length c) + length d)%nat by lia.
  apply rmatch_Plus_intro; assumption.
Qed.

Lemma dotted_no_newline a b c d :
  octet_text a -> octet_text b -> octet_text c -> octet_text d ->
  Forall (fun x => (nat_of_ascii x =? 10)%nat = false) (dotted a b c d).
Proof.
  intros (_ & Ha & _) (_ & Hb & _) (_ & Hc & _) (_ & Hd & _). unfold dotted.
  assert (D : forall o, Forall (fun c => is_digit c = true) o ->
                        Forall (fun x => (nat_of_ascii x =? 10)%nat = false) o).
  { intros o. apply List.Forall_impl. intros x Hx. apply is_digit_spec in Hx.
    apply Nat.eqb_neq. lia. }
  apply Forall_app; split; [auto|]; apply List.Forall_cons; [reflexivity|].
  apply Forall_app; split; [auto|]; apply List.Forall_cons; [reflexivity|].
  apply Forall_app; split; [auto|]; apply List.Forall_cons; [reflexivity|].
  auto.
Qed.

Lemma at_end_suffix w w' r :
  Forall (fun x => (nat_of_ascii x =? 10)%nat = false) w ->
  w = w' ++ r -> at_end r = true -> r = [] /\ w' = w.
Proof.
  intros Hf -> He. destruct r as [|x [|y r]]; cbn in He; try discriminate.
  - split; [reflexivity | symmetry; apply app_nil_r].
  - apply Forall_app in Hf as [_ Hf]. inversion Hf; subst. congruence.
Qed.

(** On a dotted quad the library's pattern matches by its first
    alternative, and group 1 ([addr0]) is the whole text. *)
Lemma search_dotted a b c d :
  octet_text a -> octet_text b -> octet_text c -> octet_text d ->
  exists mm, search RGX_IPV4ADDR_NETMASK (dotted a b c d) = Some mm /\
             caps (m_end mm) = [(1%nat, dotted a b c d)].
Proof.
  intros Ha Hb Hc Hd. set (w := dotted a b c d).
  set (A0 := Seq Bol (Seq (Grp 1 dotted_digits) Eol)).
  set (st0 := MState 0 w []).
  assert (Hin : In (MState (length w) [] [(1%nat, w)]) (rmatch A0 st0)).
  { unfold A0, st0. eapply rmatch_Seq_intro; [cbn; left; reflexivity|].
    apply rmatch_Seq_intro with (st1 := MState (length w) [] [(1%nat, w)]);
      [|cbn; left; reflexivity].
    cbn [rmatch]. apply in_map_iff.
    exists (MState (length w) [] []). split.
    - cbn. rewrite Nat.sub_0_r, firstn_all. reflexivity.
    - pose proof (rmatch_dotted_digits a b c d 0 [] [] Ha Hb Hc Hd) as H.
      rewrite app_nil_r in H. exact H. }
  assert (Hall : forall st, In st (rmatch A0 st0) -> caps st = [(1%nat, w)]).
  { intros st H. unfold A0, st0 in H. cbn [rmatch] in H.
    apply in_flat_map in H as (st1 & H1 & H).
    cbn in H1. destruct H1 as [<- | []].
    apply in_flat_map in H as (st2 & H2 & H).
    fold (rmatch (Grp 1 dotted_digits) (MState 0 w [])) in H2.
    apply rmatch_Grp in H2 as (w' & [Hw _] & _ & Hcaps); [|reflexivity].
    destruct (at_end (rest st2)) eqn:He; [|destruct H].
    destruct H as [<- | []]. cbn in Hw, Hcaps.
    destruct (at_end_suffix w w' (rest st2)) as [_ ->]; auto.
    apply dotted_no_newline; assumption. }
  unfold search.
  assert (Hhd : exists st, match_at RGX_IPV4ADDR_NETMASK 0 w = Some st /\
                           caps st = [(1%nat, w)]).
  { unfold match_at, RGX_IPV4ADDR_NETMASK. fold A0. fold st0. cbn [rmatch].
    fold (rmatch A0 st0). destruct (rmatch A0 st0) as [|x l] eqn:E; [destruct Hin|].
    exists x. split; [reflexivity|]. apply Hall. left. reflexivity. }
  destruct Hhd as (st & Hst & Hcaps).
  exists (MatchObj 0 w st). split; [|exact Hcaps].
  apply search_from_hit. exact Hst.
Qed.

(** [IPv4Obj] accepts every dotted quad of octet texts: the result is the
    host address the four numbers spell. *)
Lemma IPv4Obj_init_dotted a b c d :
  octet_text a -> octet_text b -> octet_text c -> octet_text d ->
  IPv4Obj_init (dotted a b c d) =
  Return (mkIPv4Obj (from_bytes [int_of_digits a; int_of_digits b;
                                 int_of_digits c; int_of_digits d]) 32).
Proof.
  intros Ha Hb Hc Hd.
  destruct (search_dotted a b c d Ha Hb Hc Hd) as (mm & Hs & Hcaps).
  unfold IPv4Obj_init. rewrite Hs, Hcaps. cbn [group Nat.eqb first_truthy].
  assert (T : truthy (dotted a b c d) = true).
  { pose proof (octet_text_nonempty _ Ha). unfold dotted.
    destruct a; [congruence | reflexivity]. }
  rewrite T, split_dotted by assumption.
  unfold ip_int_from_octets. cbn [map length Nat.eqb negb parse_octets].
  rewrite !parse_octet_normalised by (apply octet_text_value; assumption).
  reflexivity.
Qed.

(** ** The containment test *)

Lemma contains_refl a : contains a a = true.
Proof.
  unfold contains. destruct (prefixlen a =? 0); [reflexivity|].
  rewrite Z.gtb_ltb, Z.ltb_irrefl, Z.leb_refl, Z.geb_leb, Z.leb_refl. reflexivity.
Qed.

Lemma contains_or_is_contained_orb a b :
  contains_or_is_contained a b = contains b a || contains a b.
Proof.
  unfold contains_or_is_contained.
  destruct (contains b a), (contains a b); reflexivity.
Qed.

(** C9. The test "a contains b or b contains a" holds of every address
    with itself, and does not depend on the order of its arguments. *)
Theorem contains_or_is_contained_refl_sym :
  (forall a, contains_or_is_contained a a = true) /\
  (forall a b, contains_or_is_contained a b = contains_or_is_contained b a).
Proof.
  split.
  - intros a. rewrite contains_or_is_contained_orb, contains_refl. reflexivity.
  - intros a b. rewrite !contains_or_is_contained_orb. apply orb_comm.
Qed.

(** ** Network objects *)

Lemma IPv4Obj_init_empty : IPv4Obj_init [] = Raise AssertionError.
Proof. reflexivity. Qed.

Lemma scan_children_spec h q cs b :
  valid q ->
  scan_children h q cs = Return b -> b = existsb (covering_child h q) cs.
Proof.
  intros Hq. induction cs as [|c cs IH]; cbn [scan_children existsb].
  - intros [= <-]. reflexivity.
  - unfold covering_child at 1. unfold address_text.
    destruct (re_match h c RE_HOST None) as [s|]; cbn [opt_truthy negb].
    + destruct (truthy s) eqn:T; cbn [negb].
      * rewrite T. destruct (IPv4Obj_init s) as [a|] eqn:Ha; cbn [bind]; [|discriminate].
        pose proof (IPv4Obj_init_valid _ _ Ha) as Va.
        rewrite contains_or_is_contained_orb, !contains_range by assumption.
        destruct (range_containsb q a || range_containsb a q);
          [intros [= <-]; reflexivity | exact IH].
      * destruct (re_match h c RE_SUBNET None) as [s'|]; [|exact IH].
        destruct (truthy s') eqn:T'.
        -- destruct (IPv4Obj_init s') as [a|] eqn:Ha; cbn [bind]; [|discriminate].
           pose proof (IPv4Obj_init_valid _ _ Ha) as Va.
           rewrite contains_or_is_contained_orb, !contains_range by assumption.
           destruct (range_containsb q a || range_containsb a q);
             [intros [= <-]; reflexivity | exact IH].
        -- destruct s'; [|discriminate]. rewrite IPv4Obj_init_empty. exact IH.
    + destruct (re_match h c RE_SUBNET None) as [s'|]; [|exact IH].
      destruct (truthy s') eqn:T'.
      * destruct (IPv4Obj_init s') as [a|] eqn:Ha; cbn [bind]; [|discriminate].
        pose proof (IPv4Obj_init_valid _ _ Ha) as Va.
        rewrite contains_or_is_contained_orb, !contains_range by assumption.
        destruct (range_containsb q a || range_containsb a q);
          [intros [= <-]; reflexivity | exact IH].
      * destruct s'; [|discriminate]. rewrite IPv4Obj_init_empty. exact IH.
Qed.

Lemma scan_children_total h q cs :
  (forall child s, In child cs -> address_text h child = Some s ->
                   exists a, IPv4Obj_init s = Return a) ->
  exists b, scan_children h q cs = Return b.
Proof.
  induction cs as [|c cs IH]; intros Hp; cbn [scan_children]; [eauto|].
  assert (IH' : exists b, scan_children h q cs = Return b).
  { apply IH. intros child s Hin. apply Hp. right. exact Hin. }
  specialize (Hp c). unfold address_text in Hp.
  destruct (re_match h c RE_HOST None) as [s|]; cbn [opt_truthy negb].
  - destruct (truthy s) eqn:T; cbn [negb].
    + rewrite T. destruct (Hp s (or_introl eq_refl) eq_refl) as (a & ->). cbn [bind].
      destruct (contains_or_is_contained a q); eauto.
    + destruct (re_match h c RE_SUBNET None) as [s'|]; [|exact IH'].
      destruct (truthy s'); [|exact IH'].
      destruct (Hp s' (or_introl eq_refl) eq_refl) as (a & ->). cbn [bind].
      destruct (contains_or_is_contained a q); eauto.
  - destruct (re_match h c RE_SUBNET None) as [s'|]; [|exact IH'].
    destruct (truthy s'); [|exact IH'].
    destruct (Hp s' (or_introl eq_refl) eq_refl) as (a & ->). cbn [bind].
    destruct (contains_or_is_contained a q); eauto.
Qed.

(** The scan of an object's children ends at the first covering child:
    what follows it is not looked at. *)
Lemma scan_children_stops h q pre c post :
  valid q ->
  scan_children h q pre = Return false ->
  covering_child h q c = true ->
  scan_children h q (pre ++ c :: post) = Return true.
Proof.
  intros Hq Hpre Hc. induction pre as [|x pre IH]; cbn [app].
  - clear Hpre. cbn [scan_children]. unfold covering_child, address_text in Hc.
    destruct (re_match h c RE_HOST None) as [s|]; cbn [opt_truthy negb].
    + destruct (truthy s) eqn:T; cbn [negb].
      * rewrite T. destruct (IPv4Obj_init s) as [a|] eqn:Ha; [|discriminate]. cbn [bind].
        pose proof (IPv4Obj_init_valid _ _ Ha) as Va.
        rewrite contains_or_is_contained_orb, !contains_range, Hc by assumption. reflexivity.
      * destruct (re_match h c RE_SUBNET None) as [s'|]; [|discriminate].
        destruct (IPv4Obj_init s') as [a|] eqn:Ha; [|discriminate].
        destruct (truthy s') eqn:T'; [|destruct s'; discriminate]. cbn [bind].
        pose proof (IPv4Obj_init_valid _ _ Ha) as Va.
        rewrite contains_or_is_contained_orb, !contains_range, Hc by assumption. reflexivity.
    + destruct (re_match h c RE_SUBNET None) as [s'|]; [|discriminate].
      destruct (IPv4Obj_init s') as [a|] eqn:Ha; [|discriminate].
      destruct (truthy s') eqn:T'; [|destruct s'; discriminate]. cbn [bind].
      pose proof (IPv4Obj_init_valid _ _ Ha) as Va.
      rewrite contains_or_is_contained_orb, !contains_range, Hc by assumption. reflexivity.
  - cbn [scan_children] in Hpre |- *.
    destruct (if negb (opt_truthy (re_match h x RE_HOST None))
              then re_match h x RE_SUBNET None else re_match h x RE_HOST None) as [s|];
      [|auto].
    destruct (truthy s); [|auto].
    destruct (IPv4Obj_init s) as [a|]; cbn [bind] in Hpre |- *; [|discriminate].
    destruct (contains_or_is_contained a q); [discriminate | auto].
Qed.

Lemma match_network_objects_loop_spec h q objs : forall acc out,
  valid q ->
  match_network_objects_loop h q objs acc = Return out ->
  out = acc ++ List.filter (covering_object h q) objs.
Proof.
  induction objs as [|obj objs IH]; intros acc out Hq; cbn [match_network_objects_loop List.filter].
  - intros [= <-]. symmetry. apply app_nil_r.
  - destruct (scan_children h q (children_of h obj)) as [b|] eqn:Hs; cbn [bind]; [|discriminate].
    apply scan_children_spec in Hs; [|exact Hq]. fold (covering_object h q obj) in Hs.
    rewrite <- Hs. intros H. apply IH in H; [|exact Hq]. rewrite H.
    destruct b; [rewrite <- app_assoc|]; reflexivity.
Qed.

Lemma match_network_objects_loop_total h q objs : forall acc,
  (forall obj child s, In obj objs -> In child (children_of h obj) ->
      address_text h child = Some s -> exists a, IPv4Obj_init s = Return a) ->
  exists out, match_network_objects_loop h q objs acc = Return out.
Proof.
  induction objs as [|obj objs IH]; intros acc Hp; cbn [match_network_objects_loop]; [eauto|].
  destruct (scan_children_total h q (children_of h obj)) as (b & ->).
  { intros child s. apply Hp. left. reflexivity. }
  cbn [bind]. apply IH. intros o child s Hin. apply Hp. right. exact Hin.
Qed.

(** C3. For a well-formed query, the list [match_network_objects]
    returns is the list of the objects with a covering child, in the
    order of the configuration and each as often as it is in the input
    (once, when the input has no repetition); a child covers when its
    host text, or failing that its subnet text, parses to an address
    whose range contains the query's range or is contained in it.  The
    scan of an object stops at its first covering child.  The function
    returns whenever every address text of every child parses. *)
Theorem match_network_objects_spec (h : heap) (q : IPv4Obj) (objs : list loc) :
  valid q ->
  (forall out, match_network_objects h q objs = Return out ->
     out = List.filter (covering_object h q) objs /\
     (forall obj, In obj out <->
        In obj objs /\ exists child, In child (children_of h obj) /\
                                     covering_child h q child = true) /\
     (List.NoDup objs -> List.NoDup out)) /\
  (forall pre c post,
     scan_children h q pre = Return false -> covering_child h q c = true ->
     scan_children h q (pre ++ c :: post) = Return true) /\
  ((forall obj child s, In obj objs -> In child (children_of h obj) ->
      address_text h child = Some s -> exists a, IPv4Obj_init s = Return a) ->
   exists out, match_network_objects h q objs = Return out).
Proof.
  intros Hq. split; [|split].
  - intros out H. apply match_network_objects_loop_spec in H; [|exact Hq].
    cbn [app] in H. subst out. split; [reflexivity|]. split.
    + intros obj. rewrite filter_In. unfold covering_object. rewrite existsb_exists.
      reflexivity.
    + apply List.NoDup_filter.
  - intros pre c post. apply scan_children_stops. exact Hq.
  - apply match_network_objects_loop_total.
Qed.


(** ** Bare addresses in access-list lines *)

Lemma network_host x : 0 <= x < 2 ^ 32 -> network (mkIPv4Obj x 32) = x.
Proof.
  intros H. unfold network, netmask. cbn [ip_object prefixlen].
  change (Z.lxor ALL_ONES (Z.shiftr ALL_ONES 32)) with (Z.ones 32).
  rewrite Z.land_ones by lia. apply Z.mod_small. exact H.
Qed.

Lemma broadcast_host x : 0 <= x < 2 ^ 32 -> broadcast (mkIPv4Obj x 32) = x.
Proof.
  intros H. unfold broadcast. rewrite network_host by exact H.
  unfold hostmask. cbn [prefixlen].
  change (Z.shiftr ALL_ONES 32) with 0. apply Z.lor_0_r.
Qed.

Lemma contains_host q x :
  valid q -> 0 <= x < 2 ^ 32 ->
  contains q (mkIPv4Obj x 32) = in_rangeb q x.
Proof.
  intros Hq Hx. rewrite contains_range; [|exact Hq|split; cbn; lia].
  unfold range_containsb, in_rangeb.
  rewrite network_host, broadcast_host by exact Hx. reflexivity.
Qed.

Lemma host_contains_in_range q x :
  valid q -> 0 <= x < 2 ^ 32 ->
  contains (mkIPv4Obj x 32) q = true -> in_rangeb q x = true.
Proof.
  intros Hq Hx Hc.
  rewrite contains_range in Hc; [|split; cbn; lia|exact Hq].
  unfold range_containsb in Hc. rewrite network_host, broadcast_host in Hc by exact Hx.
  apply andb_true_iff in Hc as [H1 H2]. apply Z.leb_le in H1, H2.
  destruct (network_bounds q Hq) as (_ & Hb & _).
  destruct (hostmask_value q (proj2 Hq)) as (Hh & _ & _).
  assert (0 < 2 ^ (32 - prefixlen q)) by (apply Z.pow_pos_nonneg; destruct Hq; lia).
  unfold in_rangeb. apply andb_true_iff. split; apply Z.leb_le; lia.
Qed.

(** For a single address the test in both directions is the test
    "in the range of the query". *)
Lemma host_either_way q x :
  valid q -> 0 <= x < 2 ^ 32 ->
  contains_or_is_contained (mkIPv4Obj x 32) q = in_rangeb q x.
Proof.
  intros Hq Hx. rewrite contains_or_is_contained_orb, contains_host by assumption.
  destruct (in_rangeb q x) eqn:E; [reflexivity|]. cbn [orb].
  destruct (contains (mkIPv4Obj x 32) q) eqn:C; [|reflexivity].
  rewrite (host_contains_in_range q x Hq Hx C) in E. discriminate.
Qed.

Lemma host_value_dotted a b c d :
  octet_text a -> octet_text b -> octet_text c -> octet_text d ->
  host_value (dotted a b c d) =
  from_bytes [int_of_digits a; int_of_digits b; int_of_digits c; int_of_digits d].
Proof.
  intros. unfold host_value. rewrite split_dotted by assumption. reflexivity.
Qed.

Lemma from_bytes_range a b c d :
  0 <= a <= 255 -> 0 <= b <= 255 -> 0 <= c <= 255 -> 0 <= d <= 255 ->
  0 <= from_bytes [a; b; c; d] < 2 ^ 32.
Proof.
  intros. unfold from_bytes. cbn [fold_left].
  rewrite !Z.shiftl_mul_pow2 by lia. lia.
Qed.

(** A dotted quad parses to the host address it spells. *)
Lemma IPv4Obj_init_dotted_quad IP :
  dotted_quad_text IP ->
  IPv4Obj_init IP = Return (mkIPv4Obj (host_value IP) 32) /\
  0 <= host_value IP < 2 ^ 32.
Proof.
  intros (a & b & c & d & -> & Ha & Hb & Hc & Hd).
  rewrite host_value_dotted by assumption. split.
  - apply IPv4Obj_init_dotted; assumption.
  - apply from_bytes_range; apply octet_text_value; assumption.
Qed.

Lemma findall_bare_host_quads text :
  Forall dotted_quad_text (findall RE_BARE_ACL_HOST text).
Proof.
  apply List.Forall_forall. intros IP H.
  apply findall_bare_host_shape in H. exact H.
Qed.

Lemma check_bare_hosts_spec q IPs :
  valid q -> Forall dotted_quad_text IPs ->
  check_bare_hosts (Some q) IPs =
  Return (existsb (fun IP => in_rangeb q (host_value IP)) IPs).
Proof.
  intros Hq. induction 1 as [|IP IPs HIP _ IH]; cbn [check_bare_hosts existsb].
  - reflexivity.
  - destruct (IPv4Obj_init_dotted_quad IP HIP) as [-> Hr]. cbn [bind in_subnet].
    rewrite contains_host by assumption.
    destruct (in_rangeb q (host_value IP)); [reflexivity | exact IH].
Qed.

Lemma check_bare_hosts_returns q IPs :
  Forall dotted_quad_text IPs ->
  exists b, check_bare_hosts (Some q) IPs = Return b.
Proof.
  induction 1 as [|IP IPs HIP _ IH]; cbn [check_bare_hosts]; [eauto|].
  destruct (IPv4Obj_init_dotted_quad IP HIP) as [-> _]. cbn [bind in_subnet].
  destruct (contains q _); eauto.
Qed.

(** C5. For a well-formed query, the third condition of a line holds
    exactly when one of the captured host addresses lies in the range of
    the query; an address that contains the query without lying in its
    range does not exist, so the other direction never adds a match. *)
Theorem bare_host_condition (q : IPv4Obj) (text : list ascii) :
  valid q ->
  check_bare_hosts (Some q) (findall RE_BARE_ACL_HOST text) =
    Return (existsb (fun IP => in_rangeb q (host_value IP))
                    (findall RE_BARE_ACL_HOST text)) /\
  (forall IP a, In IP (findall RE_BARE_ACL_HOST text) ->
     IPv4Obj_init IP = Return a ->
     contains a q = true -> in_rangeb q (host_value IP) = true).
Proof.
  intros Hq. split.
  - apply check_bare_hosts_spec; [exact Hq | apply findall_bare_host_quads].
  - intros IP a Hin Ha Hc.
    apply findall_bare_host_shape in Hin.
    destruct (IPv4Obj_init_dotted_quad IP Hin) as [Hp Hr].
    rewrite Hp in Ha. injection Ha as <-.
    rewrite contains_range in Hc; [|split; cbn; lia|exact Hq].
    unfold range_containsb in Hc. rewrite network_host, broadcast_host in Hc by exact Hr.
    apply andb_true_iff in Hc as [H1 H2]. apply Z.leb_le in H1, H2.
    destruct (network_bounds q Hq) as (_ & Hb & _).
    destruct (hostmask_value q (proj2 Hq)) as (Hh & _ & _).
    assert (0 < 2 ^ (32 - prefixlen q)) by (apply Z.pow_pos_nonneg; destruct Hq; lia).
    unfold in_rangeb. apply andb_true_iff. split; apply Z.leb_le; lia.
Qed.

(** C10. Whatever the bare-host pattern captures is a dotted quad of one
    to three digits each, none above 255; [IPv4Obj] accepts it and
    returns the host address it spells, so that the loop of the third
    condition never raises. *)
Theorem bare_host_captures_parse (text IP : list ascii) :
  In IP (findall RE_BARE_ACL_HOST text) ->
  dotted_quad_text IP /\
  IPv4Obj_init IP = Return (mkIPv4Obj (host_value IP) 32) /\
  (forall q, exists b,
     check_bare_hosts (Some q) (findall RE_BARE_ACL_HOST text) = Return b).
Proof.
  intros Hin. apply findall_bare_host_shape in Hin. split; [exact Hin|]. split.
  - apply IPv4Obj_init_dotted_quad. exact Hin.
  - intros q. apply check_bare_hosts_returns, findall_bare_host_quads.
Qed.

(** C6 (the code departs from it).  The line
    "access-list A permit ip host 10.1.1.1 10.2.0.0 255.255.0.0" holds
    the pair "10.2.0.0 255.255.0.0", whose first address lies in the
    query 10.2.0.0/16, as does the network the pair stands for.  The
    scan of [findall] goes from left to right without overlap: it takes
    the host address 10.1.1.1 as the first half of a pair with 10.2.0.0,
    which is no mask, and the pair of the line is never tried.  The
    fourth condition does not hold and the run reports no line. *)
Theorem bare_subnet_pair_missed :
  let pair := str "10.2.0.0 255.255.0.0" in
  IPv4Obj_init (str "10.2.0.0/16") = Return paired_query /\
  text_of paired 1%positive
    = str "access-list A permit ip host 10.1.1.1 " ++ pair /\
  first_address_covered paired_query pair = true /\
  pair_covered paired_query pair = true /\
  findall RE_BARE_SUBNET (text_of paired 1%positive)
    = [str "10.1.1.1 10.2.0.0"] /\
  check_bare_subnets (Some paired_query)
    (findall RE_BARE_SUBNET (text_of paired 1%positive)) = false /\
  exists res,
    snd (main paired paired_config (general_query "10.2.0.0/16")) = Return res /\
    ACL_matches res = [].
Proof.
  repeat split; try (vm_compute; reflexivity).
  eexists. split; [vm_compute; reflexivity | reflexivity].
Qed.

(** The pairs the scan does capture are read with their mask: with the
    query 10.0.0.0 and a line that holds the pair
    "10.0.0.0 255.255.255.0", the first address on its own is covered by
    the query, and the fourth condition does not hold. *)
Lemma bare_subnet_read_with_mask :
  let q := mkIPv4Obj 167772160 32 in
  let text := str "access-list A permit ip 10.0.0.0 255.255.255.0 any" in
  IPv4Obj_init (str "10.0.0.0") = Return q /\
  findall RE_BARE_SUBNET text = [str "10.0.0.0 255.255.255.0"] /\
  existsb (first_address_covered q) (findall RE_BARE_SUBNET text) = true /\
  check_bare_subnets (Some q) (findall RE_BARE_SUBNET text) = false.
Proof. vm_compute. repeat split. Qed.


(** ** The store *)

Lemma lookup_known (h hk : heap) l :
  h ⊆ hk -> is_Some (h !! l) -> hk !! l = h !! l.
Proof.
  intros Hsub [o Ho]. rewrite Ho. eapply lookup_weaken; eassumption.
Qed.

Lemma text_of_known (h hk : heap) l :
  h ⊆ hk -> is_Some (h !! l) -> text_of hk l = text_of h l.
Proof. intros. unfold text_of. rewrite (lookup_known h hk) by assumption. reflexivity. Qed.

Lemma children_of_known (h hk : heap) l :
  h ⊆ hk -> is_Some (h !! l) -> children_of hk l = children_of h l.
Proof. intros. unfold children_of. rewrite (lookup_known h hk) by assumption. reflexivity. Qed.

Lemma subseteq_None (h hk : heap) l : h ⊆ hk -> hk !! l = None -> h !! l = None.
Proof.
  intros Hsub Hn. destruct (h !! l) as [o|] eqn:E; [|reflexivity].
  rewrite (lookup_weaken _ _ _ _ E Hsub) in Hn. discriminate.
Qed.

Lemma IOSCfgLine_init_spec (h : heap) txt :
  let p := snd (IOSCfgLine_init h txt) in
  h !! p = None /\
  fst (IOSCfgLine_init h txt) = <[p := mkLine txt (-1) p 0 0 []]> h.
Proof.
  cbn. split; [|reflexivity].
  apply not_elem_of_dom. apply is_fresh.
Qed.

Lemma add_child_other (h : heap) p c l :
  l <> p -> fst (add_child h p c) !! l = h !! l.
Proof.
  intros Hl. unfold add_child. destruct (line_in h c (children_of h p)); cbn [fst];
    [reflexivity|].
  apply lookup_alter_ne. congruence.
Qed.

Lemma add_children_other (h : heap) p cs l :
  l <> p -> add_children h p cs !! l = h !! l.
Proof.
  intros Hl. revert h. induction cs as [|c cs IH]; intros h; cbn [add_children];
    [reflexivity|].
  rewrite IH. apply add_child_other. exact Hl.
Qed.

Lemma add_child_self (h : heap) p c o :
  h !! p = Some o ->
  exists o', fst (add_child h p c) !! p = Some o' /\ text o' = text o.
Proof.
  intros Hp. unfold add_child. destruct (line_in h c (children_of h p)); cbn [fst].
  - eauto.
  - rewrite lookup_alter_eq, Hp. cbn. eauto.
Qed.

Lemma add_children_self (h : heap) p cs : forall o,
  h !! p = Some o ->
  exists o', add_children h p cs !! p = Some o' /\ text o' = text o.
Proof.
  revert h. induction cs as [|c cs IH]; intros h o Hp; cbn [add_children]; [eauto|].
  destruct (add_child_self h p c o Hp) as (o1 & H1 & T1).
  destruct (IH _ _ H1) as (o' & H' & T'). exists o'. split; [exact H' | congruence].
Qed.

Lemma add_children_subseteq (h : heap) p cs :
  h !! p = None -> forall x, h ⊆ add_children (<[p := x]> h) p cs.
Proof.
  intros Hp x. apply map_subseteq_spec. intros l o Hl.
  assert (l <> p) by congruence.
  rewrite add_children_other, lookup_insert_ne by congruence. exact Hl.
Qed.

Lemma line_in_known (h hk : heap) c seen :
  h ⊆ hk -> is_Some (h !! c) -> known h seen ->
  line_in hk c seen = line_in h c seen.
Proof.
  intros Hsub Hc Hs. unfold line_in. induction Hs as [|y seen Hy _ IH]; cbn [existsb];
    [reflexivity|].
  rewrite IH. unfold line_eq.
  rewrite (lookup_known h hk c), (lookup_known h hk y) by assumption. reflexivity.
Qed.

Lemma add_children_distinct (h : heap) p cs : forall hcur o,
  h ⊆ hcur -> h !! p = None -> hcur !! p = Some o ->
  known h cs -> known h (children o) ->
  exists o', add_children hcur p cs !! p = Some o' /\ text o' = text o /\
             (distinct_lines h (children o) cs = true ->
              children o' = children o ++ cs).
Proof.
  induction cs as [|c cs IH]; intros hcur o Hsub Hn Hp Hcs Ho.
  - exists o. cbn. rewrite app_nil_r. auto.
  - inversion Hcs as [|? ? Hc Hcs']; subst. cbn [add_children distinct_lines].
    unfold add_child. replace (children_of hcur p) with (children o)
      by (unfold children_of; rewrite Hp; reflexivity).
    rewrite (line_in_known h hcur) by assumption.
    destruct (line_in h c (children o)) eqn:E; cbn [fst negb andb].
    + destruct (IH hcur o Hsub Hn Hp Hcs' Ho) as (o' & H1 & H2 & _).
      exists o'. split; [exact H1|]. split; [exact H2 | discriminate].
    + set (f := fun o0 : IOSCfgLine =>
             mkLine (text o0) (linenum o0) (parent o0) (indent o0)
                    (indent_of hcur c) (children o0 ++ [c])).
      destruct (IH (alter f p hcur) (f o)) as (o' & H1 & H2 & H3).
      * apply map_subseteq_spec. intros l x Hl.
        rewrite lookup_alter_ne by congruence. eapply lookup_weaken; eassumption.
      * exact Hn.
      * rewrite lookup_alter_eq, Hp. reflexivity.
      * exact Hcs'.
      * cbn. apply Forall_app. split; [exact Ho | constructor; [exact Hc | constructor]].
      * exists o'. split; [exact H1|]. split; [exact H2|].
        intros D. rewrite (H3 D). cbn. rewrite <- app_assoc. reflexivity.
Qed.

Lemma line_in_incl (h : heap) c seen seen' :
  incl seen' seen -> line_in h c seen = false -> line_in h c seen' = false.
Proof.
  intros Hi Hf. destruct (line_in h c seen') eqn:E; [|reflexivity].
  unfold line_in in E. apply existsb_exists in E as (y & Hy & Hb).
  assert (line_in h c seen = true)
    by (unfold line_in; apply existsb_exists; exists y; auto).
  congruence.
Qed.

Lemma distinct_lines_filter (h : heap) (f : loc -> bool) cs : forall seen seen',
  incl seen' seen ->
  distinct_lines h seen cs = true ->
  distinct_lines h seen' (List.filter f cs) = true.
Proof.
  induction cs as [|c cs IH]; intros seen seen' Hi; cbn [distinct_lines List.filter];
    [reflexivity|].
  intros H. apply andb_true_iff in H as [H1 H2]. apply negb_true_iff in H1.
  destruct (f c); cbn [distinct_lines].
  - apply andb_true_iff. split.
    + apply negb_true_iff. eapply line_in_incl; eassumption.
    + apply (IH (seen ++ [c])); [|exact H2].
      apply incl_app; [apply incl_appl; exact Hi | apply incl_appr, incl_refl].
  - apply (IH (seen ++ [c])); [|exact H2]. apply incl_appl. exact Hi.
Qed.

(** ** Object groups *)

Lemma is_substring_of_obj_list_existsb h name mo :
  is_substring_of_obj_list h name mo =
  existsb (fun obj => contains_text name (text_of h obj)) mo.
Proof.
  induction mo as [|obj mo IH]; cbn; [reflexivity|].
  destruct (contains_text name (text_of h obj)); [reflexivity | exact IH].
Qed.

Lemma collect_children_spec h q mo cs : forall acc out,
  valid q ->
  collect_children h q mo cs acc = Return out ->
  out = acc ++ List.filter (group_child_matched h q mo) cs.
Proof.
  induction cs as [|c cs IH]; intros acc out Hq; cbn [collect_children List.filter].
  - intros [= <-]. symmetry. apply app_nil_r.
  - unfold group_child_matched at 1.
    assert (Hhost :
      (if opt_truthy (re_match h c RE_NETWORK_OBJECT_HOST None)
       then let* addr := IPv4Obj_init (default [] (re_match h c RE_NETWORK_OBJECT_HOST None)) in
            if contains q addr
            then collect_children h q mo cs (acc ++ [c])
            else collect_children h q mo cs acc
       else collect_children h q mo cs acc) = Return out ->
      out = acc ++
        (if match re_match h c RE_NETWORK_OBJECT_HOST None with
            | Some s => match IPv4Obj_init s with
                        | Return a => range_containsb q a
                        | Raise _ => false
                        end
            | None => false
            end
         then c :: List.filter (group_child_matched h q mo) cs
         else List.filter (group_child_matched h q mo) cs)).
    { destruct (re_match h c RE_NETWORK_OBJECT_HOST None) as [s|]; cbn [opt_truthy from_option id];
        [|apply IH; exact Hq].
      destruct (truthy s) eqn:T.
      - destruct (IPv4Obj_init s) as [a|] eqn:Ha; cbn [bind]; [|discriminate].
        rewrite contains_range; [|exact Hq|eapply IPv4Obj_init_valid; eassumption].
        destruct (range_containsb q a).
        + intros H. apply IH in H; [|exact Hq]. rewrite H, <- app_assoc. reflexivity.
        + apply IH. exact Hq.
      - destruct s; [|discriminate]. rewrite IPv4Obj_init_empty. apply IH. exact Hq. }
    destruct (re_match h c RE_NETWORK_OBJECT_OBJECT None) as [name|];
      cbn [opt_truthy from_option id]; [|exact Hhost].
    destruct (truthy name); [|exact Hhost].
    rewrite is_substring_of_obj_list_existsb.
    destruct (existsb _ mo).
    + intros H. apply IH in H; [|exact Hq]. rewrite H, <- app_assoc. reflexivity.
    + apply IH. exact Hq.
Qed.

Lemma re_match_same_text (h hk : heap) l r d :
  text_of hk l = text_of h l -> re_match hk l r d = re_match h l r d.
Proof. intros H. unfold re_match. rewrite H. reflexivity. Qed.

Lemma is_substring_same_text (h hk : heap) name mo :
  Forall (fun l => text_of hk l = text_of h l) mo ->
  is_substring_of_obj_list hk name mo = is_substring_of_obj_list h name mo.
Proof.
  induction 1 as [|obj mo Ho _ IH]; cbn; [reflexivity|]. rewrite Ho, IH. reflexivity.
Qed.

Lemma collect_children_same_text (h hk : heap) q mo cs : forall acc,
  Forall (fun l => text_of hk l = text_of h l) mo ->
  Forall (fun l => text_of hk l = text_of h l) cs ->
  collect_children hk q mo cs acc = collect_children h q mo cs acc.
Proof.
  intros acc Hmo Hcs. revert acc.
  induction Hcs as [|c cs Hc _ IH]; intros acc; cbn [collect_children]; [reflexivity|].
  rewrite !(re_match_same_text h hk c) by exact Hc.
  rewrite (is_substring_same_text h hk) by exact Hmo.
  rewrite !IH. reflexivity.
Qed.

Lemma known_same_text (h hk : heap) ls :
  h ⊆ hk -> known h ls -> Forall (fun l => text_of hk l = text_of h l) ls.
Proof.
  intros Hsub. apply List.Forall_impl. intros l Hl. apply text_of_known; assumption.
Qed.

(** The loop over the groups only adds lines to the store: the lines it
    starts from are all there at the end, unchanged, and the groups it
    emits are new lines. *)
Lemma match_network_object_groups_loop_frame q mo groups : forall hk acc h' r,
  match_network_object_groups_loop hk q groups mo acc = (h', r) ->
  hk ⊆ h' /\
  forall out, r = Return out ->
    exists new, out = acc ++ new /\
                Forall (fun g => hk !! g = None /\ is_Some (h' !! g)) new.
Proof.
  induction groups as [|g groups IH]; intros hk acc h' r;
    cbn [match_network_object_groups_loop].
  - intros [= <- <-]. split; [reflexivity|].
    intros out [= <-]. exists []. split; [symmetry; apply app_nil_r | constructor].
  - destruct (collect_children hk q mo (children_of hk g) []) as [[|c cs]|e].
    + apply IH.
    + destruct (IOSCfgLine_init_spec hk (text_of hk g)) as [Hn Hh1].
      destruct (IOSCfgLine_init hk (text_of hk g)) as [h1 p] eqn:E.
      cbn [fst snd] in Hn, Hh1. subst h1.
      intros H. apply IH in H as [Hsub Hout].
      assert (Hk : hk ⊆ add_children (<[p := mkLine (text_of hk g) (-1) p 0 0 []]> hk) p (c :: cs))
        by (apply add_children_subseteq; exact Hn).
      split; [etransitivity; eassumption|].
      intros out Hr. destruct (Hout out Hr) as (new & -> & Hnew).
      exists (p :: new). split; [rewrite <- app_assoc; reflexivity|].
      constructor.
      * split; [exact Hn|].
        destruct (add_children_self (<[p := mkLine (text_of hk g) (-1) p 0 0 []]> hk) p (c :: cs) _
                    (lookup_insert_eq _ _ _)) as (o' & Ho' & _).
        exists o'. eapply lookup_weaken; eassumption.
      * eapply List.Forall_impl; [|exact Hnew]. cbn beta.
        intros x [Hx1 Hx2]. split; [|exact Hx2].
        eapply subseteq_None; eassumption.
    + intros [= <- <-]. split; [reflexivity | discriminate].
Qed.

Lemma filter_nil_existsb {A} (f : A -> bool) l :
  List.filter f l = [] -> existsb f l = false.
Proof.
  induction l as [|x l IH]; cbn; [reflexivity|].
  destruct (f x); [discriminate | exact IH].
Qed.

Lemma filter_cons_existsb {A} (f : A -> bool) l x xs :
  List.filter f l = x :: xs -> existsb f l = true.
Proof.
  induction l as [|y l IH]; cbn; [discriminate|].
  destruct (f y); [reflexivity | exact IH].
Qed.

Lemma known_filter (h : heap) (f : loc -> bool) ls :
  known h ls -> known h (List.filter f ls).
Proof.
  unfold known. rewrite !List.Forall_forall. intros H x Hx.
  apply filter_In in Hx as [Hx _]. auto.
Qed.

Lemma match_network_object_groups_loop_spec h q mo groups :
  valid q -> known h mo ->
  forall hk acc h' out,
  h ⊆ hk -> known h groups ->
  Forall (fun g => known h (children_of h g)) groups ->
  match_network_object_groups_loop hk q groups mo acc = (h', Return out) ->
  exists new, out = acc ++ new /\
    Forall2 (emitted_for h h' q mo) new (List.filter (matched_group h q mo) groups).
Proof.
  intros Hq Hmo. induction groups as [|g groups IH];
    intros hk acc h' out Hsub Hg Hc; cbn [match_network_object_groups_loop List.filter].
  - intros [= <- <-]. exists []. split; [symmetry; apply app_nil_r | constructor].
  - inversion Hg as [|? ? Hg1 Hg2]; subst. inversion Hc as [|? ? Hc1 Hc2]; subst.
    rewrite (children_of_known h hk g), (text_of_known h hk g) by assumption.
    rewrite (collect_children_same_text h hk)
      by (apply known_same_text; assumption).
    destruct (collect_children h q mo (children_of h g) []) as [children|e] eqn:Ecol;
      [|discriminate].
    apply collect_children_spec in Ecol; [|exact Hq]. cbn [app] in Ecol.
    unfold matched_group at 1.
    destruct children as [|c cs].
    + rewrite (filter_nil_existsb _ _ (eq_sym Ecol)). apply IH; assumption.
    + rewrite (filter_cons_existsb _ _ _ _ (eq_sym Ecol)).
      destruct (IOSCfgLine_init_spec hk (text_of h g)) as [Hn Hh1].
      destruct (IOSCfgLine_init hk (text_of h g)) as [h1 p] eqn:E.
      cbn [fst snd] in Hn, Hh1. subst h1.
      set (o0 := mkLine (text_of h g) (-1) p 0 0 []) in *.
      set (h2 := add_children (<[p := o0]> hk) p (c :: cs)).
      assert (Hk2 : hk ⊆ h2) by (apply add_children_subseteq; exact Hn).
      assert (Hp : h !! p = None) by (eapply subseteq_None; eassumption).
      intros H.
      pose proof (match_network_object_groups_loop_frame _ _ _ _ _ _ _ H) as [Hsub2 _].
      apply IH in H; [|etransitivity; eassumption|assumption|assumption].
      destruct H as (new & -> & Hnew).
      exists (p :: new). split; [rewrite <- app_assoc; reflexivity|].
      constructor; [|exact Hnew].
      destruct (add_children_distinct h p (c :: cs) (<[p := o0]> hk) o0) as (o' & Ho' & Ht & Hd).
      * etransitivity; [exact Hsub | apply insert_subseteq; exact Hn].
      * exact Hp.
      * apply lookup_insert_eq.
      * rewrite Ecol. apply known_filter. exact Hc1.
      * constructor.
      * fold h2 in Ho'. pose proof (lookup_weaken _ _ _ _ Ho' Hsub2) as Hf.
        split; [exact Hp|]. split.
        -- unfold text_of at 1. rewrite Hf. exact Ht.
        -- intros D. unfold children_of at 1. rewrite Hf. cbn [from_option].
           rewrite Hd; [cbn; exact Ecol|]. cbn [children o0]. rewrite Ecol.
           eapply distinct_lines_filter; [apply incl_refl | exact D].
Qed.

Lemma collect_children_total h q mo cs : forall acc,
  (forall c s, In c cs -> re_match h c RE_NETWORK_OBJECT_HOST None = Some s ->
               exists a, IPv4Obj_init s = Return a) ->
  exists out, collect_children h q mo cs acc = Return out.
Proof.
  induction cs as [|c cs IH]; intros acc Hp; cbn [collect_children]; [eauto|].
  assert (IH' : forall acc, exists out, collect_children h q mo cs acc = Return out).
  { intros acc'. apply IH. intros c' s Hin. apply Hp. right. exact Hin. }
  destruct (opt_truthy (re_match h c RE_NETWORK_OBJECT_OBJECT None)).
  - destruct (is_substring_of_obj_list _ _ _); apply IH'.
  - specialize (Hp c). destruct (re_match h c RE_NETWORK_OBJECT_HOST None) as [s|];
      cbn [opt_truthy from_option id]; [|apply IH'].
    destruct (truthy s); [|apply IH'].
    destruct (Hp s (or_introl eq_refl) eq_refl) as (a & ->). cbn [bind].
    destruct (contains q a); apply IH'.
Qed.

Lemma match_network_object_groups_loop_total h q mo groups :
  known h mo ->
  (forall g c s, In g groups -> In c (children_of h g) ->
     re_match h c RE_NETWORK_OBJECT_HOST None = Some s ->
     exists a, IPv4Obj_init s = Return a) ->
  forall hk acc,
  h ⊆ hk -> known h groups ->
  Forall (fun g => known h (children_of h g)) groups ->
  exists h' out,
    match_network_object_groups_loop hk q groups mo acc = (h', Return out).
Proof.
  intros Hmo. induction groups as [|g groups IH];
    intros Hp hk acc Hsub Hg Hc; cbn [match_network_object_groups_loop]; [eauto|].
  inversion Hg as [|? ? Hg1 Hg2]; subst. inversion Hc as [|? ? Hc1 Hc2]; subst.
  rewrite (children_of_known h hk g), (text_of_known h hk g) by assumption.
  rewrite (collect_children_same_text h hk)
    by (apply known_same_text; assumption).
  destruct (collect_children_total h q mo (children_of h g) []) as (children & ->).
  { intros c s. apply Hp. left. reflexivity. }
  assert (Hp' : forall g0 c s, In g0 groups -> In c (children_of h g0) ->
     re_match h c RE_NETWORK_OBJECT_HOST None = Some s ->
     exists a, IPv4Obj_init s = Return a)
    by (intros g0 c s Hin; apply Hp; right; exact Hin).
  destruct children as [|c cs]; [apply IH; assumption|].
  destruct (IOSCfgLine_init_spec hk (text_of h g)) as [Hn Hh1].
  destruct (IOSCfgLine_init hk (text_of h g)) as [h1 p] eqn:E.
  cbn [fst snd] in Hn, Hh1. subst h1.
  apply IH; try assumption.
  etransitivity; [exact Hsub | apply add_children_subseteq; exact Hn].
Qed.

(** For a well-formed query and a closed configuration, when
    [match_network_object_groups] returns, the groups it emits are, in
    order, new lines for the groups with at least one matched child,
    each with the text of its group and (the children of a group being
    distinct lines) with exactly the matched children in their order,
    a host child being matched when the range of the query contains the
    range of its address.  The function returns whenever every host
    text of every child parses. *)
Lemma match_network_object_groups_emits
    (h : heap) (q : IPv4Obj) (groups mo : list loc) :
  valid q -> known h groups -> known h mo ->
  Forall (fun g => known h (children_of h g)) groups ->
  (forall h' out,
     match_network_object_groups h q groups mo = (h', Return out) ->
     Forall2 (emitted_for h h' q mo) out
             (List.filter (matched_group h q mo) groups)) /\
  ((forall g c s, In g groups -> In c (children_of h g) ->
      re_match h c RE_NETWORK_OBJECT_HOST None = Some s ->
      exists a, IPv4Obj_init s = Return a) ->
   exists h' out, match_network_object_groups h q groups mo = (h', Return out)).
Proof.
  intros Hq Hg Hmo Hc. split.
  - intros h' out H.
    destruct (match_network_object_groups_loop_spec h q mo groups Hq Hmo
                h [] h' out (reflexivity _) Hg Hc H) as (new & -> & Hnew).
    exact Hnew.
  - intros Hp.
    apply (match_network_object_groups_loop_total h q mo groups Hmo Hp h []
             (reflexivity _) Hg Hc).
Qed.

(** For a single address the test of line 191, "the query contains the
    address", is the test of the network objects: the range of a single
    address contains the range of the query only when the query is that
    address. *)
Lemma single_address_either_way (q a : IPv4Obj) :
  valid q -> valid a -> prefixlen a = 32 ->
  range_containsb q a || range_containsb a q = range_containsb q a.
Proof.
  intros Vq Va Hp. rewrite <- !contains_range by assumption.
  destruct a as [x p]. cbn [prefixlen] in Hp. subst p.
  destruct Va as [Hx _]. cbn [ip_object] in Hx.
  pose proof (host_either_way q x Vq Hx) as E.
  rewrite contains_or_is_contained_orb in E. rewrite E.
  symmetry. apply contains_host; assumption.
Qed.

Lemma child_matched_either_way_agrees h q mo c :
  valid q ->
  (forall s a, re_match h c RE_NETWORK_OBJECT_HOST None = Some s ->
               IPv4Obj_init s = Return a -> prefixlen a = 32) ->
  group_child_matched h q mo c = child_matched_either_way h q mo c.
Proof.
  intros Vq Hs. unfold group_child_matched, child_matched_either_way. cbv zeta.
  assert (Hhost :
    match re_match h c RE_NETWORK_OBJECT_HOST None with
    | Some s => match IPv4Obj_init s with
                | Return a => range_containsb q a
                | Raise _ => false
                end
    | None => false
    end =
    match re_match h c RE_NETWORK_OBJECT_HOST None with
    | Some s => match IPv4Obj_init s with
                | Return a => range_containsb q a || range_containsb a q
                | Raise _ => false
                end
    | None => false
    end).
  { destruct (re_match h c RE_NETWORK_OBJECT_HOST None) as [s|]; [|reflexivity].
    destruct (IPv4Obj_init s) as [a|e] eqn:Ha; [|reflexivity].
    symmetry. apply single_address_either_way;
      [exact Vq | eapply IPv4Obj_init_valid; eassumption | eapply Hs; eauto]. }
  destruct (re_match h c RE_NETWORK_OBJECT_OBJECT None) as [name|]; [|exact Hhost].
  destruct (truthy name); [reflexivity | exact Hhost].
Qed.

Lemma existsb_ext_in {A} (f g : A -> bool) l :
  (forall x, In x l -> f x = g x) -> existsb f l = existsb g l.
Proof.
  induction l as [|x l IH]; intros H; cbn [existsb]; [reflexivity|].
  rewrite (H x (or_introl eq_refl)), IH; [reflexivity|].
  intros y Hy. apply H. right. exact Hy.
Qed.

Lemma Forall2_impl_in_r {A B} (R R' : A -> B -> Prop) l l' :
  Forall2 R l l' ->
  (forall x y, In y l' -> R x y -> R' x y) ->
  Forall2 R' l l'.
Proof.
  induction 1 as [|x y l l' Hxy _ IH]; intros H; constructor.
  - apply H; [left; reflexivity | exact Hxy].
  - apply IH. intros x' y' Hy. apply H. right. exact Hy.
Qed.

(** C4.  For a well-formed query and a closed configuration whose host
    children give single addresses, when [match_network_object_groups]
    returns, the groups it emits are, in order, new lines for the groups
    with at least one matched child and for no other group, each with
    the text of its group and (the children of a group being distinct
    lines) with exactly the matched children in their order.  A
    reference child is matched when its name occurs in the text of a
    matched object; a host child is matched when its address passes the
    containment test of the network objects.  The function returns
    whenever every host text of every child parses. *)
Theorem match_network_object_groups_spec
    (h : heap) (q : IPv4Obj) (groups mo : list loc) :
  valid q -> known h groups -> known h mo ->
  Forall (fun g => known h (children_of h g)) groups ->
  host_children_single h groups ->
  (forall h' out,
     match_network_object_groups h q groups mo = (h', Return out) ->
     Forall2 (emitted_either_way h h' q mo) out
             (List.filter (group_matched_either_way h q mo) groups)) /\
  ((forall g c s, In g groups -> In c (children_of h g) ->
      re_match h c RE_NETWORK_OBJECT_HOST None = Some s ->
      exists a, IPv4Obj_init s = Return a) ->
   exists h' out, match_network_object_groups h q groups mo = (h', Return out)).
Proof.
  intros Hq Hg Hmo Hc Hsingle.
  assert (Agree : forall g c, In g groups -> In c (children_of h g) ->
            group_child_matched h q mo c = child_matched_either_way h q mo c).
  { intros g c Hin Hcin. apply child_matched_either_way_agrees; [exact Hq|].
    intros s a. apply (Hsingle g c s a Hin Hcin). }
  split.
  - intros h' out H.
    destruct (match_network_object_groups_loop_spec h q mo groups Hq Hmo
                h [] h' out (reflexivity _) Hg Hc H) as (new & -> & Hnew).
    cbn [app].
    replace (List.filter (group_matched_either_way h q mo) groups)
      with (List.filter (matched_group h q mo) groups).
    + eapply Forall2_impl_in_r; [exact Hnew|].
      intros p g Hin (Hp & Ht & Hch). apply filter_In in Hin as [Hin _].
      split; [exact Hp|]. split; [exact Ht|].
      intros Hd. rewrite (Hch Hd). apply List.filter_ext_in.
      intros c Hcin. exact (Agree g c Hin Hcin).
    + apply List.filter_ext_in. intros g Hin.
      unfold matched_group, group_matched_either_way.
      apply existsb_ext_in. intros c Hcin. exact (Agree g c Hin Hcin).
  - intros Hp.
    apply (match_network_object_groups_loop_total h q mo groups Hmo Hp h []
             (reflexivity _) Hg Hc).
Qed.

(** The hypothesis on the host children is needed: the child
    "network-object host 10.0.0.0/8" passes the test of the network
    objects against the query 10.1.2.3 (its range contains the query),
    and its group is not emitted. *)
Lemma prefix_host_child_one_direction :
  IPv4Obj_init (str "10.1.2.3") = Return wide_host_query /\
  (exists s a,
     In 2%positive (children_of wide_host 1%positive) /\
     re_match wide_host 2%positive RE_NETWORK_OBJECT_HOST None = Some s /\
     IPv4Obj_init s = Return a /\
     contains_or_is_contained a wide_host_query = true) /\
  snd (match_network_object_groups wide_host wide_host_query [1%positive] [])
    = Return [].
Proof.
  split; [vm_compute; reflexivity|]. split; [|vm_compute; reflexivity].
  exists (str "10.0.0.0/8"), (mkIPv4Obj 167772160 8).
  repeat split; vm_compute; auto.
Qed.

(** ** The script as a whole *)

Lemma when_query_groups_frame h q groups m h' r :
  when_query_groups h q groups m = (h', r) ->
  h ⊆ h' /\
  forall v, r = Return (Some v) ->
    Forall (fun g => h !! g = None /\ is_Some (h' !! g)) v.
Proof.
  unfold when_query_groups, match_network_object_groups.
  destruct q as [a|]; [|intros [= <- <-]; split; [reflexivity | discriminate]].
  destruct m as [objs|e]; [|intros [= <- <-]; split; [reflexivity | discriminate]].
  destruct (match_network_object_groups_loop h a groups objs []) as [hh rr] eqn:E.
  intros [= <- <-].
  apply match_network_object_groups_loop_frame in E as [Hsub Hout].
  split; [exact Hsub|]. intros v Hv.
  destruct rr as [out|e]; cbn [bind] in Hv; [|discriminate].
  injection Hv as <-. destruct (Hout out eq_refl) as (new & -> & Hnew). exact Hnew.
Qed.

Lemma run_frame h config subnet source dest :
  h ⊆ fst (run h config subnet source dest) /\
  forall res, snd (run h config subnet source dest) = Return res ->
    Forall (fun g => h !! g = None /\
                     is_Some (fst (run h config subnet source dest) !! g))
           (matched_groups res).
Proof.
  unfold run.
  destruct (when_query subnet _) as [mo|e]; [|split; [reflexivity | discriminate]].
  destruct (when_query source _) as [smo|e]; [|split; [reflexivity | discriminate]].
  destruct (when_query dest _) as [dmo|e]; [|split; [reflexivity | discriminate]].
  destruct (when_query_groups h subnet _ _) as [h1 r1] eqn:E1.
  apply when_query_groups_frame in E1 as [S1 F1].
  destruct r1 as [mg|e]; [|split; [exact S1 | discriminate]].
  destruct (when_query_groups h1 source _ _) as [h2 r2] eqn:E2.
  apply when_query_groups_frame in E2 as [S2 _].
  destruct r2 as [smg|e]; [|split; [etransitivity; eassumption | discriminate]].
  destruct (when_query_groups h2 dest _ _) as [h3 r3] eqn:E3.
  apply when_query_groups_frame in E3 as [S3 _].
  assert (S13 : h1 ⊆ h3) by (etransitivity; eassumption).
  destruct r3 as [dmg|e]; [|split; [etransitivity; eassumption | discriminate]].
  cbn [fst snd]. split; [etransitivity; eassumption|].
  intros res Hres.
  destruct (ACL_loop h3 mo mg subnet _ []) as [am|e]; cbn [bind] in Hres; [|discriminate].
  destruct mo as [objs|]; cbn [global bind] in Hres; [|discriminate].
  destruct mg as [grps|]; cbn [global bind] in Hres; [|discriminate].
  injection Hres as <-. cbn [matched_groups].
  eapply List.Forall_impl; [|exact (F1 grps eq_refl)]. cbn beta.
  intros g [Hn [o Ho]]. split; [exact Hn|].
  exists o. eapply lookup_weaken; eassumption.
Qed.

(** C8. A run leaves every line of the configuration in the store with
    the text, the line number, the parent and the children it had; the
    groups it reports are lines the configuration did not have. *)
Theorem main_leaves_configuration (h : heap) (config : list loc) (args : Namespace) :
  (forall l o, h !! l = Some o -> fst (main h config args) !! l = Some o) /\
  (forall res, snd (main h config args) = Return res ->
     Forall (fun g => h !! g = None /\ is_Some (fst (main h config args) !! g))
            (matched_groups res)).
Proof.
  assert (H : h ⊆ fst (main h config args) /\
    forall res, snd (main h config args) = Return res ->
     Forall (fun g => h !! g = None /\ is_Some (fst (main h config args) !! g))
            (matched_groups res)).
  { unfold main.
    destruct (check_arguments args); [|split; [reflexivity | discriminate]].
    destruct (_ && _); [split; [reflexivity | discriminate]|].
    destruct (cast_argument (ip args)); [|split; [reflexivity | discriminate]].
    destruct (cast_argument (source args)); [|split; [reflexivity | discriminate]].
    destruct (cast_argument (dest args)); [|split; [reflexivity | discriminate]].
    apply run_frame. }
  destruct H as [Hsub Hres]. split; [|exact Hres].
  intros l o Hl. eapply lookup_weaken; eassumption.
Qed.

Lemma run_result h config subnet source dest res :
  snd (run h config subnet source dest) = Return res ->
  (exists q, subnet = Some q) /\ dest = None.
Proof.
  unfold run.
  destruct (when_query subnet _) as [mo|e] eqn:Emo; [|discriminate].
  destruct (when_query source _) as [smo|e]; [|discriminate].
  destruct (when_query dest _) as [dmo|e]; [|discriminate].
  destruct (when_query_groups h subnet _ _) as [h1 [mg|e]]; [|discriminate].
  destruct (when_query_groups h1 source _ _) as [h2 [smg|e]]; [|discriminate].
  destruct dest as [d|].
  - cbn [when_query_groups global]. discriminate.
  - cbn [when_query_groups fst snd]. intros H.
    destruct (ACL_loop _ mo mg subnet _ []) as [am|e]; cbn [bind] in H; [|discriminate].
    destruct mo as [objs|]; cbn [global bind] in H; [|discriminate].
    destruct subnet as [q|]; [eauto|]. cbn in Emo. discriminate.
Qed.

Lemma cast_argument_Some arg q :
  cast_argument arg = Return (Some q) -> opt_truthy arg = true.
Proof.
  unfold cast_argument. destruct (opt_truthy arg); [reflexivity | discriminate].
Qed.

Lemma cast_argument_None arg :
  cast_argument arg = Return None -> opt_truthy arg = false.
Proof.
  unfold cast_argument. destruct (opt_truthy arg); [|reflexivity].
  destruct (IPv4Obj_init _); discriminate.
Qed.

(** C1 (the code departs from it).  A run that reaches its end is a run
    of the general query: whenever [-s] or [-d] is given, the script ends
    in an exception and reports nothing. *)
Theorem main_result_only_for_general_query
    (h : heap) (config : list loc) (args : Namespace) (res : Result) :
  snd (main h config args) = Return res ->
  opt_truthy (ip args) = true /\
  opt_truthy (source args) = false /\ opt_truthy (dest args) = false.
Proof.
  unfold main.
  destruct (check_arguments args) eqn:Echk; [|discriminate].
  destruct (_ && _); [discriminate|].
  destruct (cast_argument (ip args)) as [subnet|] eqn:Ei; [|discriminate].
  destruct (cast_argument (source args)) as [src|] eqn:Es; [|discriminate].
  destruct (cast_argument (dest args)) as [dst|] eqn:Ed; [|discriminate].
  intros H. apply run_result in H as [[q ->] ->].
  apply cast_argument_Some in Ei. apply cast_argument_None in Ed.
  split; [exact Ei|]. split; [|exact Ed].
  unfold check_arguments in Echk. rewrite Ei in Echk.
  destruct (opt_truthy (out_file args)); [discriminate|].
  cbn [andb orb] in Echk.
  destruct (opt_truthy (pickle_file args) && false); [discriminate|].
  destruct (opt_truthy (source args)); [discriminate | reflexivity].
Qed.

(** The runs behind the failing inputs of C1: with [-d] the script ends
    at line 235, with [-s] alone at the first use of [matched_objects]. *)
Lemma destination_run_raises :
  snd (main web web_config (destination_query "203.0.113.0/24"))
    = Raise (NameError "dest_matched_groups") /\
  snd (main web web_config (source_query "203.0.113.0/24"))
    = Raise (NameError "matched_objects").
Proof. split; vm_compute; reflexivity. Qed.

(** C2 (the code departs from it).  In the first scenario of the
    specification, run as a general query, the access-list line names
    both the matched object (WEB) and the matched group (WEB-GROUP): the
    first and the second condition each append it, and it is reported
    twice.  A line with a bare host and a bare subnet inside the query is
    appended by the third and by the fourth condition. *)
Theorem acl_line_reported_twice :
  (exists res,
     snd (main web web_config (general_query "203.0.113.0/24"))
       = Return res /\
     ACL_matches res = [5%positive; 5%positive]) /\
  (exists res,
     snd (main mixed mixed_config (general_query "10.1.1.0/24"))
       = Return res /\
     ACL_matches res = [1%positive; 1%positive]).
Proof.
  split; eexists; (split; [vm_compute; reflexivity | reflexivity]).
Qed.

(** C7 (the code departs from it).  An address of the configuration that
    [IPv4Obj] does not parse ends the run: the host of a network object
    (line 160) and the host of a group (line 190) are parsed without a
    guard.  Only the fourth condition of the access-list scan drops what
    the parse raises. *)
Theorem configuration_parse_failure_aborts :
  snd (main v6_object v6_object_config (general_query "10.0.0.1"))
    = Raise AssertionError /\
  snd (main v6_group v6_group_config (general_query "10.0.0.1"))
    = Raise AssertionError /\
  check_bare_subnets (Some (mkIPv4Obj 167772161 32))
    [str "10.1.1.1 10.1.1.0"] = false.
Proof. repeat split; vm_compute; reflexivity. Qed.

(** ** The theorems at work on the example configurations *)

Ltac by_computation := vm_compute; first [reflexivity | discriminate | exact I].

Lemma web_query_valid : valid web_query.
Proof. repeat split; by_computation. Defined.

(** C3 at work: in the first scenario the object WEB is matched. *)
Lemma match_network_objects_spec_witness :
  valid web_query /\
  match_network_objects web web_query [1%positive] = Return [1%positive] /\
  [1%positive] = List.filter (covering_object web web_query) [1%positive].
Proof.
  split; [exact web_query_valid|].
  assert (E : match_network_objects web web_query [1%positive] = Return [1%positive])
    by (vm_compute; reflexivity).
  split; [exact E|].
  exact (proj1 (proj1 (match_network_objects_spec web web_query [1%positive]
                         web_query_valid) [1%positive] E)).
Defined.

(** C4 at work: the group SERVERS, with two single hosts and a
    reference, is emitted as the new line 8 with the host 10.1.1.9 and
    the reference to SRV. *)
Lemma match_network_object_groups_spec_witness :
  let r := match_network_object_groups servers servers_query [3%positive]
             [1%positive] in
  valid servers_query /\ known servers [3%positive] /\ known servers [1%positive] /\
  Forall (fun g => known servers (children_of servers g)) [3%positive] /\
  host_children_single servers [3%positive] /\
  snd r = Return [8%positive] /\
  children_of (fst r) 8%positive = [4%positive; 5%positive] /\
  Forall2 (emitted_either_way servers (fst r) servers_query [1%positive])
          [8%positive]
          (List.filter (group_matched_either_way servers servers_query [1%positive])
                       [3%positive]).
Proof.
  intros r.
  assert (V : valid servers_query) by (repeat split; by_computation).
  assert (K3 : known servers [3%positive])
    by (repeat constructor; eexists; vm_compute; reflexivity).
  assert (K1 : known servers [1%positive])
    by (repeat constructor; eexists; vm_compute; reflexivity).
  assert (KC : Forall (fun g => known servers (children_of servers g)) [3%positive])
    by (repeat constructor; eexists; vm_compute; reflexivity).
  assert (S : host_children_single servers [3%positive]).
  { intros g c s a [<- | []] Hc.
    change (children_of servers 3%positive)
      with [4%positive; 5%positive; 6%positive] in Hc.
    destruct Hc as [<- | [<- | [<- | []]]]; intros Hs Ha;
      vm_compute in Hs; try discriminate Hs;
      injection Hs as <-; vm_compute in Ha; injection Ha as <-; reflexivity. }
  assert (E : snd r = Return [8%positive]) by (vm_compute; reflexivity).
  assert (C : children_of (fst r) 8%positive = [4%positive; 5%positive])
    by (vm_compute; reflexivity).
  repeat (split; [assumption|]).
  apply (proj1 (match_network_object_groups_spec servers servers_query [3%positive]
                  [1%positive] V K3 K1 KC S)).
  etransitivity; [apply surjective_pairing | f_equal; exact E].
Defined.

(** C5 at work on the second scenario, with the query 10.1.1.1. *)
Lemma bare_host_condition_witness :
  let q := mkIPv4Obj 167837953 32 in
  valid q /\
  check_bare_hosts (Some q) (findall RE_BARE_ACL_HOST legacy_text) =
    Return (existsb (fun IP => in_rangeb q (host_value IP))
                    (findall RE_BARE_ACL_HOST legacy_text)) /\
  existsb (fun IP => in_rangeb q (host_value IP))
          (findall RE_BARE_ACL_HOST legacy_text) = true.
Proof.
  intros q.
  assert (V : valid q) by (repeat split; by_computation).
  split; [exact V|]. split; [|vm_compute; reflexivity].
  exact (proj1 (bare_host_condition q legacy_text V)).
Defined.

(** C8 at work: after the run of the first scenario, line 3 (the group
    WEB-GROUP) is as the parser left it. *)
Lemma main_leaves_configuration_witness :
  let o := parsed "object-group network WEB-GROUP" 3 3 [4%positive] in
  let h' := fst (main web web_config (general_query "203.0.113.0/24")) in
  web !! 3%positive = Some o /\ h' !! 3%positive = Some o.
Proof.
  intros o h'.
  assert (E : web !! 3%positive = Some o) by (vm_compute; reflexivity).
  split; [exact E|].
  exact (proj1 (main_leaves_configuration web web_config
                  (general_query "203.0.113.0/24")) 3%positive o E).
Defined.

(** C10 at work: the first host of the second scenario. *)
Lemma bare_host_captures_parse_witness :
  In (str "10.1.1.1") (findall RE_BARE_ACL_HOST legacy_text) /\
  IPv4Obj_init (str "10.1.1.1") =
    Return (mkIPv4Obj (host_value (str "10.1.1.1")) 32).
Proof.
  assert (H : In (str "10.1.1.1") (findall RE_BARE_ACL_HOST legacy_text))
    by (vm_compute; left; reflexivity).
  split; [exact H|].
  exact (proj1 (proj2 (bare_host_captures_parse legacy_text (str "10.1.1.1") H))).
Defined.

(** C1 at work: the general query of the first scenario reaches its
    end, and it is a run without [-s] and [-d]. *)
Lemma main_result_only_for_general_query_witness :
  match snd (main web web_config (general_query "203.0.113.0/24")) with
  | Return res =>
      opt_truthy (ip (general_query "203.0.113.0/24")) = true /\
      opt_truthy (source (general_query "203.0.113.0/24")) = false /\
      opt_truthy (dest (general_query "203.0.113.0/24")) = false
  | Raise _ => False
  end.
Proof.
  destruct (snd (main web web_config (general_query "203.0.113.0/24")))
    as [res|e] eqn:E.
  - exact (main_result_only_for_general_query web web_config
             (general_query "203.0.113.0/24") res E).
  - vm_compute in E. discriminate E.
Defined.

(** * Further properties of the script *)

(** ** Anchored patterns and captured words *)

Lemma search_from_anchored r s : forall n,
  search_from (Seq Bol r) (S n) s = None.
Proof.
  induction s as [|c s IH]; intros n; cbn; [reflexivity|]. apply IH.
Qed.

(** A pattern that starts with [^] is only tried at the start of the
    subject. *)
Lemma search_anchored r s :
  search (Seq Bol r) s =
  option_map (MatchObj 0 s) (match_at (Seq Bol r) 0 s).
Proof.
  unfold search. destruct s as [|c s]; cbn [search_from].
  - destruct (match_at (Seq Bol r) 0 []); reflexivity.
  - destruct (match_at (Seq Bol r) 0 (c :: s)); [reflexivity|].
    apply search_from_anchored.
Qed.

Lemma match_at_anchored r s :
  match_at (Seq Bol r) 0 s = head (rmatch r (MState 0 s [])).
Proof.
  unfold match_at. cbn [rmatch pos Nat.eqb flat_map]. rewrite app_nil_r. reflexivity.
Qed.

Lemma at_end_cases r :
  at_end r = true -> r = [] \/ r = ["010"%char].
Proof.
  destruct r as [|x [|y r]]; cbn; try discriminate; [auto|].
  intros He. right. apply Nat.eqb_eq in He.
  rewrite <- (ascii_nat_embedding x), He. reflexivity.
Qed.

(** A word of a class that excludes the newline, followed by the end of
    the subject, splits in one way only. *)
Lemma word_end_unique cls w r w' r' :
  cls "010"%char = false ->
  Forall (fun c => cls c = true) w -> Forall (fun c => cls c = true) w' ->
  at_end r = true -> at_end r' = true ->
  w ++ r = w' ++ r' -> w = w' /\ r = r'.
Proof.
  intros Hnl Hw Hw' Hr Hr' E.
  assert (N : forall u, Forall (fun c => cls c = true) (u ++ ["010"%char]) -> False).
  { intros u Hu. apply Forall_app in Hu as [_ Hu]. inversion Hu; subst. congruence. }
  destruct (at_end_cases r Hr) as [-> | ->], (at_end_cases r' Hr') as [-> | ->].
  - rewrite !app_nil_r in E. auto.
  - rewrite app_nil_r in E. subst w. destruct (N _ Hw).
  - rewrite app_nil_r in E. subst w'. destruct (N _ Hw').
  - apply app_inv_tail in E. auto.
Qed.

(** On a word of the class that ends the subject, [(class+)$] has one
    outcome: the whole word is captured. *)
Lemma captured_tail_word cls w r n cs :
  cls "010"%char = false -> word_of cls w -> at_end r = true ->
  exists l, rmatch (captured_tail cls) (MState n (w ++ r) cs)
            = MState (n + length w) r ((1%nat, w) :: cs) :: l /\
            Forall (fun st => st = MState (n + length w) r ((1%nat, w) :: cs)) l.
Proof.
  intros Hnl [Hne Hf] Hr. set (X := MState (n + length w) r ((1%nat, w) :: cs)).
  assert (Hin : In X (rmatch (captured_tail cls) (MState n (w ++ r) cs))).
  { unfold captured_tail.
    apply rmatch_Seq_intro with (st1 := X); [|cbn; rewrite Hr; left; reflexivity].
    cbn [rmatch]. apply in_map_iff. exists (MState (n + length w) r cs). split.
    - unfold X. cbn. f_equal. f_equal. f_equal.
      replace (n + length w - n)%nat with (length w) by lia.
      rewrite firstn_app, Nat.sub_diag, firstn_all. cbn. apply app_nil_r.
    - apply rmatch_Plus_intro; assumption. }
  assert (Hall : forall st, In st (rmatch (captured_tail cls) (MState n (w ++ r) cs)) -> st = X).
  { intros st H. unfold captured_tail in H. cbn [rmatch] in H.
    apply in_flat_map in H as (st2 & H2 & H).
    fold (rmatch (Grp 1 (Plus cls)) (MState n (w ++ r) cs)) in H2.
    apply rmatch_Grp in H2 as (w' & [Hw Hp] & [_ Hf'] & Hcaps); [|reflexivity].
    destruct (at_end (rest st2)) eqn:He; [|destruct H].
    destruct H as [<- | []]. cbn in Hw, Hp, Hcaps.
    destruct (word_end_unique cls w r w' (rest st2) Hnl Hf Hf' Hr He Hw) as [<- Hrr].
    destruct st2 as [p2 r2 c2]. cbn in *. subst. reflexivity. }
  destruct (rmatch (captured_tail cls) (MState n (w ++ r) cs)) as [|x l]; [destruct Hin|].
  exists l. split.
  - f_equal. apply Hall. left. reflexivity.
  - apply List.Forall_forall. intros st Hst. apply Hall. right. exact Hst.
Qed.

Lemma non_space_newline : non_space "010"%char = false.
Proof. reflexivity. Qed.

Lemma subnet_class_newline :
  (fun c => non_space c || chr_eqb c " "%char) "010"%char = false.
Proof. reflexivity. Qed.

Lemma rmatch_Lit_app pre : forall n s cs,
  rmatch (Lit pre) (MState n (pre ++ s) cs) = [MState (n + length pre) s cs].
Proof.
  induction pre as [|c pre IH]; intros n s cs; cbn [Lit rmatch app length].
  - rewrite Nat.add_0_r. reflexivity.
  - cbn [rest]. unfold chr_eqb at 1. rewrite Ascii.eqb_refl.
    cbn [flat_map]. unfold advance. cbn [pos caps]. rewrite IH, app_nil_r.
    replace (S n + length pre)%nat with (n + S (length pre))%nat by lia. reflexivity.
Qed.

Lemma rmatch_Seq_Lit pre r n s cs :
  rmatch (Seq (Lit pre) r) (MState n (pre ++ s) cs)
  = rmatch r (MState (n + length pre) s cs).
Proof. cbn [rmatch]. rewrite rmatch_Lit_app. cbn [flat_map]. apply app_nil_r. Qed.

Lemma rmatch_Seq_Cls p r c n s cs :
  p c = true ->
  rmatch (Seq (Cls p) r) (MState n (c :: s) cs) = rmatch r (MState (S n) s cs).
Proof.
  intros H. cbn [rmatch rest]. rewrite H. cbn [flat_map]. unfold advance.
  cbn [pos caps]. apply app_nil_r.
Qed.

(** [^keyword(class+)$] on the keyword followed by a word of the class:
    the match is found and group 1 is the word. *)
Lemma search_keyword_word pre cls w r :
  cls "010"%char = false -> word_of cls w -> at_end r = true ->
  exists mm, search (Seq Bol (Seq (Lit pre) (captured_tail cls))) (pre ++ w ++ r)
             = Some mm /\
             group 1 (caps (m_end mm)) = Some w.
Proof.
  intros Hnl Hw Hr. rewrite search_anchored, match_at_anchored, rmatch_Seq_Lit.
  destruct (captured_tail_word cls w r (0 + length pre)%nat [] Hnl Hw Hr) as (l & -> & _).
  cbn [head option_map]. eexists. split; [reflexivity|]. cbn. reflexivity.
Qed.

(** The same with one blank character between the keyword and the word
    ([^ host\s(\S+)$]). *)
Lemma search_keyword_space_word pre cls c w :
  cls "010"%char = false -> is_space c = true -> word_of cls w ->
  exists mm,
    search (Seq Bol (Seq (Lit pre) (Seq (Cls is_space) (captured_tail cls))))
           (pre ++ c :: w) = Some mm /\
    group 1 (caps (m_end mm)) = Some w.
Proof.
  intros Hnl Hc Hw.
  rewrite search_anchored, match_at_anchored, rmatch_Seq_Lit, rmatch_Seq_Cls by exact Hc.
  pose proof (captured_tail_word cls w [] (S (0 + length pre))%nat [] Hnl Hw eq_refl) as H.
  rewrite app_nil_r in H. destruct H as (l & -> & _).
  cbn [head option_map]. eexists. split; [reflexivity|]. cbn. reflexivity.
Qed.

Lemma re_match_keyword h l pre cls w d :
  cls "010"%char = false -> word_of cls w ->
  text_of h l = pre ++ w ->
  re_match h l (Seq Bol (Seq (Lit pre) (captured_tail cls))) d = Some w.
Proof.
  intros Hnl Hw Ht. unfold re_match. rewrite Ht.
  pose proof (search_keyword_word pre cls w [] Hnl Hw eq_refl) as H.
  rewrite app_nil_r in H. destruct H as (mm & -> & Hg). exact Hg.
Qed.

(** What a match of [^keyword(class+)$] says about the subject. *)
Lemma search_keyword_inv pre cls text mm :
  search (Seq Bol (Seq (Lit pre) (captured_tail cls))) text = Some mm ->
  exists w r, text = pre ++ w ++ r /\ word_of cls w /\ at_end r = true /\
              group 1 (caps (m_end mm)) = Some w.
Proof.
  rewrite search_anchored, match_at_anchored.
  destruct (rmatch _ (MState 0 text [])) as [|st l] eqn:E; [discriminate|].
  cbn [head option_map]. intros [= <-]. cbn [m_end].
  assert (Hin : In st (rmatch (Seq (Lit pre) (captured_tail cls)) (MState 0 text [])))
    by (rewrite E; left; reflexivity).
  clear E. cbn [rmatch] in Hin. apply in_flat_map in Hin as (st1 & H1 & H).
  fold (rmatch (captured_tail cls) st1) in H.
  pose proof (rmatch_caps _ _ _ (groups_Lit pre) H1) as C1.
  apply rmatch_sound in H1 as (w1 & [Hw1 _] & L1). apply lang_Lit in L1. subst w1.
  unfold captured_tail in H. cbn [rmatch] in H.
  apply in_flat_map in H as (st2 & H2 & H).
  fold (rmatch (Grp 1 (Plus cls)) st1) in H2.
  apply rmatch_Grp in H2 as (w & [Hw _] & Lw & Hcaps); [|reflexivity].
  destruct (at_end (rest st2)) eqn:He; [|destruct H]. destruct H as [<- | []].
  exists w, (rest st2). cbn in Hw1. rewrite Hw1, Hw, Hcaps. cbn.
  repeat split; try assumption; apply Lw.
Qed.

(** With a default that is a string, [re_match] with such a pattern
    always returns a string. *)
Lemma re_match_keyword_string h l pre cls d :
  exists w, re_match h l (Seq Bol (Seq (Lit pre) (captured_tail cls))) (Some d) = Some w.
Proof.
  unfold re_match.
  destruct (search _ (text_of h l)) as [mm|] eqn:E; [|eauto].
  apply search_keyword_inv in E as (w & _ & _ & _ & _ & ->). eauto.
Qed.

Lemma startswith_app pre t :
  startswith pre t = true <-> exists s, t = pre ++ s.
Proof.
  revert t. induction pre as [|c pre IH]; intros t; cbn.
  - split; [eauto | reflexivity].
  - destruct t as [|x t]; [split; [discriminate | intros (s & [=])]|].
    rewrite andb_true_iff, chr_eqb_spec, IH. split.
    + intros [-> (s & ->)]. eauto.
    + intros (s & [= -> ->]). eauto.
Qed.

(** [^keyword] matches exactly the texts that start with the keyword. *)
Lemma search_keyword_prefix pre text :
  (exists mm, search (Seq Bol (Lit pre)) text = Some mm) <->
  startswith pre text = true.
Proof.
  rewrite search_anchored, match_at_anchored, startswith_app. split.
  - intros (mm & H).
    destruct (rmatch (Lit pre) (MState 0 text [])) as [|st l] eqn:E; [discriminate|].
    assert (Hin : In st (rmatch (Lit pre) (MState 0 text [])))
      by (rewrite E; left; reflexivity).
    apply rmatch_sound in Hin as (w & [Hw _] & L). apply lang_Lit in L. subst w.
    cbn in Hw. eauto.
  - intros (s & ->). rewrite rmatch_Lit_app. cbn. eauto.
Qed.

Lemma header_patterns :
  RE_OBJECT_NETWORK
    = Seq Bol (Seq (Lit (str "object network ")) (captured_tail non_space)) /\
  RE_OBJECT_GROUP
    = Seq Bol (Seq (Lit (str "object-group network ")) (captured_tail non_space)) /\
  RE_NETWORK_OBJECT_HOST
    = Seq Bol (Seq (Lit (str " network-object host ")) (captured_tail non_space)) /\
  RE_NETWORK_OBJECT_OBJECT
    = Seq Bol (Seq (Lit (str " network-object object ")) (captured_tail non_space)) /\
  RE_SUBNET
    = Seq Bol (Seq (Lit (str " subnet "))
        (captured_tail (fun c => non_space c || chr_eqb c " "%char))) /\
  RE_HOST
    = Seq Bol (Seq (Lit (str " host")) (Seq (Cls is_space) (captured_tail non_space))).
Proof. repeat split. Qed.

(** X1. What follows the keyword of a header, a reference or a host
    statement is what [re_match] extracts from the line, whatever the
    default: a name or address without blanks for the four [\S+]
    patterns, and for [RE_SUBNET] the rest of the line, blanks
    included. *)
Theorem re_match_extracts_names (h : heap) (l : loc) (name : list ascii)
    (d : option (list ascii)) :
  word_of non_space name ->
  (text_of h l = str "object network " ++ name ->
   re_match h l RE_OBJECT_NETWORK d = Some name) /\
  (text_of h l = str "object-group network " ++ name ->
   re_match h l RE_OBJECT_GROUP d = Some name) /\
  (text_of h l = str " network-object object " ++ name ->
   re_match h l RE_NETWORK_OBJECT_OBJECT d = Some name) /\
  (text_of h l = str " network-object host " ++ name ->
   re_match h l RE_NETWORK_OBJECT_HOST d = Some name) /\
  (text_of h l = str " host " ++ name ->
   re_match h l RE_HOST d = Some name) /\
  (forall rest_of_line,
     word_of (fun c => non_space c || chr_eqb c " "%char) rest_of_line ->
     text_of h l = str " subnet " ++ rest_of_line ->
     re_match h l RE_SUBNET d = Some rest_of_line).
Proof.
  intros Hw.
  repeat split; try (apply re_match_keyword; [reflexivity | exact Hw]).
  - intros Ht. unfold re_match. rewrite Ht.
    destruct (search_keyword_space_word (str " host") non_space " "%char name
                eq_refl eq_refl Hw) as (mm & Hs & Hg).
    change (str " host " ++ name) with (str " host" ++ " "%char :: name).
    change RE_HOST with
      (Seq Bol (Seq (Lit (str " host")) (Seq (Cls is_space) (captured_tail non_space)))).
    rewrite Hs. exact Hg.
  - intros w Hw'. apply re_match_keyword; [reflexivity | exact Hw'].
Qed.

Lemma find_objects_In h config r l :
  In l (find_objects h config r) <->
  In l config /\ exists mm, search r (text_of h l) = Some mm.
Proof.
  unfold find_objects. rewrite filter_In.
  destruct (search r (text_of h l)) as [mm|].
  - split; intros [H _]; eauto.
  - split; [intros [_ H]; discriminate | intros [_ (mm & H)]; discriminate].
Qed.

(** X2. The three selections of the script: [find_objects] with the
    header of the network objects (of the groups) returns the lines of
    the configuration whose whole text is the keyword followed by one
    name without blanks, in file order; with "^access-list " it returns
    the lines that start with that word.  An indented line is never
    selected. *)
Theorem find_objects_selects (h : heap) (config : list loc) :
  (forall l, In l (find_objects h config RE_OBJECT_NETWORK) <->
     In l config /\ exists name r,
       text_of h l = str "object network " ++ name ++ r /\
       word_of non_space name /\ at_end r = true) /\
  (forall l, In l (find_objects h config RE_OBJECT_GROUP) <->
     In l config /\ exists name r,
       text_of h l = str "object-group network " ++ name ++ r /\
       word_of non_space name /\ at_end r = true) /\
  find_objects h config RE_ACCESS_LIST
    = List.filter (fun l => startswith (str "access-list ") (text_of h l)) config.
Proof.
  assert (K : forall pre l,
    In l (find_objects h config (Seq Bol (Seq (Lit pre) (captured_tail non_space)))) <->
    In l config /\ exists name r,
       text_of h l = pre ++ name ++ r /\ word_of non_space name /\ at_end r = true).
  { intros pre l. rewrite find_objects_In. split; intros [Hc H]; (split; [exact Hc|]).
    - destruct H as (mm & H). apply search_keyword_inv in H as (w & r & ? & ? & ? & _).
      eauto.
    - destruct H as (name & r & -> & Hw & Hr).
      destruct (search_keyword_word pre non_space name r eq_refl Hw Hr) as (mm & ? & _).
      eauto. }
  split; [apply K|]. split; [apply K|].
  unfold find_objects. apply filter_ext. intros l.
  pose proof (search_keyword_prefix (str "access-list ") (text_of h l)) as P.
  unfold RE_ACCESS_LIST.
  destruct (search _ (text_of h l)) as [mm|], (startswith _ (text_of h l));
    try reflexivity.
  - symmetry. apply P. eauto.
  - destruct (proj2 P eq_refl) as (mm & ?). discriminate.
Qed.


(** ** The scan of the access lists *)

Lemma check_names_keyword h pre objs t :
  check_names h (Seq Bol (Seq (Lit pre) (captured_tail non_space))) objs t
  = Return (existsb (fun obj =>
      contains_text (name_of h (Seq Bol (Seq (Lit pre) (captured_tail non_space))) obj) t)
      objs).
Proof.
  induction objs as [|obj objs IH]; cbn [check_names existsb]; [reflexivity|].
  unfold name_of at 1.
  destruct (re_match_keyword_string h obj pre non_space []) as (w & Hw).
  unfold default_empty. rewrite Hw. cbn [opt_in_text bind from_option id].
  destruct (contains_text w t); [reflexivity | exact IH].
Qed.

Lemma append_if_repeat b (l : list loc) x :
  append_if b l x = l ++ repeat x (Nat.b2n b).
Proof. destruct b; cbn; [reflexivity | symmetry; apply app_nil_r]. Qed.

Lemma check_bare_subnets_covered q IPs :
  valid q -> check_bare_subnets (Some q) IPs = existsb (pair_covered q) IPs.
Proof.
  intros Hq. induction IPs as [|IP IPs IH]; cbn [check_bare_subnets existsb];
    [reflexivity|].
  unfold pair_covered at 1.
  destruct (IPv4Obj_init IP) as [n|] eqn:Hn; cbn [bind in_subnet try_except].
  - rewrite contains_range; [|exact Hq|eapply IPv4Obj_init_valid; eassumption].
    destruct (range_containsb q n); [reflexivity | exact IH].
  - exact IH.
Qed.

Lemma ACL_line_counts h mo mg q line acc :
  valid q ->
  ACL_line h (Some mo) (Some mg) (Some q) line acc
  = Return (acc ++ repeat line (conditions_met h mo mg q line)).
Proof.
  intros Hq. unfold ACL_line. cbn [global bind].
  change RE_OBJECT_NETWORK with
    (Seq Bol (Seq (Lit (str "object network ")) (captured_tail non_space))).
  change RE_OBJECT_GROUP with
    (Seq Bol (Seq (Lit (str "object-group network ")) (captured_tail non_space))).
  rewrite !check_names_keyword. cbn [bind].
  rewrite check_bare_hosts_spec by (exact Hq || apply findall_bare_host_quads).
  cbn [bind]. rewrite check_bare_subnets_covered by exact Hq.
  rewrite !append_if_repeat, <- !app_assoc, <- !repeat_app.
  unfold conditions_met, names_object, names_group, has_host_in, has_subnet_in.
  rewrite !Nat.add_assoc. reflexivity.
Qed.

Lemma ACL_loop_counts h mo mg q ACL : forall acc,
  valid q ->
  ACL_loop h (Some mo) (Some mg) (Some q) ACL acc
  = Return (acc ++ flat_map (fun line => repeat line (conditions_met h mo mg q line)) ACL).
Proof.
  induction ACL as [|line ACL IH]; intros acc Hq; cbn [ACL_loop flat_map].
  - rewrite app_nil_r. reflexivity.
  - rewrite ACL_line_counts by exact Hq. cbn [bind]. rewrite IH by exact Hq.
    rewrite <- app_assoc. reflexivity.
Qed.

(** X3. For a well-formed general query the scan of the access lists
    never raises.  Its result lists the lines in the order of the
    configuration, each as many times as it meets one of the four
    conditions (names a matched object, names a matched group, holds a
    bare host in the query, holds a bare subnet in the query): between
    none and four times. *)
Theorem ACL_loop_reports_per_condition
    (h : heap) (mo mg : list loc) (q : IPv4Obj) (ACL : list loc) :
  valid q ->
  ACL_loop h (Some mo) (Some mg) (Some q) ACL []
  = Return (flat_map (fun line => repeat line (conditions_met h mo mg q line)) ACL) /\
  (forall line, (conditions_met h mo mg q line <= 4)%nat).
Proof.
  intros Hq. split.
  - rewrite ACL_loop_counts by exact Hq. reflexivity.
  - intros line. unfold conditions_met.
    destruct (names_object h mo line), (names_group h mg line),
             (has_host_in h q line), (has_subnet_in h q line); cbn; lia.
Qed.


(** ** Statements with a dotted quad *)

Lemma digit_non_space c : is_digit c = true -> non_space c = true.
Proof.
  intros H. apply is_digit_spec in H. unfold non_space, is_space.
  apply negb_true_iff. cbv zeta.
  rewrite !orb_false_iff, !andb_false_iff, !Nat.leb_gt, !Nat.eqb_neq. lia.
Qed.

Lemma octet_text_word o : octet_text o -> Forall (fun c => non_space c = true) o.
Proof.
  intros (_ & H & _). eapply List.Forall_impl; [|exact H]. exact digit_non_space.
Qed.

Lemma dotted_quad_word IP : dotted_quad_text IP -> word_of non_space IP.
Proof.
  intros (a & b & c & d & -> & Ha & Hb & Hc & Hd). split.
  - pose proof (octet_text_nonempty _ Ha). unfold dotted. destruct a; [congruence | discriminate].
  - unfold dotted.
    apply Forall_app; split; [apply octet_text_word; exact Ha|].
    apply List.Forall_cons; [reflexivity|].
    apply Forall_app; split; [apply octet_text_word; exact Hb|].
    apply List.Forall_cons; [reflexivity|].
    apply Forall_app; split; [apply octet_text_word; exact Hc|].
    apply List.Forall_cons; [reflexivity|]. apply octet_text_word; exact Hd.
Qed.

(** A host that contains the query lies in the range of the query. *)
Lemma host_statement_read h c :
  host_statement h c ->
  exists IP, re_match h c RE_HOST None = Some IP /\ truthy IP = true /\
             IPv4Obj_init IP = Return (mkIPv4Obj (host_address h c) 32) /\
             0 <= host_address h c < 2 ^ 32.
Proof.
  intros (IP & Ht & HIP). exists IP.
  pose proof (dotted_quad_word IP HIP) as Hw.
  destruct (IPv4Obj_init_dotted_quad IP HIP) as [Hp Hr].
  assert (Ha : host_address h c = host_value IP).
  { unfold host_address. rewrite Ht. reflexivity. }
  rewrite Ha. repeat split; try assumption; try apply Hr.
  - unfold re_match. rewrite Ht.
    destruct (search_keyword_space_word (str " host") non_space " "%char IP
                eq_refl eq_refl Hw) as (mm & Hs & Hg).
    change (str " host " ++ IP) with (str " host" ++ " "%char :: IP).
    change RE_HOST with
      (Seq Bol (Seq (Lit (str " host")) (Seq (Cls is_space) (captured_tail non_space)))).
    rewrite Hs. exact Hg.
  - destruct Hw as [Hne _]. destruct IP; [congruence | reflexivity].
Qed.

Lemma scan_children_hosts h q cs :
  valid q -> Forall (host_statement h) cs ->
  scan_children h q cs
  = Return (existsb (fun c => in_rangeb q (host_address h c)) cs).
Proof.
  intros Hq. induction 1 as [|c cs Hc _ IH]; cbn [scan_children existsb]; [reflexivity|].
  destruct (host_statement_read h c Hc) as (IP & -> & T & Hp & Hr).
  cbn [opt_truthy negb]. rewrite T. cbn [negb]. rewrite T, Hp. cbn [bind].
  rewrite host_either_way by assumption.
  destruct (in_rangeb q (host_address h c)); [reflexivity | exact IH].
Qed.

Lemma match_network_objects_loop_hosts h q objs : forall acc,
  valid q ->
  Forall (fun obj => Forall (host_statement h) (children_of h obj)) objs ->
  match_network_objects_loop h q objs acc
  = Return (acc ++ List.filter
      (fun obj => existsb (fun c => in_rangeb q (host_address h c)) (children_of h obj))
      objs).
Proof.
  intros acc Hq H. revert acc.
  induction H as [|obj objs Ho _ IH]; intros acc;
    cbn [match_network_objects_loop List.filter].
  - rewrite app_nil_r. reflexivity.
  - rewrite scan_children_hosts by assumption. cbn [bind]. rewrite IH.
    destruct (existsb _ (children_of h obj)); [rewrite <- app_assoc|]; reflexivity.
Qed.

(** X4. Over objects whose children are all host statements with a
    dotted quad, [match_network_objects] never raises, and an object is
    matched exactly when one of its addresses lies between the network
    address and the broadcast address of the query: for single
    addresses the second direction of the test adds nothing. *)
Theorem match_network_objects_hosts (h : heap) (q : IPv4Obj) (objs : list loc) :
  valid q ->
  Forall (fun obj => Forall (host_statement h) (children_of h obj)) objs ->
  match_network_objects h q objs
  = Return (List.filter
      (fun obj => existsb (fun c => in_rangeb q (host_address h c)) (children_of h obj))
      objs).
Proof.
  intros Hq H. unfold match_network_objects.
  rewrite match_network_objects_loop_hosts by assumption. reflexivity.
Qed.

(** ** The children of a group *)

Lemma rmatch_Lit_mismatch pre : forall n t cs,
  startswith pre t = false -> rmatch (Lit pre) (MState n t cs) = [].
Proof.
  induction pre as [|c pre IH]; intros n t cs; cbn [startswith Lit rmatch rest];
    [discriminate|].
  destruct t as [|x t]; [reflexivity|].
  unfold chr_eqb. rewrite Ascii.eqb_sym. destruct (Ascii.eqb x c) eqn:E; cbn [andb].
  - intros H. cbn [flat_map]. unfold advance. cbn [pos caps].
    rewrite (IH _ _ _ H). reflexivity.
  - reflexivity.
Qed.

Lemma re_match_keyword_mismatch h l pre r d :
  startswith pre (text_of h l) = false ->
  re_match h l (Seq Bol (Seq (Lit pre) r)) d = d.
Proof.
  intros H. unfold re_match. rewrite search_anchored, match_at_anchored.
  cbn [rmatch]. rewrite (rmatch_Lit_mismatch _ _ _ _ H). reflexivity.
Qed.

Lemma contains_text_existsb h name mo :
  is_substring_of_obj_list h name mo
  = existsb (fun obj => contains_text name (text_of h obj)) mo.
Proof. apply is_substring_of_obj_list_existsb. Qed.

Lemma group_statement_step h q mo c :
  valid q -> group_host_statement h c \/ group_reference h c ->
  forall cs acc,
  collect_children h q mo (c :: cs) acc
  = collect_children h q mo cs
      (if statement_matched h q mo c then acc ++ [c] else acc).
Proof.
  intros Hq [(IP & Ht & HIP) | (name & Ht & Hw)] cs acc; cbn [collect_children].
  - assert (N : re_match h c RE_NETWORK_OBJECT_OBJECT None = None).
    { apply re_match_keyword_mismatch. rewrite Ht. reflexivity. }
    rewrite N. cbn [opt_truthy].
    pose proof (dotted_quad_word IP HIP) as Hw.
    assert (R : re_match h c RE_NETWORK_OBJECT_HOST None = Some IP)
      by (apply re_match_keyword; [reflexivity | exact Hw | exact Ht]).
    rewrite R. cbn [opt_truthy from_option id].
    assert (T : truthy IP = true)
      by (destruct Hw as [Hne _]; destruct IP; [congruence | reflexivity]).
    rewrite T. destruct (IPv4Obj_init_dotted_quad IP HIP) as [-> Hr]. cbn [bind].
    rewrite contains_host by assumption.
    unfold statement_matched. rewrite Ht.
    replace (startswith (str " network-object host ") (str " network-object host " ++ IP))
      with true by (symmetry; apply startswith_app; eauto).
    replace (skipn 21 (str " network-object host " ++ IP)) with IP by reflexivity.
    destruct (in_rangeb q (host_value IP)); reflexivity.
  - assert (R : re_match h c RE_NETWORK_OBJECT_OBJECT None = Some name)
      by (apply re_match_keyword; [reflexivity | exact Hw | exact Ht]).
    rewrite R. cbn [opt_truthy from_option id].
    assert (T : truthy name = true)
      by (destruct Hw as [Hne _]; destruct name; [congruence | reflexivity]).
    rewrite T, contains_text_existsb.
    unfold statement_matched. rewrite Ht.
    replace (startswith (str " network-object host ") (str " network-object object " ++ name))
      with false by reflexivity.
    replace (skipn 23 (str " network-object object " ++ name)) with name by reflexivity.
    destruct (existsb _ mo); reflexivity.
Qed.

Lemma collect_children_statements h q mo cs : forall acc,
  valid q ->
  Forall (fun c => group_host_statement h c \/ group_reference h c) cs ->
  collect_children h q mo cs acc
  = Return (acc ++ List.filter (statement_matched h q mo) cs).
Proof.
  intros acc Hq H. revert acc. induction H as [|c cs Hc _ IH]; intros acc.
  - cbn. rewrite app_nil_r. reflexivity.
  - rewrite group_statement_step by assumption. rewrite IH. cbn [List.filter].
    destruct (statement_matched h q mo c); [rewrite <- app_assoc|]; reflexivity.
Qed.

(** X5. Over the children of a group that are host statements with a
    dotted quad or references to a name, the loop of lines 178-193 never
    raises and keeps, in order, the hosts whose address lies in the
    range of the query and the references whose name occurs somewhere in
    the text of a matched object. *)
Theorem collect_children_of_statements
    (h : heap) (q : IPv4Obj) (mo cs : list loc) :
  valid q ->
  Forall (fun c => group_host_statement h c \/ group_reference h c) cs ->
  collect_children h q mo cs []
  = Return (List.filter (statement_matched h q mo) cs).
Proof.
  intros Hq H. rewrite collect_children_statements by assumption. reflexivity.
Qed.

Lemma startswith_app_r n a b :
  startswith n a = true -> startswith n (a ++ b) = true.
Proof.
  rewrite !startswith_app. intros (s & ->). exists (s ++ b). apply eq_sym, app_assoc.
Qed.

Lemma contains_text_app_r n a b :
  contains_text n a = true -> contains_text n (a ++ b) = true.
Proof.
  induction a as [|x a IH]; cbn [contains_text app].
  - rewrite orb_false_r. intros H. destruct n; [|discriminate].
    destruct b; reflexivity.
  - intros H. apply orb_true_iff in H as [H | H]; apply orb_true_iff.
    + left. exact (startswith_app_r n (x :: a) b H).
    + right. exact (IH H).
Qed.

Lemma contains_text_app_l n a b :
  contains_text n b = true -> contains_text n (a ++ b) = true.
Proof.
  intros H. induction a as [|x a IH]; cbn [contains_text app]; [exact H|].
  apply orb_true_iff. right. exact IH.
Qed.

(** X6. A reference is matched by occurrence, not by equality of names:
    the child "network-object object N" of a group is kept as soon as N
    occurs inside the name of a matched object, or inside the words
    "object network" that start its line. *)
Theorem reference_matched_by_occurrence
    (h : heap) (q : IPv4Obj) (mo : list loc) (child obj : loc)
    (n name : list ascii) :
  word_of non_space n ->
  text_of h child = str " network-object object " ++ n ->
  In obj mo ->
  text_of h obj = str "object network " ++ name ->
  contains_text n name = true \/ contains_text n (str "object network ") = true ->
  collect_children h q mo [child] [] = Return [child].
Proof.
  intros Hw Ht Hin Ho Hocc. cbn [collect_children].
  assert (R : re_match h child RE_NETWORK_OBJECT_OBJECT None = Some n)
    by (apply re_match_keyword; [reflexivity | exact Hw | exact Ht]).
  rewrite R. cbn [opt_truthy from_option id].
  assert (T : truthy n = true)
    by (destruct Hw as [Hne _]; destruct n; [congruence | reflexivity]).
  rewrite T, is_substring_of_obj_list_existsb.
  assert (E : existsb (fun o => contains_text n (text_of h o)) mo = true).
  { apply existsb_exists. exists obj. split; [exact Hin|]. rewrite Ho.
    destruct Hocc as [H | H];
      [apply contains_text_app_l | apply contains_text_app_r]; exact H. }
  rewrite E. reflexivity.
Qed.


(** ** Runs that end early *)

(** X7. A query that [IPv4Obj] does not accept ends the run in
    [SystemExit] before anything is matched, whichever of [-i], [-s] and
    [-d] carries it: no result, and the store is the one the run
    started with. *)
Theorem rejected_query_exits (h : heap) (config : list loc) (args : Namespace) :
  rejected (ip args) \/ rejected (source args) \/ rejected (dest args) ->
  main h config args = (h, Raise SystemExit).
Proof.
  intros H. unfold main.
  destruct (check_arguments args) as [[]|e] eqn:Echk.
  2:{ unfold check_arguments in Echk.
      repeat match type of Echk with
             | (if ?b then _ else _) = _ => destruct b; [injection Echk as <-; reflexivity|]
             end.
      discriminate. }
  destruct (_ && _); [reflexivity|].
  assert (C : forall arg, rejected arg -> cast_argument arg = Raise SystemExit).
  { intros arg [T (e & E)]. unfold cast_argument. rewrite T, E. reflexivity. }
  assert (D : forall arg, cast_argument arg = Raise SystemExit \/
                          exists v, cast_argument arg = Return v).
  { intros arg. unfold cast_argument. destruct (opt_truthy arg); [|eauto].
    destruct (IPv4Obj_init _); eauto. }
  destruct (D (ip args)) as [-> | (v1 & E1)]; [reflexivity|].
  destruct (D (source args)) as [E2 | (v2 & E2)]; [rewrite E1, E2; reflexivity|].
  destruct H as [H | [H | H]]; apply C in H.
  - congruence.
  - congruence.
  - rewrite E1, E2, H. reflexivity.
Qed.

(** ** The lines the groups add to the store *)

Lemma dom_add_child (h : heap) p c : dom (fst (add_child h p c)) = dom h.
Proof.
  unfold add_child. destruct (line_in h c (children_of h p)); cbn [fst]; [reflexivity|].
  apply dom_alter_L.
Qed.

Lemma dom_add_children (h : heap) p cs : dom (add_children h p cs) = dom h.
Proof.
  revert h. induction cs as [|c cs IH]; intros h; cbn [add_children]; [reflexivity|].
  rewrite IH. apply dom_add_child.
Qed.

Lemma match_network_object_groups_loop_dom q mo groups : forall hk acc h' r,
  match_network_object_groups_loop hk q groups mo acc = (h', r) ->
  exists new : list loc,
    dom h' = dom hk ∪ list_to_set new /\ NoDup new /\
    Forall (fun g => g ∉ dom hk) new /\
    forall out, r = Return out -> out = acc ++ new.
Proof.
  induction groups as [|g groups IH]; intros hk acc h' r;
    cbn [match_network_object_groups_loop].
  - intros [= <- <-]. exists []. split; [set_solver|].
    split; [constructor|]. split; [constructor|].
    intros out [= <-]. symmetry. apply app_nil_r.
  - destruct (collect_children hk q mo (children_of hk g) []) as [[|c cs]|e].
    + apply IH.
    + destruct (IOSCfgLine_init_spec hk (text_of hk g)) as [Hn Hh1].
      destruct (IOSCfgLine_init hk (text_of hk g)) as [h1 p] eqn:E.
      cbn [fst snd] in Hn, Hh1. subst h1.
      intros H. apply IH in H as (new & Hd & Hnd & Hf & Hout).
      rewrite dom_add_children, dom_insert_L in Hd.
      apply not_elem_of_dom in Hn.
      assert (Hp : p ∉ new).
      { intros Hin. rewrite List.Forall_forall in Hf.
        apply list_elem_of_In in Hin. apply Hf in Hin.
        rewrite dom_add_children, dom_insert_L in Hin. set_solver. }
      exists (p :: new). split; [rewrite Hd; set_solver|].
      split; [constructor; assumption|]. split.
      * constructor; [exact Hn|].
        eapply List.Forall_impl; [|exact Hf]. cbn beta. intros x Hx.
        rewrite dom_add_children, dom_insert_L in Hx. set_solver.
      * intros out Hr. rewrite (Hout out Hr), <- app_assoc. reflexivity.
    + intros [= <- <-]. exists []. split; [set_solver|].
      split; [constructor|]. split; [constructor | discriminate].
Qed.

(** X8. [match_network_object_groups] adds to the store one line for
    each group it returns and nothing else: the lines of the store
    afterwards are the lines before and the returned groups, which are
    pairwise different and were not in the store. *)
Theorem match_network_object_groups_allocates
    (h h' : heap) (q : IPv4Obj) (groups mo out : list loc) :
  match_network_object_groups h q groups mo = (h', Return out) ->
  dom h' = dom h ∪ list_to_set out /\
  NoDup out /\
  Forall (fun g => g ∉ dom h) out /\
  size h' = (size h + length out)%nat.
Proof.
  intros H. apply match_network_object_groups_loop_dom in H as (new & Hd & Hnd & Hf & Hout).
  rewrite (Hout out eq_refl). cbn [app]. repeat split; try assumption.
  rewrite <- !size_dom, Hd, size_union.
  - rewrite size_list_to_set by exact Hnd. reflexivity.
  - intros x Hx Hy. apply elem_of_list_to_set in Hy.
    rewrite List.Forall_forall in Hf. apply list_elem_of_In in Hy. exact (Hf x Hy Hx).
Qed.

(** ** The general query from end to end *)

Lemma check_arguments_general args :
  check_arguments args = Return tt -> opt_truthy (ip args) = true ->
  opt_truthy (out_file args) = false /\
  opt_truthy (source args) = false /\ opt_truthy (dest args) = false.
Proof.
  unfold check_arguments. intros H T. rewrite T in H.
  destruct (opt_truthy (out_file args)); [discriminate|].
  cbn [andb orb] in H.
  destruct (opt_truthy (pickle_file args) && false); [discriminate|].
  destruct (opt_truthy (source args)); [discriminate|].
  destruct (opt_truthy (dest args)); [discriminate|]. auto.
Qed.

Lemma cast_argument_absent arg :
  opt_truthy arg = false -> cast_argument arg = Return None.
Proof. intros H. unfold cast_argument. rewrite H. reflexivity. Qed.

Lemma cast_argument_parsed arg q :
  cast_argument arg = Return (Some q) -> IPv4Obj_init (default [] arg) = Return q.
Proof.
  unfold cast_argument. destruct (opt_truthy arg); [|discriminate].
  destruct (IPv4Obj_init _); [|discriminate]. intros [= ->]. reflexivity.
Qed.

(** The three lines of the report. *)
Lemma run_general h config q :
  let net_objs := find_objects h config RE_OBJECT_NETWORK in
  let groups := find_objects h config RE_OBJECT_GROUP in
  run h config (Some q) None None =
  match match_network_objects h q net_objs with
  | Raise e => (h, Raise e)
  | Return objs =>
      match match_network_object_groups h q groups objs with
      | (h1, Raise e) => (h1, Raise e)
      | (h1, Return grps) =>
          (h1,
           let* am := ACL_loop h1 (Some objs) (Some grps) (Some q)
                        (find_objects h1 config RE_ACCESS_LIST) [] in
           Return (mkResult objs grps am
             ([str "Matched network objects"] ++ print_blocks h1 objs ++
              [str (String "010"%char "Matched object groups")] ++ print_blocks h1 grps ++
              [str (String "010"%char "Matched ACLs")] ++ map (text_of h1) am)))
      end
  end.
Proof.
  cbv zeta. unfold run. cbn [when_query].
  destruct (match_network_objects h q _) as [objs|e]; cbn [bind]; [|reflexivity].
  cbn [when_query_groups global].
  destruct (match_network_object_groups h q _ objs) as [h1 [grps|e]]; cbn [bind];
    reflexivity.
Qed.

Lemma main_general h config args res :
  snd (main h config args) = Return res ->
  exists q, IPv4Obj_init (default [] (ip args)) = Return q /\
            main h config args = run h config (Some q) None None.
Proof.
  intros H.
  assert (G : opt_truthy (ip args) = true /\ opt_truthy (source args) = false /\
              opt_truthy (dest args) = false).
  { revert H. unfold main.
    destruct (check_arguments args) eqn:Echk; [|discriminate].
    destruct (_ && _); [discriminate|].
    destruct (cast_argument (ip args)) as [subnet|] eqn:Ei; [|discriminate].
    destruct (cast_argument (source args)) as [src|] eqn:Es; [|discriminate].
    destruct (cast_argument (dest args)) as [dst|] eqn:Ed; [|discriminate].
    intros H. apply run_result in H as [[q ->] ->].
    apply cast_argument_Some in Ei. apply cast_argument_None in Ed.
    split; [exact Ei|]. split; [|exact Ed].
    unfold check_arguments in Echk. rewrite Ei in Echk.
    destruct (opt_truthy (out_file args)); [discriminate|].
    cbn [andb orb] in Echk.
    destruct (opt_truthy (pickle_file args) && false); [discriminate|].
    destruct (opt_truthy (source args)); [discriminate | reflexivity]. }
  destruct G as (Ti & Ts & Td). revert H. unfold main.
  destruct (check_arguments args); [|discriminate].
  destruct (_ && _); [discriminate|].
  rewrite (cast_argument_absent _ Ts), (cast_argument_absent _ Td).
  destruct (cast_argument (ip args)) as [[q|]|] eqn:Ei; [| |discriminate].
  - intros _. exists q. split; [apply cast_argument_parsed; exact Ei | reflexivity].
  - intros H. apply run_result in H as [[q [=]] _].
Qed.

(** X10. Every line a run reports under "Matched ACLs" is a line of the
    configuration whose text starts with "access-list ". *)
Theorem reported_lines_are_access_lists
    (h : heap) (config : list loc) (args : Namespace) (res : Result) :
  known h config ->
  snd (main h config args) = Return res ->
  Forall (fun l => In l config /\
                   startswith (str "access-list ") (text_of h l) = true)
         (ACL_matches res).
Proof.
  intros Hk H. destruct (main_general h config args res H) as (q & Hq & E).
  pose proof (IPv4Obj_init_valid _ _ Hq) as Vq.
  pose proof (run_frame h config (Some q) None None) as [Hsub _].
  rewrite E in H. revert H Hsub. rewrite run_general. cbv zeta.
  destruct (match_network_objects h q _) as [objs|e]; [|discriminate].
  destruct (match_network_object_groups h q _ objs) as [h1 [grps|e]]; [|discriminate].
  cbn [fst snd]. rewrite ACL_loop_counts by exact Vq. cbn [bind app].
  intros [= <-] Hsub. cbn [ACL_matches].
  apply List.Forall_forall. intros l Hl.
  apply in_flat_map in Hl as (line & Hline & Hrep).
  apply repeat_spec in Hrep. subst l.
  apply find_objects_In in Hline as [Hc (mm & Hs)]. split; [exact Hc|].
  unfold known in Hk. rewrite List.Forall_forall in Hk.
  rewrite <- (text_of_known h h1 line Hsub (Hk line Hc)).
  apply search_keyword_prefix. eauto.
Qed.

(** X11. A general query completes: when the arguments pass the checks
    with [-i], the query parses, the lines of the configuration and
    their children are in the store, and every address text of the
    children of the network objects and every host text of the children
    of the groups parses, the run reaches its end and returns a
    result. *)
Theorem general_query_completes
    (h : heap) (config : list loc) (args : Namespace) (q : IPv4Obj) :
  check_arguments args = Return tt ->
  opt_truthy (ip args) = true ->
  IPv4Obj_init (default [] (ip args)) = Return q ->
  known h config ->
  Forall (fun l => known h (children_of h l)) config ->
  (forall obj child s,
     In obj (find_objects h config RE_OBJECT_NETWORK) ->
     In child (children_of h obj) -> address_text h child = Some s ->
     exists a, IPv4Obj_init s = Return a) ->
  (forall g c s,
     In g (find_objects h config RE_OBJECT_GROUP) ->
     In c (children_of h g) ->
     re_match h c RE_NETWORK_OBJECT_HOST None = Some s ->
     exists a, IPv4Obj_init s = Return a) ->
  exists res, snd (main h config args) = Return res.
Proof.
  intros Hchk Ti Hq Hk Hkc Hobj Hgrp.
  pose proof (IPv4Obj_init_valid _ _ Hq) as Vq.
  destruct (check_arguments_general args Hchk Ti) as (To & Ts & Td).
  assert (Hsel : forall r, incl (find_objects h config r) config).
  { intros r l Hl. apply find_objects_In in Hl as [Hl _]. exact Hl. }
  assert (Hkn : forall ls, incl ls config -> known h ls).
  { intros ls Hi. unfold known in *. rewrite List.Forall_forall in *. auto. }
  assert (Hkcn : forall ls, incl ls config ->
            Forall (fun g => known h (children_of h g)) ls).
  { intros ls Hi. rewrite List.Forall_forall in *. auto. }
  unfold main. rewrite Hchk, To. cbn [andb].
  unfold cast_argument at 1. rewrite Ti, Hq.
  rewrite (cast_argument_absent _ Ts), (cast_argument_absent _ Td).
  rewrite run_general. cbv zeta.
  destruct (match_network_objects_loop_total h q _ [] Hobj) as (objs & Eo).
  unfold match_network_objects at 1. rewrite Eo.
  pose proof (match_network_objects_loop_spec h q _ [] objs Vq Eo) as Ho.
  cbn [app] in Ho.
  assert (Hko : known h objs).
  { apply Hkn. rewrite Ho. intros l Hl. apply filter_In in Hl as [Hl _].
    exact (Hsel _ _ Hl). }
  destruct (match_network_object_groups_loop_total h q objs _ Hko Hgrp h []
              (reflexivity _) (Hkn _ (Hsel _)) (Hkcn _ (Hsel _))) as (h1 & grps & Eg).
  unfold match_network_object_groups. rewrite Eg. cbn [fst snd].
  rewrite ACL_loop_counts by exact Vq. cbn [bind]. eauto.
Qed.

(** ** How a run can end *)

Lemma prefix_from_ip_string_raises s e :
  prefix_from_ip_string s = Raise e -> e = NetmaskValueError.
Proof.
  unfold prefix_from_ip_string.
  destruct (ip_int_from_octets _) as [x|]; [|intros [= <-]; reflexivity].
  destruct (prefix_from_ip_int x); [discriminate|].
  destruct (prefix_from_ip_int _); [discriminate | intros [= <-]; reflexivity].
Qed.

Lemma parse_octet_raises o e : parse_octet o = Raise e -> e = AddressValueError.
Proof.
  unfold parse_octet.
  repeat match goal with
         | |- (if ?b then _ else _) = _ -> _ =>
             destruct b; [intros [= <-]; reflexivity|]
         end.
  discriminate.
Qed.

Lemma parse_octets_raises l e : parse_octets l = Raise e -> e = AddressValueError.
Proof.
  induction l as [|o l IH]; cbn [parse_octets]; [discriminate|].
  destruct (parse_octet o) as [b|e1] eqn:Eo; cbn [bind].
  - destruct (parse_octets l) as [bs|e2]; cbn [bind]; [discriminate|].
    intros [= <-]. apply IH. reflexivity.
  - intros [= <-]. eapply parse_octet_raises; eassumption.
Qed.

Lemma ip_int_from_octets_raises l e :
  ip_int_from_octets l = Raise e -> e = AddressValueError.
Proof.
  unfold ip_int_from_octets. destruct (negb _); [intros [= <-]; reflexivity|].
  destruct (parse_octets l) as [bs|e1] eqn:E; cbn [bind]; [discriminate|].
  intros [= <-]. eapply parse_octets_raises; eassumption.
Qed.

Lemma IPv4Obj_init_raises s e : IPv4Obj_init s = Raise e -> parse_error e.
Proof.
  unfold IPv4Obj_init, parse_error.
  destruct (search RGX_IPV4ADDR_NETMASK s) as [mm|]; [|intros [= <-]; auto].
  cbv zeta.
  destruct (ip_int_from_octets _) as [n|e'] eqn:Hn; cbn [bind].
  - destruct (truthy _).
    + destruct (prefix_from_ip_string _) as [p|e'] eqn:Hp; cbn [bind]; [discriminate|].
      intros [= <-]. apply prefix_from_ip_string_raises in Hp. auto.
    + destruct (_ <? _); [intros [= <-]; auto | discriminate].
  - intros [= <-]. apply ip_int_from_octets_raises in Hn. auto.
Qed.

Lemma scan_children_raises h q cs e :
  scan_children h q cs = Raise e -> parse_error e.
Proof.
  induction cs as [|c cs IH]; cbn [scan_children]; [discriminate|].
  destruct (if negb (opt_truthy (re_match h c RE_HOST None))
            then re_match h c RE_SUBNET None else re_match h c RE_HOST None) as [s|];
    [|exact IH].
  destruct (truthy s); [|exact IH].
  destruct (IPv4Obj_init s) as [a|e'] eqn:E; cbn [bind].
  - destruct (contains_or_is_contained a q); [discriminate | exact IH].
  - intros [= <-]. eapply IPv4Obj_init_raises; eassumption.
Qed.

Lemma match_network_objects_raises h q objs e :
  match_network_objects h q objs = Raise e -> parse_error e.
Proof.
  unfold match_network_objects. generalize (@nil loc).
  induction objs as [|obj objs IH]; intros acc; cbn [match_network_objects_loop];
    [discriminate|].
  destruct (scan_children h q (children_of h obj)) as [b|e'] eqn:E; cbn [bind].
  - apply IH.
  - intros [= <-]. eapply scan_children_raises; eassumption.
Qed.

Lemma collect_children_raises h q mo cs e : forall acc,
  collect_children h q mo cs acc = Raise e -> parse_error e.
Proof.
  induction cs as [|c cs IH]; intros acc; cbn [collect_children]; [discriminate|].
  destruct (opt_truthy (re_match h c RE_NETWORK_OBJECT_OBJECT None)).
  - destruct (is_substring_of_obj_list _ _ _); apply IH.
  - destruct (opt_truthy (re_match h c RE_NETWORK_OBJECT_HOST None)); [|apply IH].
    destruct (IPv4Obj_init _) as [a|e'] eqn:E; cbn [bind].
    + destruct (contains q a); apply IH.
    + intros [= <-]. eapply IPv4Obj_init_raises; eassumption.
Qed.

Lemma match_network_object_groups_raises q mo groups e : forall h acc,
  snd (match_network_object_groups_loop h q groups mo acc) = Raise e ->
  parse_error e.
Proof.
  induction groups as [|g groups IH]; intros h acc;
    cbn [match_network_object_groups_loop]; [discriminate|].
  destruct (collect_children h q mo (children_of h g) []) as [[|c cs]|e'] eqn:E.
  - apply IH.
  - destruct (IOSCfgLine_init h (text_of h g)) as [h1 p]. apply IH.
  - cbn [snd]. intros [= <-]. eapply collect_children_raises; eassumption.
Qed.

Lemma ACL_loop_unbound h mg subnet ACL acc e :
  ACL_loop h None mg subnet ACL acc = Raise e -> e = NameError "matched_objects".
Proof.
  destruct ACL as [|line ACL]; cbn [ACL_loop]; [discriminate|].
  unfold ACL_line. cbn [global bind]. intros [= <-]. reflexivity.
Qed.

Lemma when_query_cases {A} (q : option IPv4Obj) (f : IPv4Obj -> outcome A) :
  match q with
  | None => when_query q f = Return None
  | Some a =>
      (exists v, f a = Return v /\ when_query q f = Return (Some v)) \/
      (exists e, f a = Raise e /\ when_query q f = Raise e)
  end.
Proof.
  destruct q as [a|]; cbn [when_query]; [|reflexivity].
  destruct (f a) as [v|e]; cbn [bind]; eauto.
Qed.

Lemma when_query_groups_cases h q groups m :
  match q with
  | None => when_query_groups h q groups m = (h, Return None)
  | Some a =>
      match m with
      | Raise e => when_query_groups h q groups m = (h, Raise e)
      | Return objs =>
          exists h', (exists v, when_query_groups h q groups m = (h', Return (Some v))) \/
                     (exists e, when_query_groups h q groups m = (h', Raise e) /\
                                parse_error e)
      end
  end.
Proof.
  destruct q as [a|]; [|reflexivity]. destruct m as [objs|e]; [|reflexivity].
  cbn [when_query_groups]. unfold match_network_object_groups.
  pose proof (match_network_object_groups_raises a objs groups) as R.
  destruct (match_network_object_groups_loop h a groups objs []) as [h' [v|e]] eqn:E.
  - exists h'. left. eauto.
  - exists h'. right. exists e. split; [reflexivity|].
    apply (R e h []). rewrite E. reflexivity.
Qed.

(** X14. How the matching can stop.  Once the arguments are cast and
    the configuration is loaded (lines 211-287), a run that does not come
    to its end stops in a [NameError], and then there is no [-i] query or
    there is a [-d] query, or in one of the three exceptions of [IPv4Obj]
    on an address of the configuration.  It never stops in a
    [TypeError]. *)
Theorem run_ends (h : heap) (config : list loc) (subnet src dst : option IPv4Obj)
    (e : exn) :
  (forall q, subnet = Some q -> valid q) ->
  snd (run h config subnet src dst) = Raise e ->
  ((exists name, e = NameError name) /\ (subnet = None \/ dst <> None)) \/
  parse_error e.
Proof.
  intros Hval.
  unfold run.
  set (net_objs := find_objects h config RE_OBJECT_NETWORK).
  set (groups := find_objects h config RE_OBJECT_GROUP).
  assert (W : forall q mo e',
            when_query q (fun a => match_network_objects h a net_objs) = mo ->
            mo = Raise e' -> parse_error e').
  { intros q mo e' <- H.
    pose proof (when_query_cases q (fun a => match_network_objects h a net_objs)) as K.
    destruct q as [a|]; [|congruence].
    destruct K as [(v & _ & K) | (e2 & K1 & K2)]; [congruence|].
    rewrite K2 in H. injection H as <-.
    eapply match_network_objects_raises; eassumption. }
  destruct (when_query subnet _) as [mo|e'] eqn:Emo;
    [|cbn [snd]; intros [= <-]; right; eapply W; eauto].
  destruct (when_query src _) as [smo|e'] eqn:Esmo;
    [|cbn [snd]; intros [= <-]; right; eapply W; eauto].
  destruct (when_query dst _) as [dmo|e'] eqn:Edmo;
    [|cbn [snd]; intros [= <-]; right; eapply W; eauto].
  clear W.
  assert (Bound : forall (q : option IPv4Obj) (v : option (list loc)) name,
            when_query q (fun a => match_network_objects h a net_objs) = Return v ->
            match q with
            | Some _ => exists objs, global name v = Return objs /\ v = Some objs
            | None => v = None
            end).
  { intros q v name H.
    pose proof (when_query_cases q (fun a => match_network_objects h a net_objs)) as K.
    destruct q as [a|]; [|congruence].
    destruct K as [(w & _ & K) | (e2 & _ & K)]; [|congruence].
    rewrite K in H. injection H as <-. cbn. eauto. }
  pose proof (Bound subnet mo "matched_objects"%string Emo) as B1.
  pose proof (Bound src smo "source_matched_objects"%string Esmo) as B2.
  clear Bound Emo Esmo Edmo.
  pose proof (when_query_groups_cases h subnet groups
                (global "matched_objects" mo)) as K1.
  destruct subnet as [q|].
  - destruct B1 as (objs & G1 & ->). rewrite G1 in K1 |- *.
    destruct K1 as (h1 & [(mg & ->) | (e1 & -> & P1)]);
      [|cbn [snd]; intros [= <-]; right; exact P1].
    pose proof (when_query_groups_cases h1 src groups
                  (global "source_matched_objects" smo)) as K2.
    destruct src as [qs|].
    + destruct B2 as (sobjs & G2 & ->). rewrite G2 in K2 |- *.
      destruct K2 as (h2 & [(smg & ->) | (e2 & -> & P2)]);
        [|cbn [snd]; intros [= <-]; right; exact P2].
      destruct dst as [qd|].
      * cbn [when_query_groups global snd]. intros [= <-]. left.
        split; [eauto | right; discriminate].
      * cbn [when_query_groups snd].
        rewrite ACL_loop_counts by (apply Hval; reflexivity). cbn. discriminate.
    + rewrite K2. destruct dst as [qd|].
      * cbn [when_query_groups global snd]. intros [= <-]. left.
        split; [eauto | right; discriminate].
      * cbn [when_query_groups snd].
        rewrite ACL_loop_counts by (apply Hval; reflexivity). cbn. discriminate.
  - subst mo. rewrite K1.
    assert (Fin : forall h3 mg ACL,
              (let* am := ACL_loop h3 None mg None ACL [] in
               let* objs := global "matched_objects" (@None (list loc)) in
               let* grps := global "matched_groups" mg in
               Return (mkResult objs grps am
                 ([str "Matched network objects"] ++ print_blocks h3 objs ++
                  [str (String "010"%char "Matched object groups")] ++
                  print_blocks h3 grps ++
                  [str (String "010"%char "Matched ACLs")] ++ map (text_of h3) am)))
              = Raise e ->
              exists name, e = NameError name).
    { intros h3 mg ACL.
      destruct (ACL_loop h3 None mg None ACL []) as [am|e1] eqn:EA; cbn [bind global].
      - intros [= <-]. eauto.
      - intros [= <-]. apply ACL_loop_unbound in EA. eauto. }
    pose proof (when_query_groups_cases h src groups
                  (global "source_matched_objects" smo)) as K2.
    destruct src as [qs|].
    + destruct B2 as (sobjs & G2 & ->). rewrite G2 in K2 |- *.
      destruct K2 as (h2 & [(smg & ->) | (e2 & -> & P2)]);
        [|cbn [snd]; intros [= <-]; right; exact P2].
      destruct dst as [qd|].
      * cbn [when_query_groups global snd]. intros [= <-]. left.
        split; [eauto | left; reflexivity].
      * cbn [when_query_groups snd]. intros H. left.
        split; [eapply Fin; eassumption | left; reflexivity].
    + rewrite K2. destruct dst as [qd|].
      * cbn [when_query_groups global snd]. intros [= <-]. left.
        split; [eauto | left; reflexivity].
      * cbn [when_query_groups snd]. intros H. left.
        split; [eapply Fin; eassumption | left; reflexivity].
Qed.

(** ** The pairs of the fourth condition *)

Lemma lang_octet_digits o : lang octet o -> Forall (fun c => digit_or_dot c = true) o.
Proof.
  intros H. apply lang_octet in H as (_ & H & _).
  eapply List.Forall_impl; [|exact H]. intros c Hc. unfold digit_or_dot. rewrite Hc.
  reflexivity.
Qed.

Lemma dotted_quad_chars IP :
  dotted_quad_text IP -> Forall (fun c => digit_or_dot c = true) IP.
Proof.
  intros (a & b & c & d & -> & Ha & Hb & Hc & Hd).
  assert (D : forall o, octet_text o -> Forall (fun c => digit_or_dot c = true) o).
  { intros o (_ & H & _). eapply List.Forall_impl; [|exact H].
    intros x Hx. unfold digit_or_dot. rewrite Hx. reflexivity. }
  unfold dotted.
  apply Forall_app; split; [auto|]; apply List.Forall_cons; [reflexivity|].
  apply Forall_app; split; [auto|]; apply List.Forall_cons; [reflexivity|].
  apply Forall_app; split; [auto|]; apply List.Forall_cons; [reflexivity|].
  auto.
Qed.

(** The shape of what the bare-subnet pattern captures. *)
Lemma findall_bare_subnet_quads text IP :
  In IP (findall RE_BARE_SUBNET text) ->
  exists a m, IP = a ++ " "%char :: m /\
              dotted_quad_text a /\ dotted_quad_text m.
Proof.
  unfold findall. intros H.
  apply findall_from_elim in H as (n & s & st & Hm & ->).
  apply match_at_In in Hm.
  apply rmatch_sound in Hm as (w & [Hw Hp] & L).
  unfold findall_item.
  replace (groups RE_BARE_SUBNET) with 0%nat by reflexivity.
  unfold whole. cbn [m_end m_start m_subject]. cbn [rest pos] in Hw, Hp.
  rewrite Hp, Hw. replace (n + length w - n)%nat with (length w) by lia.
  rewrite firstn_app, Nat.sub_diag, firstn_all. cbn [firstn]. rewrite app_nil_r.
  unfold RE_BARE_SUBNET in L. cbn [lang] in L.
  destruct L as (a & r & -> & La & (sp & m & -> & Lsp & Lm)).
  apply lang_Lit in Lsp. subst sp.
  apply lang_dotted_quad in La, Lm.
  exists a, m. split; [reflexivity|]. split; assumption.
Qed.

(** X12. Every text the bare-subnet pattern captures is two dotted
    quads, each of four octets up to 255, with one blank between
    them; cutting it at the blank gives back the first quad. *)
Theorem bare_subnet_captures (text IP : list ascii) :
  In IP (findall RE_BARE_SUBNET text) ->
  exists a m, IP = a ++ " "%char :: m /\
              dotted_quad_text a /\ dotted_quad_text m /\
              first_address IP = a.
Proof.
  intros H. apply findall_bare_subnet_quads in H as (a & m & -> & La & Lm).
  exists a, m. split; [reflexivity|]. split; [exact La|]. split; [exact Lm|].
  unfold first_address.
  rewrite split_app_sep; [reflexivity|].
  eapply List.Forall_impl; [|exact (dotted_quad_chars a La)].
  intros c Hc. unfold digit_or_dot in Hc.
  destruct (chr_eqb c " "%char) eqn:E; [|reflexivity].
  apply chr_eqb_spec in E. subst c. discriminate Hc.
Qed.


(** X13. The checks of lines 47-74 let through exactly three kinds of
    run, all with one input ([-f] or [-p], not both): [-o] with [-f] and
    no query, [-i] alone, and [-s] and/or [-d] without [-i]; every other
    combination ends in [parser.error].  Apart from the exclusion of
    [-f] with [-p], an option counts as given when its value is not the
    empty string. *)
Theorem check_arguments_accepts (args : Namespace) :
  (accept_arguments args = Return tt <-> arguments_accepted args = true) /\
  (accept_arguments args <> Return tt -> accept_arguments args = Raise SystemExit).
Proof.
  unfold accept_arguments, parse_args_inputs, check_arguments, arguments_accepted.
  cbv zeta.
  split.
  - destruct (opt_truthy (ip args)), (opt_truthy (source args)),
             (opt_truthy (dest args)), (opt_truthy (out_file args)),
             (in_file args) as [f|], (pickle_file args) as [p|];
      cbn [opt_truthy bind];
      try destruct (truthy f); try destruct (truthy p);
      cbn; split; (reflexivity || discriminate).
  - destruct (opt_truthy (ip args)), (opt_truthy (source args)),
             (opt_truthy (dest args)), (opt_truthy (out_file args)),
             (in_file args) as [f|], (pickle_file args) as [p|];
      cbn [opt_truthy bind];
      try destruct (truthy f); try destruct (truthy p);
      cbn; intros H; (reflexivity || (exfalso; apply H; reflexivity)).
Qed.

(** Two ways to cut a text after a run of class characters agree. *)
Lemma run_split (P : ascii -> bool) u : forall u' x x' v v',
  Forall (fun c => P c = true) u -> Forall (fun c => P c = true) u' ->
  P x = false -> P x' = false ->
  u ++ x :: v = u' ++ x' :: v' -> u = u' /\ x = x' /\ v = v'.
Proof.
  induction u as [|c u IH]; intros u' x x' v v' Hu Hu' Hx Hx' E.
  - destruct u' as [|c' u']; cbn in E.
    + injection E as -> ->. auto.
    + injection E as -> _. inversion Hu'; subst. congruence.
  - destruct u' as [|c' u']; cbn in E.
    + injection E as -> _. inversion Hu; subst. congruence.
    + injection E as -> E. inversion Hu; inversion Hu'; subst.
      destruct (IH u' x x' v v') as (-> & -> & ->); auto.
Qed.

Lemma lang_dotted_digits w :
  lang dotted_digits w -> w <> [] /\ Forall (fun c => digit_or_dot c = true) w.
Proof.
  unfold dotted_digits. cbv zeta. cbn [lang].
  intros (w1 & r1 & -> & [N1 F1] & (d1 & r2 & -> & (c1 & -> & E1) &
         (w2 & r3 & -> & [N2 F2] & (d2 & r4 & -> & (c2 & -> & E2) &
         (w3 & r5 & -> & [N3 F3] & (d3 & w4 & -> & (c3 & -> & E3) & [N4 F4])))))).
  assert (D : forall o, Forall (fun c => is_digit c = true) o ->
                        Forall (fun c => digit_or_dot c = true) o).
  { intros o H. eapply List.Forall_impl; [|exact H].
    intros x Hx. unfold digit_or_dot. rewrite Hx. reflexivity. }
  assert (K : forall c, chr_eqb c "."%char = true -> digit_or_dot c = true).
  { intros c H. unfold digit_or_dot. rewrite H. apply orb_true_r. }
  split; [destruct w1; [congruence | discriminate]|].
  repeat (apply Forall_app; split; [auto|]; cbn [app]; apply List.Forall_cons;
          [auto|]).
  auto.
Qed.

Lemma dotted_quad_head IP :
  dotted_quad_text IP -> exists c s, IP = c :: s /\ is_digit c = true.
Proof.
  intros (a & b & c & d & -> & ((Hl & _) & Ha & _) & _).
  destruct a as [|x a]; [cbn in Hl; lia|]. inversion Ha; subst.
  exists x, (a ++ "."%char :: b ++ "."%char :: c ++ "."%char :: d). auto.
Qed.

Lemma rmatch_dotted_quad_digits IP n s cs :
  dotted_quad_text IP ->
  In (MState (n + length IP) s cs) (rmatch dotted_digits (MState n (IP ++ s) cs)).
Proof.
  intros (a & b & c & d & -> & Ha & Hb & Hc & Hd).
  apply rmatch_dotted_digits; assumption.
Qed.

Lemma rmatch_Grp_dotted_quad i IP n s cs :
  dotted_quad_text IP ->
  In (MState (n + length IP) s ((i, IP) :: cs))
     (rmatch (Grp i dotted_digits) (MState n (IP ++ s) cs)).
Proof.
  intros H. cbn [rmatch]. apply in_map_iff.
  exists (MState (n + length IP) s cs). split.
  - cbn [pos rest caps]. replace (n + length IP - n)%nat with (length IP) by lia.
    rewrite firstn_app, Nat.sub_diag, firstn_all. cbn [firstn].
    rewrite app_nil_r. reflexivity.
  - apply rmatch_dotted_quad_digits. exact H.
Qed.

Lemma digit_or_dot_space c : is_space c = true -> digit_or_dot c = false.
Proof.
  intros H. unfold digit_or_dot.
  destruct (is_digit c) eqn:D.
  - apply digit_non_space in D. unfold non_space in D. rewrite H in D. discriminate.
  - destruct (chr_eqb c "."%char) eqn:E; [|reflexivity].
    apply chr_eqb_spec in E. subst c. discriminate H.
Qed.

Lemma digit_or_dot_newline c :
  digit_or_dot c = true -> (nat_of_ascii c =? 10)%nat = false.
Proof.
  unfold digit_or_dot. intros H. apply orb_true_iff in H as [H | H].
  - apply is_digit_spec in H. apply Nat.eqb_neq. lia.
  - apply chr_eqb_spec in H. subst c. reflexivity.
Qed.

Lemma dotted_quad_no_newline IP :
  dotted_quad_text IP -> Forall (fun x => (nat_of_ascii x =? 10)%nat = false) IP.
Proof.
  intros H. eapply List.Forall_impl; [|exact (dotted_quad_chars IP H)].
  exact digit_or_dot_newline.
Qed.

(** On "a m" the first alternative of the library's pattern fails: the
    dotted digits stop at the blank, which is not the end. *)
Lemma address_alone_fails a m cs :
  dotted_quad_text a -> dotted_quad_text m ->
  rmatch (Seq Bol (Seq (Grp 1 dotted_digits) Eol))
         (MState 0 (a ++ " "%char :: m) cs) = [].
Proof.
  intros Ha Hm.
  destruct (rmatch _ _) as [|st l] eqn:E; [reflexivity|]. exfalso.
  assert (Hin : In st (rmatch (Seq Bol (Seq (Grp 1 dotted_digits) Eol))
                         (MState 0 (a ++ " "%char :: m) cs)))
    by (rewrite E; left; reflexivity).
  clear E l. cbn [rmatch] in Hin.
  apply in_flat_map in Hin as (st1 & H1 & Hin).
  cbn in H1. destruct H1 as [<- | []].
  apply in_flat_map in Hin as (st2 & H2 & Hin).
  fold (rmatch (Grp 1 dotted_digits) (MState 0 (a ++ " "%char :: m) cs)) in H2.
  apply rmatch_Grp in H2 as (w & [Hw _] & L & _); [|reflexivity].
  destruct (at_end (rest st2)) eqn:He; [|destruct Hin]. cbn [rest] in Hw.
  apply lang_dotted_digits in L as [_ F].
  destruct (dotted_quad_head m Hm) as (c & s & -> & Hc).
  destruct (rest st2) as [|x [|y r]]; cbn in He; try discriminate.
  - rewrite app_nil_r in Hw. subst w.
    apply Forall_app in F as [_ F]. inversion F; subst. discriminate.
  - assert (Hx : digit_or_dot x = false).
    { unfold digit_or_dot.
      destruct (is_digit x) eqn:D.
      - apply is_digit_spec in D. apply Nat.eqb_eq in He. lia.
      - destruct (chr_eqb x "."%char) eqn:Ex; [|reflexivity].
        apply chr_eqb_spec in Ex. subst x. discriminate He. }
    destruct (run_split digit_or_dot a w " "%char x (c :: s) [])
      as (_ & _ & Habs); auto.
    + apply dotted_quad_chars. exact Ha.
    + discriminate Habs.
Qed.

Lemma match_at_Alt_skip r1 r2 n s :
  rmatch r1 (MState n s []) = [] -> match_at (Alt r1 r2) n s = match_at r2 n s.
Proof. intros H. unfold match_at. cbn [rmatch]. rewrite H. reflexivity. Qed.

(** On "a m" the second alternative matches, and every way it matches
    captures [a] as the address and [m] as the netmask. *)
Lemma search_pair a m :
  dotted_quad_text a -> dotted_quad_text m ->
  exists mm, search RGX_IPV4ADDR_NETMASK (a ++ " "%char :: m) = Some mm /\
             caps (m_end mm) = [(3%nat, m); (2%nat, a)].
Proof.
  intros Ha Hm. set (w := a ++ " "%char :: m).
  set (A1 := Seq Bol (Seq (Grp 2 dotted_digits)
              (Seq (Alt (Plus is_space) (Cls (chr_eqb "/"%char)))
              (Seq (Grp 3 dotted_digits) Eol)))).
  set (st0 := MState 0 w []).
  assert (Hin : exists st, In st (rmatch A1 st0)).
  { eexists. unfold A1, st0, w.
    eapply rmatch_Seq_intro; [cbn; left; reflexivity|].
    eapply rmatch_Seq_intro; [apply (rmatch_Grp_dotted_quad 2 a 0); exact Ha|].
    eapply rmatch_Seq_intro.
    - cbn [rmatch]. apply in_or_app. left.
      apply (rmatch_Plus_intro is_space [" "%char]); [discriminate|].
      constructor; [reflexivity | constructor].
    - eapply rmatch_Seq_intro.
      + pose proof (rmatch_Grp_dotted_quad 3 m (0 + length a + length [" "%char])
                      [] [(2%nat, a)] Hm) as H.
        rewrite app_nil_r in H. exact H.
      + cbn. left. reflexivity. }
  assert (Hall : forall st, In st (rmatch A1 st0) ->
                            caps st = [(3%nat, m); (2%nat, a)]).
  { intros st H. unfold A1, st0 in H. cbn [rmatch] in H.
    apply in_flat_map in H as (st1 & H1 & H).
    cbn in H1. destruct H1 as [<- | []].
    apply in_flat_map in H as (st2 & H2 & H).
    fold (rmatch (Grp 2 dotted_digits) (MState 0 w [])) in H2.
    apply rmatch_Grp in H2 as (w2 & [Hw2 _] & L2 & Hc2); [|reflexivity].
    apply in_flat_map in H as (st3 & H3 & H).
    fold (rmatch (Alt (Plus is_space) (Cls (chr_eqb "/"%char))) st2) in H3.
    pose proof (rmatch_caps (Alt (Plus is_space) (Cls (chr_eqb "/"%char)))
                  _ _ eq_refl H3) as Hc3.
    apply rmatch_sound in H3 as (ws & [Hws _] & Ls).
    apply in_flat_map in H as (st4 & H4 & H).
    fold (rmatch (Grp 3 dotted_digits) st3) in H4.
    apply rmatch_Grp in H4 as (w3 & [Hw3 _] & L3 & Hc4); [|reflexivity].
    destruct (at_end (rest st4)) eqn:He; [|destruct H].
    destruct H as [<- | []].
    cbn [rest caps] in Hw2, Hc2.
    apply lang_dotted_digits in L2 as [_ F2], L3 as [N3 F3].
    assert (Hsep : exists x ws', ws = x :: ws' /\ digit_or_dot x = false /\
                                 Forall (fun c => is_space c = true) ws').
    { cbn [lang] in Ls. destruct Ls as [[N F] | (x & -> & Hx)].
      - destruct ws as [|x ws']; [congruence|]. inversion F; subst.
        exists x, ws'. split; [reflexivity|]. split; [|assumption].
        apply digit_or_dot_space. assumption.
      - exists x, []. split; [reflexivity|]. split; [|constructor].
        apply chr_eqb_spec in Hx. subst x. reflexivity. }
    destruct Hsep as (x & ws' & -> & Hx & Fs).
    rewrite Hws in Hw2. cbn [app] in Hw2. unfold w in Hw2.
    destruct (run_split digit_or_dot a w2 " "%char x m (ws' ++ rest st3))
      as (<- & <- & Em); auto.
    { apply dotted_quad_chars. exact Ha. }
    destruct ws' as [|y ws'].
    - cbn [app] in Em. rewrite Hw3 in Em.
      destruct (at_end_suffix m w3 (rest st4)) as [_ ->]; auto.
      + apply dotted_quad_no_newline. exact Hm.
      + rewrite Hc4, Hc3, Hc2. reflexivity.
    - exfalso. inversion Fs; subst.
      pose proof (dotted_quad_chars _ Hm) as Fm. cbn [app] in Fm.
      inversion Fm; subst.
      rewrite digit_or_dot_space in H3 by assumption. discriminate. }
  unfold search.
  assert (Hhd : exists st, match_at RGX_IPV4ADDR_NETMASK 0 w = Some st /\
                           caps st = [(3%nat, m); (2%nat, a)]).
  { unfold RGX_IPV4ADDR_NETMASK.
    rewrite match_at_Alt_skip by (apply address_alone_fails; assumption).
    unfold match_at.
    match goal with
    | |- context [rmatch (Alt ?r1 ?r2) ?st] =>
        change (rmatch (Alt r1 r2) st) with (rmatch A1 st0 ++ rmatch r2 st0)
    end.
    destruct Hin as (st1 & Hin).
    destruct (rmatch A1 st0) as [|x l] eqn:E; [destruct Hin|].
    exists x. split; [reflexivity|]. apply Hall. left. reflexivity. }
  destruct Hhd as (st & Hst & Hcaps).
  exists (MatchObj 0 w st). split; [|exact Hcaps].
  apply search_from_hit. exact Hst.
Qed.

Lemma dotted_quad_truthy IP : dotted_quad_text IP -> truthy IP = true.
Proof. intros H. destruct (dotted_quad_head IP H) as (c & s & -> & _). reflexivity. Qed.

(** [IPv4Obj] on a pair "address mask": the address always parses, and
    the outcome is decided by the mask alone. *)
Lemma IPv4Obj_init_pair a m :
  dotted_quad_text a -> dotted_quad_text m ->
  IPv4Obj_init (a ++ " "%char :: m) =
  match pair_network a m with
  | Some n => Return n
  | None => Raise NetmaskValueError
  end.
Proof.
  intros Ha Hm.
  destruct (search_pair a m Ha Hm) as (mm & Hs & Hcaps).
  unfold IPv4Obj_init. rewrite Hs, Hcaps. cbn [group Nat.eqb first_truthy].
  rewrite (dotted_quad_truthy a Ha), (dotted_quad_truthy m Hm).
  destruct Ha as (o1 & o2 & o3 & o4 & -> & H1 & H2 & H3 & H4).
  rewrite split_dotted by assumption.
  unfold ip_int_from_octets. cbn [map length Nat.eqb negb parse_octets].
  rewrite !parse_octet_normalised by (apply octet_text_value; assumption).
  cbn [bind]. unfold pair_network. rewrite ?(dotted_quad_truthy m Hm).
  rewrite host_value_dotted by assumption.
  destruct (prefix_from_ip_string m) as [p|e] eqn:E; cbn [bind]; [reflexivity|].
  apply prefix_from_ip_string_raises in E. subst e. reflexivity.
Qed.

(** X15. Every pair the bare-subnet pattern captures is read by
    [IPv4Obj] as the first address with the prefix length of the second
    quad; when the second quad is neither a netmask nor a hostmask the
    parse raises [NetmaskValueError].  No other outcome exists. *)
Theorem bare_subnet_pair_parse (text IP : list ascii) :
  In IP (findall RE_BARE_SUBNET text) ->
  exists a m, IP = a ++ " "%char :: m /\
    IPv4Obj_init IP = match pair_network a m with
                      | Some n => Return n
                      | None => Raise NetmaskValueError
                      end.
Proof.
  intros H. apply findall_bare_subnet_quads in H as (a & m & -> & Ha & Hm).
  exists a, m. split; [reflexivity|]. apply IPv4Obj_init_pair; assumption.
Qed.

(** The range of an address is a block of [2^k] addresses that starts
    at a multiple of [2^k]. *)
Lemma range_block (a : IPv4Obj) :
  valid a ->
  exists k x, 0 <= k <= 32 /\ network a = 2 ^ k * x /\
              broadcast a = 2 ^ k * x + 2 ^ k - 1.
Proof.
  intros Va. destruct (network_bounds a Va) as (H0 & Hb & _).
  destruct Va as [_ Hp]. destruct (hostmask_value a Hp) as (Hh & Hd & _).
  assert (Hz : Z.land (network a) (hostmask a) = 0).
  { unfold network. rewrite <- Z.land_assoc, Hd. apply Z.land_0_r. }
  exists (32 - prefixlen a), (network a / 2 ^ (32 - prefixlen a)).
  split; [lia|].
  assert (Hm : network a mod 2 ^ (32 - prefixlen a) = 0).
  { rewrite <- Z.land_ones by lia. rewrite Z.ones_equiv, <- Z.sub_1_r, <- Hh.
    exact Hz. }
  assert (Hpos : 0 < 2 ^ (32 - prefixlen a)) by (apply Z.pow_pos_nonneg; lia).
  pose proof (Z.div_mod (network a) (2 ^ (32 - prefixlen a)) ltac:(lia)) as Hdm.
  split; [lia|]. rewrite Hb, Hh. lia.
Qed.

(** Two aligned blocks that share an address are nested. *)
Lemma blocks_nested (k k' x y n : Z) :
  0 <= k <= k' ->
  2 ^ k * x <= n < 2 ^ k * x + 2 ^ k ->
  2 ^ k' * y <= n < 2 ^ k' * y + 2 ^ k' ->
  2 ^ k' * y <= 2 ^ k * x /\ 2 ^ k * x + 2 ^ k <= 2 ^ k' * y + 2 ^ k'.
Proof.
  intros Hk Hx Hy.
  replace k' with (k + (k' - k)) in * by lia.
  rewrite Z.pow_add_r in * by lia.
  assert (HA : 0 < 2 ^ k) by (apply Z.pow_pos_nonneg; lia).
  assert (HM : 0 < 2 ^ (k' - k)) by (apply Z.pow_pos_nonneg; lia).
  set (A := 2 ^ k) in *. set (M := 2 ^ (k' - k)) in *.
  assert (H1 : M * y < x + 1) by nia.
  assert (H2 : x < M * (y + 1)) by nia.
  split; nia.
Qed.

(** Ranges are nested or apart: a range that meets a wider query on one
    side of the test meets every query that contains that one. *)
Lemma range_laminar (q q' a : IPv4Obj) :
  valid q -> valid q' -> valid a ->
  range_containsb q' q = true ->
  range_containsb q a || range_containsb a q = true ->
  range_containsb q' a || range_containsb a q' = true.
Proof.
  intros Vq Vq' Va. unfold range_containsb.
  destruct (range_block q Vq) as (kq & xq & Hkq & Nq & Bq).
  destruct (range_block q' Vq') as (k' & y & Hk' & Nq' & Bq').
  destruct (range_block a Va) as (k & x & Hk & Na & Ba).
  rewrite Nq, Bq, Nq', Bq', Na, Ba.
  assert (0 < 2 ^ kq) by (apply Z.pow_pos_nonneg; lia).
  rewrite !orb_true_iff, !andb_true_iff, !Z.leb_le.
  intros [H1 H2] [[H3 H4] | [H3 H4]].
  - left. lia.
  - destruct (Z.le_gt_cases k k') as [L | L].
    + left.
      destruct (blocks_nested k k' x y (2 ^ kq * xq)) as [G1 G2]; lia.
    + right.
      destruct (blocks_nested k' k y x (2 ^ kq * xq)) as [G1 G2]; lia.
Qed.

Lemma contains_either_widens (q q' a : IPv4Obj) :
  valid q -> valid q' -> valid a ->
  range_containsb q' q = true ->
  contains_or_is_contained a q = true -> contains_or_is_contained a q' = true.
Proof.
  intros Vq Vq' Va Hw.
  rewrite !contains_or_is_contained_orb, !contains_range by assumption.
  apply range_laminar; assumption.
Qed.

Lemma scan_children_widens h q q' cs b :
  valid q -> valid q' -> range_containsb q' q = true ->
  scan_children h q cs = Return b ->
  exists b', scan_children h q' cs = Return b' /\ (b = true -> b' = true).
Proof.
  intros Vq Vq' Hw. induction cs as [|c cs IH]; cbn [scan_children].
  - intros [= <-]. exists false. auto.
  - destruct (if negb (opt_truthy (re_match h c RE_HOST None))
              then re_match h c RE_SUBNET None else re_match h c RE_HOST None)
      as [s|]; [|exact IH].
    destruct (truthy s); [|exact IH].
    destruct (IPv4Obj_init s) as [a|e] eqn:Ha; cbn [bind]; [|discriminate].
    pose proof (IPv4Obj_init_valid _ _ Ha) as Va.
    destruct (contains_or_is_contained a q) eqn:C.
    + rewrite (contains_either_widens q q' a) by assumption.
      intros _. exists true. auto.
    + intros H. destruct (contains_or_is_contained a q').
      * exists true. auto.
      * apply IH. exact H.
Qed.

Lemma match_network_objects_loop_widens h q q' objs :
  valid q -> valid q' -> range_containsb q' q = true ->
  forall acc acc' out,
    incl acc acc' ->
    match_network_objects_loop h q objs acc = Return out ->
    exists out', match_network_objects_loop h q' objs acc' = Return out' /\
                 incl out out'.
Proof.
  intros Vq Vq' Hw.
  induction objs as [|obj objs IH]; intros acc acc' out Hi;
    cbn [match_network_objects_loop].
  - intros [= <-]. eauto.
  - destruct (scan_children h q (children_of h obj)) as [b|e] eqn:E; cbn [bind];
      [|discriminate].
    destruct (scan_children_widens h q q' _ b Vq Vq' Hw E) as (b' & -> & Hb).
    cbn [bind]. apply IH.
    destruct b.
    + rewrite Hb by reflexivity.
      apply incl_app; [apply incl_appl; exact Hi | apply incl_appr, incl_refl].
    + destruct b'; [apply incl_appl|]; exact Hi.
Qed.

(** X16. Widening the query never loses a network object: when
    [match_network_objects] returns for a query, it also returns for
    every query whose range contains that one, and with every object it
    returned before. *)
Theorem match_network_objects_widening
    (h : heap) (q q' : IPv4Obj) (objs out : list loc) :
  valid q -> valid q' -> range_containsb q' q = true ->
  match_network_objects h q objs = Return out ->
  exists out', match_network_objects h q' objs = Return out' /\
               forall obj, In obj out -> In obj out'.
Proof.
  intros Vq Vq' Hw H.
  destruct (match_network_objects_loop_widens h q q' objs Vq Vq' Hw [] [] out
              (incl_refl _) H) as (out' & H' & Hi).
  exists out'. split; [exact H' | exact Hi].
Qed.

(** Whether the loop over the children of a group raises depends on the
    children alone, not on the query nor on the matched objects. *)
Lemma collect_children_returns h q q' mo mo' cs : forall acc acc' out,
  collect_children h q mo cs acc = Return out ->
  exists out', collect_children h q' mo' cs acc' = Return out'.
Proof.
  induction cs as [|c cs IH]; intros acc acc' out; cbn [collect_children]; [eauto|].
  destruct (opt_truthy (re_match h c RE_NETWORK_OBJECT_OBJECT None)).
  - destruct (is_substring_of_obj_list h _ mo), (is_substring_of_obj_list h _ mo');
      apply IH.
  - destruct (opt_truthy (re_match h c RE_NETWORK_OBJECT_HOST None)); [|apply IH].
    destruct (IPv4Obj_init _) as [a|e]; cbn [bind]; [|discriminate].
    destruct (contains q a), (contains q' a); apply IH.
Qed.

Lemma match_network_object_groups_loop_returns h q q' mo mo' groups :
  known h mo -> known h mo' ->
  forall hk hk' acc acc' h1 out,
  h ⊆ hk -> h ⊆ hk' -> known h groups ->
  Forall (fun g => known h (children_of h g)) groups ->
  match_network_object_groups_loop hk q groups mo acc = (h1, Return out) ->
  exists h1' out',
    match_network_object_groups_loop hk' q' groups mo' acc' = (h1', Return out').
Proof.
  intros Hmo Hmo'. induction groups as [|g groups IH];
    intros hk hk' acc acc' h1 out Hsub Hsub' Hg Hc;
    cbn [match_network_object_groups_loop]; [eauto|].
  inversion Hg as [|? ? Hg1 Hg2]; subst. inversion Hc as [|? ? Hc1 Hc2]; subst.
  rewrite (children_of_known h hk g), (text_of_known h hk g),
          (children_of_known h hk' g), (text_of_known h hk' g) by assumption.
  rewrite (collect_children_same_text h hk), (collect_children_same_text h hk')
    by (apply known_same_text; assumption).
  destruct (collect_children h q mo (children_of h g) []) as [children|e] eqn:E;
    [|discriminate].
  destruct (collect_children_returns h q q' mo mo' _ [] [] children E)
    as (children' & ->).
  assert (Step : forall hx x, h ⊆ hx ->
            let '(hy, p) := IOSCfgLine_init hx (text_of h g) in
            h ⊆ add_children hy p x).
  { intros hx x Hx.
    destruct (IOSCfgLine_init_spec hx (text_of h g)) as [Hn Hh1].
    destruct (IOSCfgLine_init hx (text_of h g)) as [hy p].
    cbn [fst snd] in Hn, Hh1. subst hy.
    etransitivity; [exact Hx | apply add_children_subseteq; exact Hn]. }
  destruct children as [|c cs], children' as [|c' cs'].
  - apply IH; assumption.
  - pose proof (Step hk' (c' :: cs') Hsub') as S'.
    destruct (IOSCfgLine_init hk' (text_of h g)) as [hy' p'].
    apply IH; assumption.
  - pose proof (Step hk (c :: cs) Hsub) as S.
    destruct (IOSCfgLine_init hk (text_of h g)) as [hy p].
    apply IH; assumption.
  - pose proof (Step hk (c :: cs) Hsub) as S.
    pose proof (Step hk' (c' :: cs') Hsub') as S'.
    destruct (IOSCfgLine_init hk (text_of h g)) as [hy p].
    destruct (IOSCfgLine_init hk' (text_of h g)) as [hy' p'].
    apply IH; assumption.
Qed.

Lemma range_containsb_trans (q' q a : IPv4Obj) :
  range_containsb q' q = true -> range_containsb q a = true ->
  range_containsb q' a = true.
Proof.
  unfold range_containsb. rewrite !andb_true_iff, !Z.leb_le. lia.
Qed.

Lemma in_rangeb_widens (q' q : IPv4Obj) x :
  range_containsb q' q = true -> in_rangeb q x = true -> in_rangeb q' x = true.
Proof.
  unfold range_containsb, in_rangeb. rewrite !andb_true_iff, !Z.leb_le. lia.
Qed.

Lemma group_child_matched_widens h q q' mo mo' c :
  range_containsb q' q = true -> incl mo mo' ->
  group_child_matched h q mo c = true -> group_child_matched h q' mo' c = true.
Proof.
  intros Hw Hi. unfold group_child_matched. cbv zeta.
  assert (Hhost :
    match re_match h c RE_NETWORK_OBJECT_HOST None with
    | Some s => match IPv4Obj_init s with
                | Return a => range_containsb q a
                | Raise _ => false
                end
    | None => false
    end = true ->
    match re_match h c RE_NETWORK_OBJECT_HOST None with
    | Some s => match IPv4Obj_init s with
                | Return a => range_containsb q' a
                | Raise _ => false
                end
    | None => false
    end = true).
  { destruct (re_match h c RE_NETWORK_OBJECT_HOST None) as [s|]; [|auto].
    destruct (IPv4Obj_init s) as [a|]; [|auto].
    apply range_containsb_trans. exact Hw. }
  destruct (re_match h c RE_NETWORK_OBJECT_OBJECT None) as [name|]; [|exact Hhost].
  destruct (truthy name); [|exact Hhost].
  rewrite !existsb_exists. intros (obj & Ho & Ht). exists obj. split; [auto | exact Ht].
Qed.

Lemma matched_group_widens h q q' mo mo' g :
  range_containsb q' q = true -> incl mo mo' ->
  matched_group h q mo g = true -> matched_group h q' mo' g = true.
Proof.
  intros Hw Hi. unfold matched_group. rewrite !existsb_exists.
  intros (c & Hc & Hm). exists c. split; [exact Hc|].
  eapply group_child_matched_widens; eassumption.
Qed.

Lemma Forall2_In_l {A B} (R : A -> B -> Prop) l l' x :
  Forall2 R l l' -> In x l -> exists y, In y l' /\ R x y.
Proof.
  induction 1 as [|a b l l' Hab _ IH]; intros Hin; [destruct Hin|].
  destruct Hin as [<- | Hin].
  - exists b. split; [left; reflexivity | exact Hab].
  - destruct (IH Hin) as (y & Hy & Hr). exists y. split; [right; exact Hy | exact Hr].
Qed.

Lemma Forall2_In_r {A B} (R : A -> B -> Prop) l l' y :
  Forall2 R l l' -> In y l' -> exists x, In x l /\ R x y.
Proof.
  induction 1 as [|a b l l' Hab _ IH]; intros Hin; [destruct Hin|].
  destruct Hin as [<- | Hin].
  - exists a. split; [left; reflexivity | exact Hab].
  - destruct (IH Hin) as (x & Hx & Hr). exists x. split; [right; exact Hx | exact Hr].
Qed.

Lemma pair_covered_widens q q' IP :
  range_containsb q' q = true -> pair_covered q IP = true -> pair_covered q' IP = true.
Proof.
  intros Hw. unfold pair_covered. destruct (IPv4Obj_init IP); [|auto].
  apply range_containsb_trans. exact Hw.
Qed.

Lemma name_of_same_text (h hk : heap) r l l' :
  text_of hk l' = text_of h l -> name_of hk r l' = name_of h r l.
Proof. intros H. unfold name_of, re_match. rewrite H. reflexivity. Qed.

Lemma main_of_general_query h config args q :
  check_arguments args = Return tt ->
  opt_truthy (ip args) = true ->
  IPv4Obj_init (default [] (ip args)) = Return q ->
  main h config args = run h config (Some q) None None.
Proof.
  intros Hchk Ti Hq.
  destruct (check_arguments_general args Hchk Ti) as (To & Ts & Td).
  unfold main. rewrite Hchk, To. cbn [andb].
  unfold cast_argument at 1. rewrite Ti, Hq.
  rewrite (cast_argument_absent _ Ts), (cast_argument_absent _ Td). reflexivity.
Qed.

Lemma conditions_met_positive h mo mg q line :
  (0 < conditions_met h mo mg q line)%nat <->
  names_object h mo line = true \/ names_group h mg line = true \/
  has_host_in h q line = true \/ has_subnet_in h q line = true.
Proof.
  unfold conditions_met.
  destruct (names_object h mo line), (names_group h mg line),
           (has_host_in h q line), (has_subnet_in h q line); cbn; split;
    intros H; try lia; auto 6.
Qed.

Lemma in_reported l (f : loc -> nat) ACL :
  In l (flat_map (fun line => repeat line (f line)) ACL) <->
  In l ACL /\ (0 < f l)%nat.
Proof.
  rewrite in_flat_map. split.
  - intros (line & Hl & Hr). pose proof (repeat_spec _ _ _ Hr). subst l.
    split; [exact Hl|]. destruct (f line); [destruct Hr | lia].
  - intros [Hl Hp]. exists l. split; [exact Hl|].
    destruct (f l); [lia | left; reflexivity].
Qed.

(** X17. A wider query reports at least as much.  When the run for a
    query returns a result, so does the run for every query whose range
    contains that one, over the same configuration; and every network
    object, every group (by its text) and every access-list line of the
    first result is in the second. *)
Theorem wider_query_reports_more
    (h : heap) (config : list loc) (args args' : Namespace) (q q' : IPv4Obj)
    (res : Result) :
  check_arguments args' = Return tt ->
  opt_truthy (ip args') = true ->
  IPv4Obj_init (default [] (ip args)) = Return q ->
  IPv4Obj_init (default [] (ip args')) = Return q' ->
  range_containsb q' q = true ->
  known h config ->
  Forall (fun l => known h (children_of h l)) config ->
  snd (main h config args) = Return res ->
  exists res',
    snd (main h config args') = Return res' /\
    (forall obj, In obj (matched_objects res) -> In obj (matched_objects res')) /\
    (forall g, In g (matched_groups res) ->
       exists g', In g' (matched_groups res') /\
                  text_of (fst (main h config args')) g'
                  = text_of (fst (main h config args)) g) /\
    (forall l, In l (ACL_matches res) -> In l (ACL_matches res')).
Proof.
  intros Hchk' Ti' Hq Hq' Hw Hk Hkc H.
  pose proof (IPv4Obj_init_valid _ _ Hq) as Vq.
  pose proof (IPv4Obj_init_valid _ _ Hq') as Vq'.
  destruct (main_general h config args res H) as (q0 & Hq0 & E).
  rewrite Hq in Hq0. injection Hq0 as <-.
  rewrite (main_of_general_query h config args' q' Hchk' Ti' Hq').
  rewrite E in *. clear E. revert H. rewrite !run_general. cbv zeta.
  assert (Hsel : forall r, incl (find_objects h config r) config).
  { intros r l Hl. apply find_objects_In in Hl as [Hl _]. exact Hl. }
  assert (Hkn : forall ls, incl ls config -> known h ls).
  { intros ls Hi. unfold known in *. rewrite List.Forall_forall in *. auto. }
  assert (Hkcn : forall ls, incl ls config ->
            Forall (fun g => known h (children_of h g)) ls).
  { intros ls Hi. rewrite List.Forall_forall in *. auto. }
  destruct (match_network_objects h q _) as [mo|e] eqn:Eo; [|discriminate].
  destruct (match_network_objects_loop_widens h q q' _ Vq Vq' Hw [] [] mo
              (incl_refl _) Eo) as (mo' & Eo' & Hi).
  unfold match_network_objects. rewrite Eo'.
  pose proof (match_network_objects_loop_spec h q _ [] mo Vq Eo) as Ho.
  pose proof (match_network_objects_loop_spec h q' _ [] mo' Vq' Eo') as Ho'.
  cbn [app] in Ho, Ho'.
  assert (Hko : known h mo).
  { apply Hkn. rewrite Ho. intros l Hl. apply filter_In in Hl as [Hl _].
    exact (Hsel _ _ Hl). }
  assert (Hko' : known h mo').
  { apply Hkn. rewrite Ho'. intros l Hl. apply filter_In in Hl as [Hl _].
    exact (Hsel _ _ Hl). }
  set (groups := find_objects h config RE_OBJECT_GROUP).
  destruct (match_network_object_groups h q groups mo) as [h1 [mg|e]] eqn:Eg;
    [|discriminate].
  unfold match_network_object_groups in Eg.
  destruct (match_network_object_groups_loop_returns h q q' mo mo' groups Hko Hko'
              h h [] [] h1 mg (reflexivity _) (reflexivity _)
              (Hkn _ (Hsel _)) (Hkcn _ (Hsel _)) Eg) as (h1' & mg' & Eg').
  unfold match_network_object_groups. rewrite Eg'. cbn [fst snd].
  rewrite !ACL_loop_counts by assumption. cbn [bind app].
  intros [= <-]. eexists. split; [reflexivity|].
  cbn [matched_objects matched_groups ACL_matches].
  destruct (match_network_object_groups_loop_frame _ _ _ _ _ _ _ Eg) as [Hsub _].
  destruct (match_network_object_groups_loop_frame _ _ _ _ _ _ _ Eg') as [Hsub' _].
  destruct (match_network_object_groups_loop_spec h q mo groups Vq Hko h [] h1 mg
              (reflexivity _) (Hkn _ (Hsel _)) (Hkcn _ (Hsel _)) Eg)
    as (new & -> & F).
  destruct (match_network_object_groups_loop_spec h q' mo' groups Vq' Hko' h [] h1' mg'
              (reflexivity _) (Hkn _ (Hsel _)) (Hkcn _ (Hsel _)) Eg')
    as (new' & -> & F').
  cbn [app] in *.
  assert (Hgrp : forall g, In g new ->
            exists g', In g' new' /\ text_of h1' g' = text_of h1 g).
  { intros g Hg. destruct (Forall2_In_l _ _ _ g F Hg) as (g0 & Hg0 & _ & Ht & _).
    apply filter_In in Hg0 as [Hg0 Hm].
    assert (Hg0' : In g0 (List.filter (matched_group h q' mo') groups)).
    { apply filter_In. split; [exact Hg0|].
      eapply matched_group_widens; eassumption. }
    destruct (Forall2_In_r _ _ _ g0 F' Hg0') as (g' & Hg' & _ & Ht' & _).
    exists g'. split; [exact Hg'|]. congruence. }
  assert (Htxt : forall l, In l config ->
            text_of h1 l = text_of h l /\ text_of h1' l = text_of h l).
  { intros l Hl. unfold known in Hk. rewrite List.Forall_forall in Hk.
    split; apply text_of_known; auto. }
  split; [exact Hi|]. split; [exact Hgrp|].
  intros l Hl. apply in_reported in Hl as [Hl Hp]. apply in_reported.
  apply find_objects_In in Hl as [Hc (mm & Hs)].
  destruct (Htxt l Hc) as [T1 T1'].
  split.
  - apply find_objects_In. split; [exact Hc|]. exists mm. rewrite T1', <- T1. exact Hs.
  - apply conditions_met_positive. apply conditions_met_positive in Hp.
    destruct Hp as [Hp | [Hp | [Hp | Hp]]].
    + left. unfold names_object in *. rewrite existsb_exists in *.
      destruct Hp as (obj & Hobj & Hn). exists obj. split; [auto|].
      assert (Ko : In obj config).
      { rewrite Ho in Hobj. apply filter_In in Hobj as [Hobj _]. exact (Hsel _ _ Hobj). }
      destruct (Htxt obj Ko) as [To To'].
      rewrite (name_of_same_text h1 h1' _ obj obj) by congruence.
      rewrite T1', <- T1. exact Hn.
    + right. left. unfold names_group in *. rewrite existsb_exists in *.
      destruct Hp as (g & Hg & Hn). destruct (Hgrp g Hg) as (g' & Hg' & Ht).
      exists g'. split; [exact Hg'|].
      rewrite (name_of_same_text h1 h1' _ g g') by exact Ht.
      rewrite T1', <- T1. exact Hn.
    + right. right. left. unfold has_host_in in *. rewrite existsb_exists in *.
      destruct Hp as (IP & HIP & Hr). exists IP. rewrite T1', <- T1.
      split; [exact HIP|]. eapply in_rangeb_widens; eassumption.
    + right. right. right. unfold has_subnet_in in *. rewrite existsb_exists in *.
      destruct Hp as (IP & HIP & Hr). exists IP. rewrite T1', <- T1.
      split; [exact HIP|]. eapply pair_covered_widens; eassumption.
Qed.

Lemma name_of_keyword h l pre name :
  word_of non_space name -> text_of h l = pre ++ name ->
  name_of h (Seq Bol (Seq (Lit pre) (captured_tail non_space))) l = name.
Proof.
  intros Hw Ht. unfold name_of.
  rewrite (re_match_keyword h l pre non_space name _ eq_refl Hw Ht). reflexivity.
Qed.

(** X19. What the tool is for: when a run returns, every access-list
    line of the configuration in which the name of a matched object or
    of a matched group occurs is among the reported lines. *)
Theorem lines_naming_a_match_are_reported
    (h : heap) (config : list loc) (args : Namespace) (res : Result)
    (line : loc) (name : list ascii) :
  known h config ->
  snd (main h config args) = Return res ->
  In line config ->
  startswith (str "access-list ") (text_of h line) = true ->
  word_of non_space name ->
  contains_text name (text_of h line) = true ->
  (exists obj, In obj (matched_objects res) /\
     text_of (fst (main h config args)) obj = str "object network " ++ name) \/
  (exists g, In g (matched_groups res) /\
     text_of (fst (main h config args)) g = str "object-group network " ++ name) ->
  In line (ACL_matches res).
Proof.
  intros Hk H Hc Hs Hw Hn.
  destruct (main_general h config args res H) as (q & Hq & E).
  pose proof (IPv4Obj_init_valid _ _ Hq) as Vq.
  pose proof (run_frame h config (Some q) None None) as [Hsub _].
  rewrite E in *. clear E. revert H Hsub. rewrite run_general. cbv zeta.
  destruct (match_network_objects h q _) as [objs|e]; [|discriminate].
  destruct (match_network_object_groups h q _ objs) as [h1 [grps|e]]; [|discriminate].
  cbn [fst snd]. rewrite ACL_loop_counts by exact Vq. cbn [bind app].
  intros [= <-] Hsub. cbn [ACL_matches matched_objects matched_groups].
  assert (T : text_of h1 line = text_of h line).
  { unfold known in Hk. rewrite List.Forall_forall in Hk.
    apply text_of_known; auto. }
  intros Hm. apply in_reported. split.
  - apply find_objects_In. split; [exact Hc|].
    apply search_keyword_prefix. rewrite T. exact Hs.
  - apply conditions_met_positive.
    destruct Hm as [(obj & Ho & Ht) | (g & Hg & Ht)].
    + left. unfold names_object. apply existsb_exists. exists obj.
      split; [exact Ho|].
      change RE_OBJECT_NETWORK with
        (Seq Bol (Seq (Lit (str "object network ")) (captured_tail non_space))).
      rewrite (name_of_keyword h1 obj _ name Hw Ht), T. exact Hn.
    + right. left. unfold names_group. apply existsb_exists. exists g.
      split; [exact Hg|].
      change RE_OBJECT_GROUP with
        (Seq Bol (Seq (Lit (str "object-group network ")) (captured_tail non_space))).
      rewrite (name_of_keyword h1 g _ name Hw Ht), T. exact Hn.
Qed.

(** ** The further properties at work *)

(** Solve [dotted_quad_text] of a literal quad, given its four octets. *)
Ltac octets a b c d :=
  exists a, b, c, d;
  split; [reflexivity|];
  repeat split; try (cbn; lia); try (repeat constructor); by_computation.

Ltac word := split; [discriminate | repeat constructor].

Lemma servers_query_valid : valid servers_query.
Proof. repeat split; by_computation. Defined.

(** X1 at work: the header of the object WEB of the first scenario. *)
Lemma re_match_extracts_names_witness :
  word_of non_space (str "WEB") /\
  re_match web 1%positive RE_OBJECT_NETWORK None = Some (str "WEB").
Proof.
  assert (W : word_of non_space (str "WEB")) by word.
  split; [exact W|].
  apply (proj1 (re_match_extracts_names web 1%positive (str "WEB") None W)).
  vm_compute. reflexivity.
Defined.

(** X3 at work: the line with a bare host and a bare subnet, both in
    10.1.1.0/24, is reported twice. *)
Lemma ACL_loop_reports_per_condition_witness :
  valid servers_query /\
  ACL_loop mixed (Some []) (Some []) (Some servers_query) [1%positive] []
  = Return [1%positive; 1%positive].
Proof.
  split; [exact servers_query_valid|].
  etransitivity;
    [exact (proj1 (ACL_loop_reports_per_condition mixed [] [] servers_query
                     [1%positive] servers_query_valid))
    | vm_compute; reflexivity].
Defined.

(** X4 at work: the object SRV, whose host 10.1.1.5 lies in
    10.1.1.0/24. *)
Lemma match_network_objects_hosts_witness :
  valid servers_query /\
  Forall (fun obj => Forall (host_statement servers) (children_of servers obj))
         [1%positive] /\
  match_network_objects servers servers_query [1%positive] = Return [1%positive].
Proof.
  assert (F : Forall (fun obj => Forall (host_statement servers)
                                   (children_of servers obj)) [1%positive]).
  { constructor; [|constructor].
    change (children_of servers 1%positive) with [2%positive].
    constructor; [|constructor].
    exists (str "10.1.1.5"). split; [vm_compute; reflexivity|].
    octets (str "10") (str "1") (str "1") (str "5"). }
  split; [exact servers_query_valid|]. split; [exact F|].
  etransitivity;
    [exact (match_network_objects_hosts servers servers_query [1%positive]
              servers_query_valid F)
    | vm_compute; reflexivity].
Defined.

(** X5 at work: of the three children of the group SERVERS, the host
    10.1.1.9 and the reference to SRV are kept. *)
Lemma collect_children_of_statements_witness :
  valid servers_query /\
  collect_children servers servers_query [1%positive]
    [4%positive; 5%positive; 6%positive] []
  = Return [4%positive; 5%positive].
Proof.
  assert (F : Forall (fun c => group_host_statement servers c \/
                               group_reference servers c)
                     [4%positive; 5%positive; 6%positive]).
  { constructor; [|constructor; [|constructor; [|constructor]]].
    - left. exists (str "10.1.1.9"). split; [vm_compute; reflexivity|].
      octets (str "10") (str "1") (str "1") (str "9").
    - right. exists (str "SRV"). split; [vm_compute; reflexivity | word].
    - left. exists (str "192.0.2.1"). split; [vm_compute; reflexivity|].
      octets (str "192") (str "0") (str "2") (str "1"). }
  split; [exact servers_query_valid|].
  etransitivity;
    [exact (collect_children_of_statements servers servers_query [1%positive]
              [4%positive; 5%positive; 6%positive] servers_query_valid F)
    | vm_compute; reflexivity].
Defined.

(** X6 at work: the reference to WEB is kept because of the matched
    object WEB-2. *)
Lemma reference_matched_by_occurrence_witness :
  text_of namesake 4%positive = str " network-object object WEB" /\
  text_of namesake 1%positive = str "object network WEB-2" /\
  collect_children namesake web_query [1%positive] [4%positive] []
  = Return [4%positive].
Proof.
  assert (T4 : text_of namesake 4%positive
               = str " network-object object " ++ str "WEB")
    by (vm_compute; reflexivity).
  assert (T1 : text_of namesake 1%positive = str "object network " ++ str "WEB-2")
    by (vm_compute; reflexivity).
  split; [exact T4|]. split; [exact T1|].
  apply (reference_matched_by_occurrence namesake web_query [1%positive]
           4%positive 1%positive (str "WEB") (str "WEB-2")).
  - word.
  - exact T4.
  - left. reflexivity.
  - exact T1.
  - left. vm_compute. reflexivity.
Defined.

(** X7 at work: a query that is no address. *)
Lemma rejected_query_exits_witness :
  rejected (ip (general_query "not-an-address")) /\
  main web web_config (general_query "not-an-address") = (web, Raise SystemExit).
Proof.
  assert (R : rejected (ip (general_query "not-an-address"))).
  { split; [reflexivity|]. exists AssertionError. vm_compute. reflexivity. }
  split; [exact R|].
  apply rejected_query_exits. left. exact R.
Defined.

(** X8 at work: the first scenario has five lines, and six after the
    group WEB-GROUP is returned as the new line 6. *)
Lemma match_network_object_groups_allocates_witness :
  let r := match_network_object_groups web web_query [3%positive] [1%positive] in
  r = (fst r, Return [6%positive]) /\
  size (fst r) = (size web + 1)%nat.
Proof.
  intros r.
  assert (E : r = (fst r, Return [6%positive])) by (vm_compute; reflexivity).
  split; [exact E|].
  exact (proj2 (proj2 (proj2 (match_network_object_groups_allocates web (fst r)
           web_query [3%positive] [1%positive] [6%positive] E)))).
Defined.

Lemma web_config_known : known web web_config.
Proof. repeat constructor; eexists; vm_compute; reflexivity. Defined.

(** X10 at work: the lines reported by the run of the first
    scenario. *)
Lemma reported_lines_are_access_lists_witness :
  known web web_config /\
  match snd (main web web_config (general_query "203.0.113.0/24")) with
  | Return res =>
      Forall (fun l => In l web_config /\
                       startswith (str "access-list ") (text_of web l) = true)
             (ACL_matches res)
  | Raise _ => False
  end.
Proof.
  split; [exact web_config_known|].
  destruct (snd (main web web_config (general_query "203.0.113.0/24")))
    as [res|e] eqn:E.
  - exact (reported_lines_are_access_lists web web_config
             (general_query "203.0.113.0/24") res web_config_known E).
  - vm_compute in E. discriminate E.
Defined.

(** X11 at work: the first scenario meets the conditions, and its run
    returns a result. *)
Lemma general_query_completes_witness :
  check_arguments (general_query "203.0.113.0/24") = Return tt /\
  IPv4Obj_init (default [] (ip (general_query "203.0.113.0/24"))) = Return web_query /\
  known web web_config /\
  exists res, snd (main web web_config (general_query "203.0.113.0/24")) = Return res.
Proof.
  assert (C : check_arguments (general_query "203.0.113.0/24") = Return tt)
    by reflexivity.
  assert (Q : IPv4Obj_init (default [] (ip (general_query "203.0.113.0/24")))
              = Return web_query) by (vm_compute; reflexivity).
  split; [exact C|]. split; [exact Q|]. split; [exact web_config_known|].
  apply (general_query_completes web web_config (general_query "203.0.113.0/24")
           web_query C eq_refl Q web_config_known).
  - repeat constructor; eexists; vm_compute; reflexivity.
  - intros obj child s Ho Hc Hs.
    change (find_objects web web_config RE_OBJECT_NETWORK) with [1%positive] in Ho.
    destruct Ho as [<- | []].
    change (children_of web 1%positive) with [2%positive] in Hc.
    destruct Hc as [<- | []].
    vm_compute in Hs. injection Hs as <-.
    eexists. vm_compute. reflexivity.
  - intros g c s Hg Hc Hs.
    change (find_objects web web_config RE_OBJECT_GROUP) with [3%positive] in Hg.
    destruct Hg as [<- | []].
    change (children_of web 3%positive) with [4%positive] in Hc.
    destruct Hc as [<- | []].
    vm_compute in Hs. discriminate Hs.
Defined.

(** X12 at work: the pair of the mixed line. *)
Lemma bare_subnet_captures_witness :
  In (str "10.1.1.0 255.255.255.0") (findall RE_BARE_SUBNET mixed_text) /\
  exists a m, str "10.1.1.0 255.255.255.0" = a ++ " "%char :: m /\
              dotted_quad_text a /\ dotted_quad_text m /\
              first_address (str "10.1.1.0 255.255.255.0") = a.
Proof.
  assert (H : In (str "10.1.1.0 255.255.255.0") (findall RE_BARE_SUBNET mixed_text))
    by (vm_compute; left; reflexivity).
  split; [exact H|].
  exact (bare_subnet_captures mixed_text (str "10.1.1.0 255.255.255.0") H).
Defined.

(** X13 at work: [-f config -i q] passes the checks. *)
Lemma check_arguments_accepts_witness :
  arguments_accepted (general_query "203.0.113.0/24") = true /\
  accept_arguments (general_query "203.0.113.0/24") = Return tt.
Proof.
  split; [reflexivity|].
  apply (proj1 (check_arguments_accepts (general_query "203.0.113.0/24"))).
  reflexivity.
Defined.

(** X14 at work: the first scenario with a general and a destination
    query stops in a [NameError]. *)
Lemma run_ends_witness :
  let e := NameError "dest_matched_groups" in
  (forall q, Some web_query = Some q -> valid q) /\
  snd (run web web_config (Some web_query) None (Some web_query)) = Raise e /\
  (((exists name, e = NameError name) /\
    (Some web_query = None \/ Some web_query <> None)) \/
   parse_error e).
Proof.
  intros e.
  assert (V : forall q, Some web_query = Some q -> valid q)
    by (intros q [= <-]; exact web_query_valid).
  assert (E : snd (run web web_config (Some web_query) None (Some web_query))
              = Raise e) by (vm_compute; reflexivity).
  split; [exact V|]. split; [exact E|].
  exact (run_ends web web_config (Some web_query) None (Some web_query) e V E).
Defined.

(** X15 at work: the pair of the mixed line is the network
    10.1.1.0/24. *)
Lemma bare_subnet_pair_parse_witness :
  In (str "10.1.1.0 255.255.255.0") (findall RE_BARE_SUBNET mixed_text) /\
  exists a m, str "10.1.1.0 255.255.255.0" = a ++ " "%char :: m /\
    IPv4Obj_init (str "10.1.1.0 255.255.255.0")
    = match pair_network a m with
      | Some n => Return n
      | None => Raise NetmaskValueError
      end.
Proof.
  assert (H : In (str "10.1.1.0 255.255.255.0") (findall RE_BARE_SUBNET mixed_text))
    by (vm_compute; left; reflexivity).
  split; [exact H|].
  exact (bare_subnet_pair_parse mixed_text (str "10.1.1.0 255.255.255.0") H).
Defined.

(** X2 at work: line 1 of the first scenario is selected as the header
    of a network object. *)
Lemma find_objects_selects_witness :
  In 1%positive (find_objects web web_config RE_OBJECT_NETWORK) /\
  exists name r,
    text_of web 1%positive = str "object network " ++ name ++ r /\
    word_of non_space name /\ at_end r = true.
Proof.
  assert (H : In 1%positive (find_objects web web_config RE_OBJECT_NETWORK))
    by (vm_compute; left; reflexivity).
  split; [exact H|].
  exact (proj2 (proj1 (proj1 (find_objects_selects web web_config) 1%positive) H)).
Defined.

Lemma web_host_query_valid : valid web_host_query.
Proof. repeat split; by_computation. Defined.

(** X16 at work: the object WEB, matched for 203.0.113.10, is matched
    for 203.0.113.0/24. *)
Lemma match_network_objects_widening_witness :
  valid web_host_query /\ valid web_query /\
  range_containsb web_query web_host_query = true /\
  match_network_objects web web_host_query [1%positive] = Return [1%positive] /\
  exists out', match_network_objects web web_query [1%positive] = Return out' /\
               forall obj, In obj [1%positive] -> In obj out'.
Proof.
  assert (W : range_containsb web_query web_host_query = true)
    by (vm_compute; reflexivity).
  assert (E : match_network_objects web web_host_query [1%positive]
              = Return [1%positive]) by (vm_compute; reflexivity).
  split; [exact web_host_query_valid|]. split; [exact web_query_valid|].
  split; [exact W|]. split; [exact E|].
  exact (match_network_objects_widening web web_host_query web_query [1%positive]
           [1%positive] web_host_query_valid web_query_valid W E).
Defined.

(** X17 at work: what the first scenario reports for 203.0.113.10 it
    reports for 203.0.113.0/24. *)
Lemma wider_query_reports_more_witness :
  match snd (main web web_config (general_query "203.0.113.10")) with
  | Return res =>
      exists res',
        snd (main web web_config (general_query "203.0.113.0/24")) = Return res' /\
        forall l, In l (ACL_matches res) -> In l (ACL_matches res')
  | Raise _ => False
  end.
Proof.
  destruct (snd (main web web_config (general_query "203.0.113.10")))
    as [res|e] eqn:E.
  - assert (Q : IPv4Obj_init (default [] (ip (general_query "203.0.113.10")))
                = Return web_host_query) by (vm_compute; reflexivity).
    assert (Q' : IPv4Obj_init (default [] (ip (general_query "203.0.113.0/24")))
                 = Return web_query) by (vm_compute; reflexivity).
    assert (W : range_containsb web_query web_host_query = true)
      by (vm_compute; reflexivity).
    assert (KC : Forall (fun l => known web (children_of web l)) web_config)
      by (repeat constructor; eexists; vm_compute; reflexivity).
    destruct (wider_query_reports_more web web_config
                (general_query "203.0.113.10") (general_query "203.0.113.0/24")
                web_host_query web_query res eq_refl eq_refl Q Q' W
                web_config_known KC E) as (res' & H1 & _ & _ & H4).
    exists res'. split; assumption.
  - vm_compute in E. discriminate E.
Defined.

(** X19 at work: the access-list line of the first scenario names the
    matched object WEB. *)
Lemma lines_naming_a_match_are_reported_witness :
  match snd (main web web_config (general_query "203.0.113.0/24")) with
  | Return res => In 1%positive (matched_objects res) /\
                  In 5%positive (ACL_matches res)
  | Raise _ => False
  end.
Proof.
  destruct (snd (main web web_config (general_query "203.0.113.0/24")))
    as [res|e] eqn:E.
  - assert (Ho : In 1%positive (matched_objects res)).
    { vm_compute in E. injection E as <-. left. reflexivity. }
    split; [exact Ho|].
    apply (lines_naming_a_match_are_reported web web_config
             (general_query "203.0.113.0/24") res 5%positive (str "WEB")
             web_config_known E).
    + vm_compute. tauto.
    + vm_compute. reflexivity.
    + split; [discriminate | repeat constructor].
    + vm_compute. reflexivity.
    + left. exists 1%positive. split; [exact Ho|]. vm_compute. reflexivity.
  - vm_compute in E. discriminate E.
Defined.
